(** * Timetable extraction engine (scripts/timetable_parser.py)

    A shallow embedding of the timetable parser and of the two helpers it
    borrows (normalize_space from scripts/pipeline_utils.py and the parts of
    Python's [re], [str] and [int] that the parser calls), followed by the
    properties of the grid builder, the group-column detector, the field
    classifier and the two layout strategies.

    Text model.  A Python [str] is a Rocq [string] holding the UTF-8 bytes of
    the text.  The character classes ([\w], [\d], [\s], [str.isupper], ...)
    are the ASCII ones; the only characters outside ASCII that the parser
    itself names are the en dash and the em dash, which are kept as their
    byte sequences.  On ASCII text [unicodedata.normalize("NFKD", _)] is the
    identity and no character is combining, so [_fold] is lower-casing.

    Document model.  BeautifulSoup is outside the repository: a document is
    the data its queries return ([find_all], [get_text], [get], [find],
    [previous_sibling]), see [Soup] below. *)

From Stdlib Require Import ZArith Ascii String List Lia Bool Arith.
From stdpp Require Import gmap strings list sorting pretty.

Open Scope string_scope.
Open Scope Z_scope.
Open Scope nat_scope.
Open Scope list_scope.

(** ** Characters *)

Module Chars.

Definition code (c : ascii) : nat := nat_of_ascii c.

Definition between (lo hi : nat) (c : ascii) : bool :=
  (lo <=? code c) && (code c <=? hi).

Definition is_digit : ascii → bool := between 48 57.
Definition is_upper : ascii → bool := between 65 90.
Definition is_lower : ascii → bool := between 97 122.
Definition is_alpha (c : ascii) : bool := is_upper c || is_lower c.

(** [\w] on ASCII text. *)
Definition is_word (c : ascii) : bool :=
  is_alpha c || is_digit c || (code c =? 95).

(** [str.isspace] and [\s] on ASCII text: tab, LF, VT, FF, CR,
    the four separators 0x1c..0x1f and the space. *)
Definition is_space (c : ascii) : bool :=
  between 9 13 c || between 28 31 c || (code c =? 32).

Definition lower (c : ascii) : ascii :=
  if is_upper c then ascii_of_nat (code c + 32) else c.

Definition upper (c : ascii) : ascii :=
  if is_lower c then ascii_of_nat (code c - 32) else c.

Definition eqb (a b : ascii) : bool := code a =? code b.

(** Equality of characters under [re.IGNORECASE]. *)
Definition eqb_ci (a b : ascii) : bool := eqb (lower a) (lower b).

Definition one_of (cs : string) (c : ascii) : bool :=
  existsb (eqb c) (list_ascii_of_string cs).

Definition newline : ascii := ascii_of_nat 10.

End Chars.

(** ** A backtracking matcher for the patterns of the parser

    Python's [re] explores alternatives in priority order: the left branch of
    [|] first, one more iteration of a greedy quantifier before leaving it,
    leaving a lazy quantifier before one more iteration.  [run] follows that
    order in continuation-passing style, so the first success is the match
    Python reports. *)

Module Re.

Inductive regex : Type :=
| Eps
| Chr (f : ascii → bool)
| Seq (a b : regex)
| Alt (a b : regex)
| Star (greedy : bool) (a : regex)
| Grp (n : nat) (a : regex)
| WordB
| Bol
| Eol.

(** A position: the character just before it ([None] at the start of the
    text) and what is left to read. *)
Record pos : Type := Pos { before : option ascii; rest : list ascii }.

Definition caps : Type := list (nat * list ascii).
Definition outcome : Type := option (pos * caps).
Definition cont : Type := pos → caps → outcome.

Definition word_at (o : option ascii) : bool :=
  match o with Some c => Chars.is_word c | None => false end.

Definition consumed (p p' : pos) : list ascii :=
  take (length (rest p) - length (rest p')) (rest p).

Definition first_of (a b : outcome) : outcome :=
  match a with Some x => Some x | None => b end.

(** One turn of a quantifier [a*] or [a*?]: [step] matches [a], [again] is
    the quantifier itself after a turn that consumed something (a turn that
    consumes nothing is not repeated), [k] is what follows. *)
Definition star_turn (greedy : bool) (step : cont → pos → caps → outcome)
  (k : cont) (again : cont) (p : pos) (c : caps) : outcome :=
  let more :=
    step (λ p' c', if length (rest p') <? length (rest p) then again p' c' else None)
         p c in
  if greedy then first_of more (k p c) else first_of (k p c) more.

(** Every turn consumes a character, so more turns than there are
    characters left are never needed (see [star_loop_fuel]). *)
Fixpoint star_loop (greedy : bool) (step : cont → pos → caps → outcome)
  (k : cont) (fuel : nat) (p : pos) (c : caps) {struct fuel} : outcome :=
  match fuel with
  | O => k p c
  | S fuel' => star_turn greedy step k (star_loop greedy step k fuel') p c
  end.

Fixpoint run (r : regex) (k : cont) (p : pos) (c : caps) {struct r} : outcome :=
  match r with
  | Eps => k p c
  | Chr f =>
      match rest p with
      | x :: xs => if f x then k (Pos (Some x) xs) c else None
      | [] => None
      end
  | Seq a b => run a (run b k) p c
  | Alt a b => first_of (run a k p c) (run b k p c)
  | Star greedy a => star_loop greedy (run a) k (S (length (rest p))) p c
  | Grp n a => run a (λ p' c', k p' ((n, consumed p p') :: c')) p c
  | WordB =>
      if xorb (word_at (before p)) (word_at (head (rest p)))
      then k p c else None
  | Bol => match before p with None => k p c | Some _ => None end
  | Eol =>
      match rest p with
      | [] => k p c
      | [x] => if Chars.eqb x Chars.newline then k p c else None
      | _ => None
      end
  end.

(** *** Pattern combinators *)

Definition chr (c : ascii) : regex := Chr (Chars.eqb c).
Definition chr_ci (c : ascii) : regex := Chr (Chars.eqb_ci c).
Definition set (cs : string) : regex := Chr (Chars.one_of cs).
Definition digit : regex := Chr Chars.is_digit.
Definition space : regex := Chr Chars.is_space.
(** [.] without [re.DOTALL]. *)
Definition dot : regex := Chr (λ c, negb (Chars.eqb c Chars.newline)).

Definition opt (a : regex) : regex := Alt a Eps.
Definition star (a : regex) : regex := Star true a.
Definition plus (a : regex) : regex := Seq a (Star true a).
Definition plus_lazy (a : regex) : regex := Seq a (Star false a).

Fixpoint seqs (l : list regex) : regex :=
  match l with
  | [] => Eps
  | [a] => a
  | a :: l' => Seq a (seqs l')
  end.

Fixpoint alts (l : list regex) : regex :=
  match l with
  | [] => Chr (λ _, false)
  | [a] => a
  | a :: l' => Alt a (alts l')
  end.

(** [a{m}] and the greedy [a{m,m+extra}]. *)
Fixpoint exactly (m : nat) (a : regex) : regex :=
  match m with O => Eps | S m' => Seq a (exactly m' a) end.

Fixpoint upto (extra : nat) (a : regex) : regex :=
  match extra with O => Eps | S e => opt (Seq a (upto e a)) end.

Definition rep (m n : nat) (a : regex) : regex :=
  Seq (exactly m a) (upto (n - m) a).

Definition lit (s : string) : regex :=
  seqs (map chr (list_ascii_of_string s)).
Definition lit_ci (s : string) : regex :=
  seqs (map chr_ci (list_ascii_of_string s)).

(** *** The entry points of [re] *)

Definition accept : cont := λ p c, Some (p, c).

Definition at_end : cont :=
  λ p c, match rest p with [] => Some (p, c) | _ :: _ => None end.

Definition start (s : string) : pos := Pos None (list_ascii_of_string s).

(** [pattern.match(s)] and [pattern.fullmatch(s)]. *)
Definition match_ (r : regex) (s : string) : outcome := run r accept (start s) [].
Definition fullmatch (r : regex) (s : string) : outcome := run r at_end (start s) [].

(** [pattern.search(s)]: the leftmost position where the pattern matches;
    the result is where the match ends and what it captured. *)
Fixpoint scan (r : regex) (b : option ascii) (s : list ascii) : outcome :=
  match run r accept (Pos b s) [] with
  | Some m => Some m
  | None =>
      match s with
      | [] => None
      | x :: xs => scan r (Some x) xs
      end
  end.

Definition search (r : regex) (s : string) : outcome :=
  scan r None (list_ascii_of_string s).

Definition found (o : outcome) : bool :=
  match o with Some _ => true | None => false end.

(** [m.group(n)]; the most recent capture of a group is the first in the list. *)
Definition group (n : nat) (o : outcome) : option string :=
  match o with
  | Some (_, c) =>
      match List.find (λ e, fst e =? n) c with
      | Some e => Some (string_of_list_ascii (snd e))
      | None => None
      end
  | None => None
  end.

(** The non-overlapping matches from left to right, as [finditer] yields
    them; [skip] counts the characters of the last match still to pass. *)
Fixpoint iter (r : regex) (b : option ascii) (s : list ascii) (skip : nat)
  {struct s} : list (list ascii * caps) :=
  match skip with
  | S k =>
      match s with
      | [] => []
      | x :: xs => iter r (Some x) xs k
      end
  | O =>
      match run r accept (Pos b s) [] with
      | Some (p', c) =>
          let n := length s - length (rest p') in
          (take n s, c) ::
            match s with
            | [] => []
            | x :: xs => iter r (Some x) xs (n - 1)
            end
      | None =>
          match s with
          | [] => []
          | x :: xs => iter r (Some x) xs 0
          end
      end
  end.

(** [pattern.findall(s)] for a pattern with exactly one group. *)
Definition findall1 (r : regex) (s : string) : list string :=
  omap (λ m, group 1 (Some (Pos None [], snd m)))
       (iter r None (list_ascii_of_string s) 0).

(** [pattern.sub(repl, s, count)] for a constant replacement; [limit] is
    [None] for Python's [count=0] (replace all). *)
Fixpoint sub_from (r : regex) (repl : list ascii) (b : option ascii)
  (s : list ascii) (skip : nat) (limit : option nat) {struct s} : list ascii :=
  match skip with
  | S k =>
      match s with
      | [] => []
      | x :: xs => sub_from r repl (Some x) xs k limit
      end
  | O =>
      match limit with
      | Some O => s
      | _ =>
          match run r accept (Pos b s) [] with
          | Some (p', _) =>
              let n := length s - length (rest p') in
              repl ++
                match s with
                | [] => []
                | x :: xs =>
                    (if n =? 0 then [x] else []) ++
                    sub_from r repl (Some x) xs (n - 1) (pred <$> limit)
                end
          | None =>
              match s with
              | [] => []
              | x :: xs => x :: sub_from r repl (Some x) xs 0 limit
              end
          end
      end
  end.

Definition sub (r : regex) (repl : string) (s : string) : string :=
  string_of_list_ascii
    (sub_from r (list_ascii_of_string repl) None (list_ascii_of_string s) 0 None).

Definition sub_count (r : regex) (repl : string) (s : string) (count : nat) : string :=
  string_of_list_ascii
    (sub_from r (list_ascii_of_string repl) None (list_ascii_of_string s) 0
       (Some count)).

(** [pattern.split(s)] for a pattern without groups that matches no empty
    text; [cur] is the piece being read, reversed. *)
Fixpoint split_from (r : regex) (b : option ascii) (s : list ascii)
  (skip : nat) (cur : list ascii) {struct s} : list (list ascii) :=
  match skip with
  | S k =>
      match s with
      | [] => [rev cur]
      | x :: xs => split_from r (Some x) xs k cur
      end
  | O =>
      match s with
      | [] => [rev cur]
      | x :: xs =>
          match run r accept (Pos b s) [] with
          | Some (p', _) =>
              let n := length s - length (rest p') in
              if n =? 0 then split_from r (Some x) xs 0 (x :: cur)
              else rev cur :: split_from r (Some x) xs (n - 1) []
          | None => split_from r (Some x) xs 0 (x :: cur)
          end
      end
  end.

Definition split (r : regex) (s : string) : list string :=
  map string_of_list_ascii (split_from r None (list_ascii_of_string s) 0 []).

End Re.

(** ** The methods of [str] and the [int] constructor that the parser calls *)

Module Py.

Definition chars (s : string) : list ascii := list_ascii_of_string s.
Definition str (l : list ascii) : string := string_of_list_ascii l.

Definition is_empty (s : string) : bool :=
  match s with EmptyString => true | String _ _ => false end.

(** [s or t] on strings. *)
Definition or_else (s t : string) : string := if is_empty s then t else s.

Fixpoint lstrip (f : ascii → bool) (l : list ascii) : list ascii :=
  match l with
  | x :: xs => if f x then lstrip f xs else l
  | [] => []
  end.

Definition strip_chars (f : ascii → bool) (l : list ascii) : list ascii :=
  rev (lstrip f (rev (lstrip f l))).

(** [s.strip()] and [s.strip(cs)]. *)
Definition strip (s : string) : string := str (strip_chars Chars.is_space (chars s)).
Definition strip_of (cs : string) (s : string) : string :=
  str (strip_chars (Chars.one_of cs) (chars s)).

(** The line boundaries of [str.splitlines] on ASCII text. *)
Definition is_linebreak (c : ascii) : bool :=
  Chars.between 10 13 c || Chars.between 28 30 c.

Fixpoint splitlines_from (l : list ascii) (cur : list ascii) : list (list ascii) :=
  match l with
  | [] => match cur with [] => [] | _ :: _ => [rev cur] end
  | x :: xs =>
      if Chars.code x =? 13 then
        match xs with
        | y :: ys =>
            if Chars.code y =? 10 then rev cur :: splitlines_from ys []
            else rev cur :: splitlines_from xs []
        | [] => [rev cur]
        end
      else if is_linebreak x then rev cur :: splitlines_from xs []
      else splitlines_from xs (x :: cur)
  end.

Definition splitlines (s : string) : list string :=
  map str (splitlines_from (chars s) []).

(** [s.split()]: the maximal runs of non-space characters. *)
Fixpoint split_ws_from (l : list ascii) (cur : list ascii) : list (list ascii) :=
  match l with
  | [] => match cur with [] => [] | _ :: _ => [rev cur] end
  | x :: xs =>
      if Chars.is_space x then
        match cur with
        | [] => split_ws_from xs []
        | _ :: _ => rev cur :: split_ws_from xs []
        end
      else split_ws_from xs (x :: cur)
  end.

Definition split_ws (s : string) : list string :=
  map str (split_ws_from (chars s) []).

Definition lower (s : string) : string := str (map Chars.lower (chars s)).
Definition upper (s : string) : string := str (map Chars.upper (chars s)).

(** [s.replace(" ", "")]. *)
Definition remove_spaces (s : string) : string :=
  str (List.filter (λ c, negb (Chars.code c =? 32)) (chars s)).

(** [sep.join(l)]. *)
Fixpoint join (sep : string) (l : list string) : string :=
  match l with
  | [] => ""
  | [a] => a
  | a :: l' => a +:+ sep +:+ join sep l'
  end.

Fixpoint is_prefix (p l : list ascii) : bool :=
  match p, l with
  | [], _ => true
  | a :: p', b :: l' => Chars.eqb a b && is_prefix p' l'
  | _ :: _, [] => false
  end.

(** [s.startswith(p)]. *)
Definition startswith (s p : string) : bool := is_prefix (chars p) (chars s).

Fixpoint is_infix (p l : list ascii) : bool :=
  is_prefix p l || match l with [] => false | _ :: l' => is_infix p l' end.

(** [p in s]. *)
Definition contains (p s : string) : bool := is_infix (chars p) (chars s).

(** [word[0].isupper()] for a non-empty word. *)
Definition first_isupper (s : string) : bool :=
  match s with String c _ => Chars.is_upper c | EmptyString => false end.

(** *** [int(s)] for a string: surrounding white space, an optional sign,
    then decimal digits which single underscores may separate.  Anything
    else is a [ValueError], here [None]. *)

Definition digit_value (c : ascii) : Z := Z.of_nat (Chars.code c - 48).

(** [acc] is the value read so far; [after_digit] tells whether the last
    character was a digit (an underscore must stand between two digits). *)
Fixpoint digits_value (l : list ascii) (acc : Z) (after_digit : bool) : option Z :=
  match l with
  | [] => if after_digit then Some acc else None
  | x :: xs =>
      if Chars.is_digit x then digits_value xs (10 * acc + digit_value x)%Z true
      else if (Chars.code x =? 95) && after_digit then digits_value xs acc false
      else None
  end.

Definition int_of_chars (l : list ascii) : option Z :=
  match strip_chars Chars.is_space l with
  | [] => None
  | x :: xs =>
      if Chars.code x =? 45 then Z.opp <$> digits_value xs 0%Z false
      else if Chars.code x =? 43 then digits_value xs 0%Z false
      else digits_value (x :: xs) 0%Z false
  end.

Definition int (s : string) : option Z := int_of_chars (chars s).

End Py.

(** ** scripts/pipeline_utils.py: normalize_space *)

Definition nl : string := String Chars.newline "".
Definition tab : string := String (ascii_of_nat 9) "".

Definition non_empty (l : list string) : list string :=
  List.filter (λ s, negb (Py.is_empty s)) l.

Definition normalize_space (value : string) (keep_newlines : bool) : string :=
  let value := Py.strip value in
  if keep_newlines then
    let lines :=
      map (λ line, Py.strip (Re.sub (Re.plus (Re.set (" " +:+ tab))) " " line))
          (Py.splitlines value) in
    let lines := non_empty lines in
    Py.join nl lines
  else Re.sub (Re.plus Re.space) " " value.

(** ** scripts/timetable_parser.py: constants *)

Definition DAY_ORDER : list string :=
  ["monday"; "tuesday"; "wednesday"; "thursday"; "friday"].

(** The dictionary in insertion order, which is the order its loops follow. *)
Definition DAY_ALIASES : list (string * string) :=
  [ ("luni", "monday"); ("monday", "monday"); ("hetfo", "monday");
    ("marti", "tuesday"); ("marți", "tuesday"); ("marţi", "tuesday");
    ("tuesday", "tuesday"); ("kedd", "tuesday");
    ("miercuri", "wednesday"); ("wednesday", "wednesday"); ("szerda", "wednesday");
    ("joi", "thursday"); ("thursday", "thursday"); ("csutortok", "thursday");
    ("vineri", "friday"); ("friday", "friday"); ("pentek", "friday") ].

Definition en_dash : string := "–".
Definition em_dash : string := "—".

(** [[-–]] *)
Definition any_dash : Re.regex := Re.Alt (Re.chr "-") (Re.lit en_dash).

(** [\d{1,2}(?::\d{2})?] *)
Definition clock : Re.regex :=
  Re.Seq (Re.rep 1 2 Re.digit) (Re.opt (Re.Seq (Re.chr ":") (Re.exactly 2 Re.digit))).

Definition TIME_RE : Re.regex :=
  Re.seqs [Re.WordB;
           Re.Grp 1 (Re.seqs [clock; Re.star Re.space; any_dash; Re.star Re.space; clock]);
           Re.WordB].

Definition GROUP_RE : Re.regex :=
  Re.seqs [Re.WordB; Re.Grp 1 (Re.rep 3 4 Re.digit); Re.WordB].

Definition TYPE_TAG_RE : Re.regex :=
  Re.seqs [Re.chr "("; Re.alts [Re.chr_ci "c"; Re.chr_ci "s"; Re.chr_ci "l"]; Re.chr ")"].

(** [word\.?] under IGNORECASE *)
Definition abbrev (w : string) : Re.regex := Re.Seq (Re.lit_ci w) (Re.opt (Re.chr ".")).

Definition TITLE_RE : Re.regex :=
  Re.Seq Re.WordB
    (Re.alts [abbrev "prof"; abbrev "asist"; abbrev "conf"; abbrev "lect"; abbrev "dr"]).

(** [(?:sala|room|amf(?:iteatru)?|aula|lab(?:orator)?)] under IGNORECASE *)
Definition room_word : Re.regex :=
  Re.alts [Re.lit_ci "sala"; Re.lit_ci "room";
           Re.Seq (Re.lit_ci "amf") (Re.opt (Re.lit_ci "iteatru"));
           Re.lit_ci "aula";
           Re.Seq (Re.lit_ci "lab") (Re.opt (Re.lit_ci "orator"))].

Definition ROOM_KEYWORD_RE : Re.regex := Re.seqs [Re.WordB; room_word; Re.WordB].

(** [[A-Za-z0-9._/-]] and [[A-Za-z0-9_./-]] *)
Definition code_char (c : ascii) : bool :=
  Chars.is_alpha c || Chars.is_digit c || Chars.one_of "._/-" c.

Definition ROOM_CAPTURE_RE : Re.regex :=
  Re.seqs [Re.WordB; room_word; Re.star Re.space; Re.opt (Re.set ":-");
           Re.star Re.space; Re.Grp 1 (Re.plus (Re.Chr code_char))].

Definition GROUP_HEADING_RE : Re.regex :=
  Re.seqs [Re.WordB; Re.lit_ci "grupa"; Re.plus Re.space;
           Re.Grp 1 (Re.rep 3 4 Re.digit); Re.WordB].

Definition FORMATION_NUMERIC_RE : Re.regex :=
  Re.seqs [Re.Bol; Re.rep 3 4 Re.digit;
           Re.opt (Re.Seq (Re.chr "/") (Re.plus Re.digit)); Re.Eol].

Definition FORMATION_TOKEN_RE : Re.regex :=
  Re.seqs [Re.Bol; Re.rep 1 6 (Re.Chr Chars.is_alpha); Re.rep 0 3 Re.digit; Re.Eol].

(** [[\w/-]] *)
Definition label_char (c : ascii) : bool := Chars.is_word c || Chars.one_of "/-" c.

Definition SUBGROUP_PREFIX_RE : Re.regex :=
  Re.seqs [Re.Bol; Re.alts [abbrev "sgr"; abbrev "subgr"; abbrev "gr"];
           Re.star Re.space; Re.plus (Re.Chr label_char);
           Re.star Re.space; Re.chr ":"; Re.star Re.space].

(** The named groups course, instructor and room are groups 1, 2 and 3. *)
Definition INLINE_ENTRY_RE : Re.regex :=
  Re.seqs [Re.Bol;
           Re.opt (Re.seqs [Re.Alt (Re.seqs [abbrev "sapt"; Re.star Re.space; Re.set "12"])
                                   (Re.seqs [Re.lit_ci "week"; Re.star Re.space; Re.set "12"]);
                            Re.star Re.space; Re.chr ":"; Re.star Re.space]);
           Re.Grp 1 (Re.plus_lazy Re.dot);
           Re.star Re.space; Re.chr "(";
           Re.Grp 2 (Re.plus (Re.Chr (λ c, negb (Chars.one_of "()" c))));
           Re.chr ")"; Re.star Re.space; Re.chr ","; Re.star Re.space;
           Re.Grp 3 (Re.plus (Re.Chr code_char)); Re.Eol].

Inductive TimetableParseError : Type :=
| RuntimeError (message : string).

Inductive result (A : Type) : Type :=
| Return (a : A)
| Raise (e : TimetableParseError).
Arguments Return {A} a.
Arguments Raise {A} e.

(** ** Text normalisation *)

Definition _fold (value : string) : string := Py.lower value.

(** [re.search(rf"\b{re.escape(alias)}\b", folded)] *)
Definition alias_re (alias : string) : Re.regex :=
  Re.seqs [Re.WordB; Re.lit alias; Re.WordB].

Definition normalize_day (value : string) : option string :=
  let folded := _fold (normalize_space value false) in
  snd <$> List.find (λ a, Re.found (Re.search (alias_re (fst a)) folded)) DAY_ALIASES.

Definition normalize_time (value : string) : string :=
  let value := Py.remove_spaces (Py.strip value) in
  Re.sub_count any_dash en_dash value 1.

(** ** The document, as BeautifulSoup presents it to the parser *)

(** A [th] or [td]: [cell.get_text("\n", strip=True)] and the values of
    [cell.get("rowspan")] and [cell.get("colspan")], [None] when the cell
    has no such attribute. *)
Record Cell : Type := mkCell {
  cell_raw : string;
  cell_rowspan : option string;
  cell_colspan : option string
}.

(** A [tr]: [row.get_text(" ", strip=True)] and [tr.find_all(["th", "td"])]. *)
Record Tr : Type := mkTr {
  tr_text : string;
  tr_cells : list Cell
}.

(** A [table]: the text of [table.find("caption")] when there is one,
    [table.get_text(" ", strip=True)], [table.find_all("tr")], and the chain
    of [previous_sibling] links, nearest first, where a sibling that is a
    [Tag] carries its text and any other node is [None]. *)
Record Table : Type := mkTable {
  table_caption : option string;
  table_text : string;
  table_rows : list Tr;
  table_siblings : list (option string)
}.

(** What [soup.find_all(["h1", ..., "b", "table"])] returns, in document
    order: a table, or another node with its [get_text(" ", strip=True)]. *)
Inductive Node : Type :=
| TextNode (text : string)
| TableNode (table : Table).

Definition Soup : Type := list Node.

(** [soup.find_all("table")] *)
Definition find_all_tables (soup : Soup) : list Table :=
  omap (λ n, match n with TableNode t => Some t | TextNode _ => None end) soup.

(** ** GridBuilder *)

Definition _extract_cell_text (cell : Cell) : string :=
  normalize_space (cell_raw cell) true.

(** A pending vertical span: [{"rows": _, "text": _}]. *)
Record Span : Type := mkSpan {
  span_rows : Z;
  span_text : string
}.

(** The three things the loops of [_expand_table] update: the row being
    built, the pending spans by column, and the current column. *)
Record Cursor : Type := mkCursor {
  cur_row : list string;
  cur_spans : gmap nat Span;
  cur_col : nat
}.

(** The [while col in spans] loop of [fill_span]; every turn visits a
    different key of [spans], so [size spans] turns are enough
    (see [fill_span_unfold] and [fill_span_exit]). *)
Fixpoint fill_span_loop (fuel : nat) (spans : gmap nat Span) (row : list string)
  (col : nat) : Cursor :=
  match fuel with
  | O => mkCursor row spans col
  | S fuel' =>
      match spans !! col with
      | None => mkCursor row spans col
      | Some s =>
          let row := row ++ [span_text s] in
          let left := (span_rows s - 1)%Z in
          let spans :=
            if (left <=? 0)%Z then delete col spans
            else <[col := mkSpan left (span_text s)]> spans in
          fill_span_loop fuel' spans row (col + 1)
      end
  end.

Definition fill_span (spans : gmap nat Span) (row : list string) (start_col : nat)
  : Cursor :=
  fill_span_loop (size spans) spans row start_col.

(** [fill_span(row, col)] at the cursor. *)
Definition refill (c : Cursor) : Cursor :=
  fill_span (cur_spans c) (cur_row c) (cur_col c).

(** [max(1, int(cell.get(name, 1)))] inside [try], with [except
    (TypeError, ValueError)] giving 1.  A missing attribute takes the default
    [1], an [int]; a present one is a string, on which [int] may raise. *)
Definition span_attr (value : option string) : Z :=
  match value with
  | None => Z.max 1 1
  | Some s =>
      match Py.int s with
      | Some n => Z.max 1 n
      | None => 1%Z
      end
  end.

(** [for _ in range(colspan)]: the cell's text, once per spanned column. *)
Fixpoint put_cell (n : nat) (text : string) (rowspan : Z) (c : Cursor) : Cursor :=
  match n with
  | O => c
  | S n' =>
      let row := cur_row c ++ [text] in
      let spans :=
        if (1 <? rowspan)%Z
        then <[cur_col c := mkSpan (rowspan - 1) text]> (cur_spans c)
        else cur_spans c in
      put_cell n' text rowspan (mkCursor row spans (cur_col c + 1))
  end.

Definition place_cell (cell : Cell) (c : Cursor) : Cursor :=
  let c := refill c in
  let text := _extract_cell_text cell in
  let rowspan := span_attr (cell_rowspan cell) in
  let colspan := span_attr (cell_colspan cell) in
  put_cell (Z.to_nat colspan) text rowspan c.

Definition place_cells (cells : list Cell) (c : Cursor) : Cursor :=
  fold_left (λ c cell, place_cell cell c) cells c.

(** The body of [for tr in table.find_all("tr")]: the finished row and the
    spans left pending for the rows below. *)
Definition expand_row (spans : gmap nat Span) (tr : Tr) : list string * gmap nat Span :=
  let c := fill_span spans [] 0 in
  let c := place_cells (tr_cells tr) c in
  let c := refill c in
  (cur_row c, cur_spans c).

Fixpoint expand_rows (spans : gmap nat Span) (trs : list Tr) : list (list string) :=
  match trs with
  | [] => []
  | tr :: trs' =>
      let '(row, spans') := expand_row spans tr in
      row :: expand_rows spans' trs'
  end.

Definition pad_rows (grid : list (list string)) : list (list string) :=
  let max_cols := max_list (map length grid) in
  map (λ row, row ++ replicate (max_cols - length row) "") grid.

Definition _expand_table (table : Table) : list (list string) :=
  pad_rows (expand_rows ∅ (table_rows table)).

(** ** GroupColumnDetector *)

(** [sorted(s)] for a set of integers. *)
Definition sorted_set (s : gset Z) : list Z := merge_sort Z.le (elements s).

(** [set(l)] *)
Definition set_of (l : list Z) : gset Z := list_to_set l.

(** [if s:] for a set. *)
Definition nonempty_set (s : gset Z) : bool := bool_decide (s ≠ ∅).

(** [[int(group) for group in GROUP_RE.findall(text)]]; every group is three
    or four digits, on which [int] does not raise. *)
Definition group_numbers (text : string) : list Z :=
  omap Py.int (Re.findall1 GROUP_RE text).

Definition _extract_group_from_header (cell_text : string) (expected_groups : gset Z)
  : option Z :=
  let matches := group_numbers cell_text in
  match matches with
  | [] => None
  | _ :: _ =>
      if nonempty_set expected_groups then
        List.find (λ m, bool_decide (m ∈ expected_groups)) matches
      else
        match matches with
        | [m] => Some m
        | _ => None
        end
  end.

(** The [mapping] a header row gives: its (column, group) items in the
    order the dictionary holds them, which is the order of [enumerate]. *)
Definition row_mapping (row : list string) (expected_set : gset Z) : list (nat * Z) :=
  omap (λ item, (λ g, (fst item, g)) <$> _extract_group_from_header (snd item) expected_set)
       (imap pair row).

Definition best_row_mapping (rows : list (list string)) (expected_set : gset Z)
  : list (nat * Z) :=
  fold_left (λ best_mapping row,
               let mapping := row_mapping row expected_set in
               if length best_mapping <? length mapping then mapping else best_mapping)
            rows [].

Definition _detect_group_columns (grid : list (list string)) (expected_groups : list Z)
  : list (nat * Z) :=
  let expected_set := set_of expected_groups in
  let best_mapping := best_row_mapping (take 12 grid) expected_set in
  let best_mapping :=
    if nonempty_set expected_set
    then List.filter (λ item, bool_decide (snd item ∈ expected_set)) best_mapping
    else best_mapping in
  match best_mapping with
  | _ :: _ => best_mapping
  | [] =>
      match grid with
      | first_row :: _ =>
          if nonempty_set expected_set then
            let first_row_len := length first_row in
            let low := first_row_len - size expected_set in
            let columns := seq low (first_row_len - low) in
            zip columns (sorted_set expected_set)
          else []
      | [] => []
      end
  end.

Definition _extract_time (row : list string) : option string :=
  match omap (λ cell, Re.group 1 (Re.search TIME_RE cell)) row with
  | t :: _ => Some (normalize_time t)
  | [] => None
  end.

(** ** FieldClassifier *)

Definition searches (r : Re.regex) (text : string) : bool := Re.found (Re.search r text).
Definition fullmatches (r : Re.regex) (text : string) : bool := Re.found (Re.fullmatch r text).

(** [\b(?: ... )\b] *)
Definition whole_words (l : list Re.regex) : Re.regex :=
  Re.seqs [Re.WordB; Re.alts l; Re.WordB].

(** [week\s*d], [sapt\.?\s*d] and [saptamana\s*d] *)
Definition week_n (d : string) : list Re.regex :=
  [Re.seqs [Re.lit "week"; Re.star Re.space; Re.lit d];
   Re.seqs [Re.lit "sapt"; Re.opt (Re.chr "."); Re.star Re.space; Re.lit d];
   Re.seqs [Re.lit "saptamana"; Re.star Re.space; Re.lit d]].

Definition WEEK1_RE : Re.regex :=
  whole_words (week_n "1" ++ [Re.Seq (Re.lit "impar") (Re.opt (Re.chr "a"))]).
Definition WEEK2_RE : Re.regex :=
  whole_words (week_n "2" ++ [Re.Seq (Re.lit "par") (Re.opt (Re.chr "a"))]).
Definition WEEKLY_RE : Re.regex :=
  whole_words [Re.lit "weekly"; Re.lit "saptamanal"].

Definition _detect_frequency (text : string) : string :=
  let folded := _fold text in
  let has_week1 := searches WEEK1_RE folded in
  let has_week2 := searches WEEK2_RE folded in
  if has_week1 && has_week2 then "weekly"
  else if has_week1 then "week1"
  else if has_week2 then "week2"
  else if searches WEEKLY_RE folded then "weekly"
  else "weekly".

(** [\((?:a|b)\)] under IGNORECASE *)
Definition type_tag (a b : string) : Re.regex :=
  Re.seqs [Re.chr "("; Re.Alt (Re.lit_ci a) (Re.lit_ci b); Re.chr ")"].

Definition _detect_type (text : string) : string :=
  let folded := _fold text in
  if searches (type_tag "c" "curs") text then "lecture"
  else if searches (type_tag "s" "sem") text then "seminar"
  else if searches (type_tag "l" "lab") text then "lab"
  else if searches (whole_words [Re.lit "lecture"; Re.lit "course"; Re.lit "curs"]) folded
  then "lecture"
  else if searches (whole_words [Re.lit "seminar"]) folded then "seminar"
  else if searches (whole_words [Re.lit "lab"; Re.lit "laborator"]) folded then "lab"
  else "lecture".

Definition FREQUENCY_LINE_RE : Re.regex :=
  whole_words [Re.seqs [Re.lit "week"; Re.star Re.space; Re.set "12"];
               Re.lit "weekly"; Re.lit "sapt"; Re.lit "impar"; Re.lit "par"].

Definition _is_frequency_line (line : string) : bool :=
  searches FREQUENCY_LINE_RE (_fold line).

(** [len(s.split()) <= 2] *)
Definition at_most_two_words (s : string) : bool := length (Py.split_ws s) <=? 2.

Definition _is_time_or_day_token (line : string) : bool :=
  let cleaned := normalize_space line false in
  if fullmatches TIME_RE cleaned then true
  else bool_decide (is_Some (normalize_day cleaned)) && at_most_two_words cleaned.

Definition _strip_subgroup_prefix (line : string) : string :=
  Py.strip (Re.sub SUBGROUP_PREFIX_RE "" (normalize_space line false)).

(** [[A-Z0-9._/-]*] after an upper-case letter and digits:
    [C\d+[A-Z0-9._/-]*] and [L\d+[A-Z0-9._/-]*] *)
Definition room_code_re (letter : ascii) : Re.regex :=
  Re.seqs [Re.chr letter; Re.plus Re.digit;
           Re.star (Re.Chr (λ c, Chars.is_upper c || Chars.is_digit c
                                 || Chars.one_of "._/-" c))].

Definition _is_formation_line (line : string) : bool :=
  let cleaned := Py.strip_of "() " (_strip_subgroup_prefix line) in
  if Py.is_empty cleaned then false
  else if fullmatches FORMATION_NUMERIC_RE cleaned then true
  else if negb (fullmatches FORMATION_TOKEN_RE cleaned) then false
  else
    let upper := Py.upper cleaned in
    if existsb (Py.startswith upper) ["CR"; "LAB"; "AMF"; "AULA"; "ROOM"; "SALA"]
    then false
    else if fullmatches (room_code_re "C") upper then false
    else if fullmatches (room_code_re "L") upper then false
    else true.

Definition _is_room_line (line : string) : bool := searches ROOM_KEYWORD_RE line.

Definition _is_instructor_line (line : string) : bool :=
  if searches TITLE_RE line then true
  else if _is_room_line line then false
  else
    let words := non_empty (Re.split (Re.plus Re.space) (Py.strip line)) in
    if length words <? 2 then false
    else
      let capitalized := length (List.filter Py.first_isupper words) in
      (2 <=? capitalized) && negb (_is_frequency_line line).

Definition first_such (f : string → bool) (lines : list string) : option string :=
  List.find f lines.

Definition room_token (line : string) : option string :=
  let token := normalize_space line false in
  if Py.is_empty token || Py.contains " " token then None
  else if _is_frequency_line token then None
  else if _is_formation_line token then None
  else if _is_time_or_day_token token then None
  else if searches TITLE_RE token then None
  else Some token.

Definition _detect_room (lines : list string) : string :=
  match omap (λ line, Re.group 1 (Re.search ROOM_CAPTURE_RE line)) lines with
  | code :: _ => Py.strip code
  | [] =>
      match first_such (searches ROOM_KEYWORD_RE) lines with
      | Some line => Py.strip line
      | None =>
          match omap room_token lines with
          | token :: _ => token
          | [] => ""
          end
      end
  end.

Definition _detect_instructor (lines : list string) : string :=
  match first_such (searches TITLE_RE) lines with
  | Some line => Py.strip line
  | None =>
      match first_such _is_instructor_line lines with
      | Some line => Py.strip line
      | None => ""
      end
  end.

(** [\b(?:week\s*[12]|weekly|sapt\.?\s*[12]?|impar(?:a)?|par(?:a)?)\b]
    under IGNORECASE *)
Definition FREQUENCY_WORDS_RE : Re.regex :=
  whole_words [Re.seqs [Re.lit_ci "week"; Re.star Re.space; Re.set "12"];
               Re.lit_ci "weekly";
               Re.seqs [abbrev "sapt"; Re.star Re.space; Re.opt (Re.set "12")];
               Re.Seq (Re.lit_ci "impar") (Re.opt (Re.chr_ci "a"));
               Re.Seq (Re.lit_ci "par") (Re.opt (Re.chr_ci "a"))].

Definition _strip_inline_metadata (value : string) : string :=
  let value := _strip_subgroup_prefix value in
  let value := Re.sub TYPE_TAG_RE "" value in
  let value := Re.sub FREQUENCY_WORDS_RE "" value in
  Py.strip_of " -" (Re.sub (Re.plus Re.space) " " value).

(** The first loop of [_detect_course]: the line is skipped, or is the one
    whose cleaned text is taken when that text is not empty. *)
Definition course_candidate (line : string) : option string :=
  if _is_frequency_line line || _is_room_line line
     || _is_instructor_line line || _is_formation_line line
  then None
  else
    let cleaned := _strip_inline_metadata line in
    if Py.is_empty cleaned then None else Some cleaned.

(** The second loop: any line whose cleaned text is not empty and is not
    shaped like a formation marker. *)
Definition course_fallback (line : string) : option string :=
  let cleaned := _strip_inline_metadata line in
  if negb (Py.is_empty cleaned) && negb (_is_formation_line cleaned)
  then Some cleaned else None.

Definition _detect_course (lines : list string) : string :=
  match omap course_candidate lines with
  | cleaned :: _ => cleaned
  | [] =>
      match omap course_fallback lines with
      | cleaned :: _ => cleaned
      | [] => "Unknown"
      end
  end.

(** [\n{2,}] *)
Definition BLANK_LINES_RE : Re.regex := Re.Seq (Re.exactly 2 (Re.chr Chars.newline))
                                               (Re.star (Re.chr Chars.newline)).

Definition _split_cell_chunks (text : string) : list string :=
  let chunks :=
    map (λ chunk, normalize_space chunk true)
        (List.filter (λ chunk, negb (Py.is_empty (normalize_space chunk false)))
                     (Re.split BLANK_LINES_RE text)) in
  match chunks with
  | _ :: _ => chunks
  | [] =>
      if Py.is_empty (normalize_space text false) then []
      else [normalize_space text true]
  end.

(** A schedule entry: the dictionary with the keys time, frequency, course,
    type, room and instructor. *)
Record Entry : Type := mkEntry {
  e_time : string;
  e_frequency : string;
  e_course : string;
  e_type : string;
  e_room : string;
  e_instructor : string
}.

Definition group_text (n : nat) (m : Re.outcome) : string :=
  default "" (Re.group n m).

Definition _parse_inline_entry_line (line : string) (time_slot : string) : option Entry :=
  let cleaned := normalize_space line false in
  if Py.is_empty cleaned then None
  else
    let stripped := _strip_subgroup_prefix cleaned in
    let m := Re.match_ INLINE_ENTRY_RE stripped in
    if negb (Re.found m) then None
    else
      let course := _strip_inline_metadata (group_text 1 m) in
      if Py.is_empty course then None
      else Some {| e_time := time_slot;
                   e_frequency := _detect_frequency stripped;
                   e_course := course;
                   e_type := _detect_type stripped;
                   e_room := normalize_space (group_text 3 m) false;
                   e_instructor := normalize_space (group_text 2 m) false |}.

Definition _parse_inline_chunk (chunk : string) (time_slot : string) : list Entry :=
  omap (λ line, _parse_inline_entry_line line time_slot) (Py.splitlines chunk).

(** The key under which [_parse_cell_entries] remembers an entry. *)
Definition EntryKey : Type := string * string * string * string * string * string.

Definition entry_key (e : Entry) : EntryKey :=
  (e_time e, e_frequency e, e_course e, e_type e, e_room e, e_instructor e).

(** The [deduped] list and the [seen] set after one more entry. *)
Definition dedup_step (acc : list Entry * gset EntryKey) (entry : Entry)
  : list Entry * gset EntryKey :=
  let key := entry_key entry in
  if decide (key ∈ snd acc) then acc
  else (fst acc ++ [entry], {[key]} ∪ snd acc).

Definition dedup_entries (entries : list Entry) : list Entry :=
  fst (fold_left dedup_step entries ([], ∅)).

(** The lines of a chunk that line-based classification looks at. *)
Definition chunk_lines (chunk : string) : list string :=
  let lines := non_empty (Py.splitlines chunk) in
  let lines := List.filter (λ line, negb (bool_decide (is_Some (normalize_day line)))) lines in
  let lines := List.filter (λ line, negb (fullmatches TIME_RE line)) lines in
  List.filter (λ line, negb (_is_formation_line line)) lines.

(** What one chunk adds to [entries]. *)
Definition chunk_entries (chunk : string) (time_slot : string) : list Entry :=
  let inline_entries := _parse_inline_chunk chunk time_slot in
  match inline_entries with
  | _ :: _ => inline_entries
  | [] =>
      let lines := chunk_lines chunk in
      match lines with
      | [] => []
      | _ :: _ =>
          let entry := {| e_time := time_slot;
                          e_frequency := _detect_frequency chunk;
                          e_course := _detect_course lines;
                          e_type := _detect_type chunk;
                          e_room := _detect_room lines;
                          e_instructor := _detect_instructor lines |} in
          if Py.is_empty (e_course entry) then [] else [entry]
      end
  end.

Definition is_placeholder (text : string) : bool :=
  bool_decide (text = "-") || bool_decide (text = em_dash).

Definition _parse_cell_entries (text : string) (time_slot : string) : list Entry :=
  let text := normalize_space text true in
  if Py.is_empty text then []
  else if is_placeholder text then []
  else if bool_decide (is_Some (normalize_day text)) && at_most_two_words text then []
  else if fullmatches TIME_RE text then []
  else
    let entries := concat (map (λ chunk, chunk_entries chunk time_slot)
                               (_split_cell_chunks text)) in
    dedup_entries entries.

(** ** EntryAssembler *)

Record DaySchedule : Type := mkDay {
  day : string;
  entries : list Entry
}.

Record ParsedTimetable : Type := mkParsed {
  by_group : gmap Z (list DaySchedule);
  detected_groups : list Z
}.

(** [grouped_entries]: group, then day, then the entries in the order met. *)
Definition Grouped : Type := gmap Z (gmap string (list Entry)).

(** [grouped_entries.get(group, {}).get(day, [])] *)
Definition day_entries (grouped_entries : Grouped) (group : Z) (d : string) : list Entry :=
  default [] (default ∅ (grouped_entries !! group) !! d).

(** [grouped_entries[group][day].extend(new)] where a missing bucket starts
    empty (the inner dictionaries are [defaultdict(list)]). *)
Definition extend_bucket (grouped_entries : Grouped) (group : Z) (d : string)
  (new : list Entry) : Grouped :=
  let days := default ∅ (grouped_entries !! group) in
  <[group := <[d := default [] (days !! d) ++ new]> days]> grouped_entries.

Definition group_days (grouped_entries : Grouped) (group : Z) : list DaySchedule :=
  omap (λ d, match day_entries grouped_entries group d with
             | [] => None
             | (_ :: _) as l => Some (mkDay d l)
             end) DAY_ORDER.

Definition _grouped_to_days (grouped_entries : Grouped) (target_groups : list Z)
  : gmap Z (list DaySchedule) :=
  fold_left (λ by_group group, <[group := group_days grouped_entries group]> by_group)
            target_groups ∅.

(** ** LayoutClassifier: explicit-header tables *)

Definition HEADER_KEYS : list (string * Re.regex) :=
  [ ("day", Re.Alt (alias_re "ziua") (alias_re "day"));
    ("time", Re.alts [alias_re "ora"; alias_re "orele"; alias_re "time"]);
    ("frequency", Re.alts [alias_re "frecventa"; alias_re "frecventa"; alias_re "frequency"]);
    ("room", Re.Alt (alias_re "sala") (alias_re "room"));
    ("type", Re.Alt (Re.seqs [Re.WordB; Re.lit "tip"; Re.opt (Re.lit "ul"); Re.WordB])
                    (alias_re "type"));
    ("course", Re.alts [alias_re "disciplina"; alias_re "materia"; alias_re "course"]);
    ("instructor",
      Re.alts [Re.seqs [Re.WordB; Re.lit "cadr"; Re.opt (Re.lit "ul"); Re.plus Re.space;
                        Re.lit "didactic"; Re.WordB];
               alias_re "instructor"; alias_re "profesor"]) ].

Definition _header_name_to_key (value : string) : option string :=
  let folded := _fold value in
  fst <$> List.find (λ k, searches (snd k) folded) HEADER_KEYS.

Definition _extract_group_heading (value : string) : option Z :=
  match Re.group 1 (Re.search GROUP_HEADING_RE value) with
  | Some digits => Py.int digits
  | None => None
  end.

(** The first heading found in a list of texts tried in order. *)
Definition first_heading (texts : list string) : option Z :=
  head (omap _extract_group_heading texts).

Definition _extract_table_group (table : Table) : option Z :=
  let from_caption :=
    match table_caption table with
    | Some text => _extract_group_heading (normalize_space text false)
    | None => None
    end in
  match from_caption with
  | Some group => Some group
  | None =>
      match first_heading (map (λ row, normalize_space (tr_text row) false)
                               (take 3 (table_rows table))) with
      | Some group => Some group
      | None =>
          first_heading (omap (λ sibling, (λ text, normalize_space text false) <$> sibling)
                              (take 6 (table_siblings table)))
      end
  end.

(** The [mapping] of one candidate header row: each key keeps the first
    column that names it. *)
Definition header_mapping (row : list string) : gmap string nat :=
  fold_left (λ mapping item,
               match _header_name_to_key (snd item) with
               | Some key =>
                   match mapping !! key with
                   | None => <[key := fst item]> mapping
                   | Some _ => mapping
                   end
               | None => mapping
               end)
            (imap pair row) ∅.

(** [best_score], [best_header_idx] and [best_header_map] while the first
    rows are scanned. *)
Record Best : Type := mkBest {
  best_score : Z;
  best_header_idx : Z;
  best_header_map : gmap string nat
}.

Definition best_header (grid : list (list string)) : Best :=
  fold_left (λ best item,
               let mapping := header_mapping (snd item) in
               let score := Z.of_nat (size mapping) in
               if (best_score best <? score)%Z
               then mkBest score (Z.of_nat (fst item)) mapping
               else best)
            (imap pair (take (Nat.min 4 (length grid)) grid))
            (mkBest (-1) (-1) ∅).

(** [row[mapping[key]]] when the key is mapped to a column of the row,
    the empty string otherwise. *)
Definition mapped_value (mapping : gmap string nat) (key : string) (row : list string)
  : string :=
  match mapping !! key with
  | Some col => default "" (row !! col)
  | None => ""
  end.

(** One data row under the header: its day and entry, or nothing. *)
Definition parse_group_row (mapping : gmap string nat) (day_col time_col : nat)
  (row : list string) : option (string * Entry) :=
  match row !! day_col, row !! time_col with
  | Some day_cell, Some raw_time =>
      match normalize_day day_cell with
      | None => None
      | Some d =>
          match Re.group 1 (Re.search TIME_RE raw_time) with
          | None => None
          | Some time_text =>
              let time_slot := normalize_time time_text in
              let frequency_value := mapped_value mapping "frequency" row in
              let type_value := mapped_value mapping "type" row in
              let room_value := mapped_value mapping "room" row in
              let course_value := mapped_value mapping "course" row in
              let instructor_value := mapped_value mapping "instructor" row in
              let row_blob := Py.join " " (non_empty row) in
              let lines_for_fallback := non_empty row in
              let entry :=
                {| e_time := time_slot;
                   e_frequency := _detect_frequency (Py.or_else frequency_value row_blob);
                   e_course := Py.or_else (normalize_space course_value false)
                                          (_detect_course lines_for_fallback);
                   e_type := _detect_type (Py.or_else type_value row_blob);
                   e_room := Py.or_else (normalize_space room_value false)
                                        (_detect_room lines_for_fallback);
                   e_instructor := Py.or_else (normalize_space instructor_value false)
                                              (_detect_instructor lines_for_fallback) |} in
              if Py.is_empty (e_course entry) then None else Some (d, entry)
          end
      end
  | _, _ => None
  end.

Definition _parse_group_table_rows (grid : list (list string))
  : list (string * Entry) * Z :=
  let best := best_header grid in
  match best_header_map best !! "day", best_header_map best !! "time" with
  | Some day_col, Some time_col =>
      (omap (parse_group_row (best_header_map best) day_col time_col)
            (drop (Z.to_nat (best_header_idx best + 1)) grid),
       best_header_idx best)
  | _, _ => ([], (-1)%Z)
  end.

(** ** LayoutClassifier: the sectioned layout *)

(** [grouped_entries], [detected_groups] and [current_group] while the nodes
    are walked. *)
Record Sections : Type := mkSections {
  sec_grouped : Grouped;
  sec_detected : gset Z;
  sec_current : option Z
}.

(** [a or b] where [a] is [None] or an integer: [None] and [0] are falsy. *)
Definition or_group (a b : option Z) : option Z :=
  match a with
  | Some n => if (n =? 0)%Z then b else Some n
  | None => b
  end.

(** The rows a table contributes: those of [_parse_group_table_rows] on its
    grid (none for an empty grid). *)
Definition table_parsed_rows (table : Table) : list (string * Entry) :=
  match _expand_table table with
  | [] => []
  | (_ :: _) as grid => fst (_parse_group_table_rows grid)
  end.

(** The group a table node is filed under, when it is not skipped before
    its grid is built. *)
Definition accepted_group (expected_set : gset Z) (current_group : option Z)
  (table : Table) : option Z :=
  match or_group (_extract_table_group table) current_group with
  | None => None
  | Some table_group =>
      if nonempty_set expected_set && negb (bool_decide (table_group ∈ expected_set))
      then None
      else Some table_group
  end.

Definition append_rows (grouped_entries : Grouped) (table_group : Z)
  (parsed_rows : list (string * Entry)) : Grouped :=
  fold_left (λ grouped row_entry,
               extend_bucket grouped table_group (fst row_entry) [snd row_entry])
            parsed_rows grouped_entries.

Definition section_step (expected_set : gset Z) (st : Sections) (node : Node) : Sections :=
  match node with
  | TextNode text =>
      match _extract_group_heading (normalize_space text false) with
      | Some group => mkSections (sec_grouped st) (sec_detected st) (Some group)
      | None => st
      end
  | TableNode table =>
      match accepted_group expected_set (sec_current st) table with
      | None => st
      | Some table_group =>
          match table_parsed_rows table with
          | [] => st
          | (_ :: _) as parsed_rows =>
              mkSections (append_rows (sec_grouped st) table_group parsed_rows)
                         ({[table_group]} ∪ sec_detected st)
                         (sec_current st)
          end
      end
  end.

Definition walk_sections (expected_set : gset Z) (soup : Soup) : Sections :=
  fold_left (section_step expected_set) soup (mkSections ∅ ∅ None).

(** [a or b] on sets. *)
Definition or_set (a b : gset Z) : gset Z := if nonempty_set a then a else b.

Definition _parse_group_section_layout (soup : Soup) (expected_groups : list Z)
  : option ParsedTimetable :=
  let expected_set := set_of expected_groups in
  let st := walk_sections expected_set soup in
  if nonempty_set (sec_detected st) then
    let target_groups := sorted_set (or_set expected_set (sec_detected st)) in
    let by_group := _grouped_to_days (sec_grouped st) target_groups in
    Some (mkParsed by_group (sorted_set (sec_detected st)))
  else None.

(** ** LayoutClassifier: the columnar layout *)

Definition _main_table_score (table : Table) : nat :=
  let text := _fold (table_text table) in
  let day_hits := length (List.filter (λ a, Py.contains (fst a) text) DAY_ALIASES) in
  let group_hits := length (Re.findall1 GROUP_RE text) in
  let row_count := length (table_rows table) in
  day_hits * 10 + Nat.min group_hits 40 + row_count.

(** [max(tables, key=_main_table_score)]: the first table of highest score. *)
Definition max_by_score (first : Table) (others : list Table) : Table :=
  fold_left (λ best t, if _main_table_score best <? _main_table_score t then t else best)
            others first.

Definition _select_main_table (soup : Soup) : result Table :=
  match find_all_tables soup with
  | [] => Raise (RuntimeError "No table was found on the source page.")
  | first :: others => Return (max_by_score first others)
  end.

(** [next((day for day in (normalize_day(cell) for cell in row) if day), None)] *)
Definition row_day (row : list string) : option string :=
  head (omap normalize_day row).

(** The inner loop over [group_columns.items()] for one schedule row. *)
Definition fill_columns (group_columns : list (nat * Z)) (row : list string)
  (current_day time_slot : string) (grouped_entries : Grouped) : Grouped :=
  fold_left (λ grouped item,
               let '(column, group) := item in
               match grouped !! group, row !! column with
               | Some _, Some cell =>
                   match _parse_cell_entries cell time_slot with
                   | [] => grouped
                   | (_ :: _) as parsed_entries =>
                       extend_bucket grouped group current_day parsed_entries
                   end
               | _, _ => grouped
               end)
            group_columns grouped_entries.

(** One turn of [for row in grid]: [grouped_entries] and [current_day]. *)
Definition walk_row (group_columns : list (nat * Z)) (st : Grouped * option string)
  (row : list string) : Grouped * option string :=
  let current_day := match row_day row with Some d => Some d | None => snd st end in
  match current_day with
  | None => (fst st, current_day)
  | Some d =>
      match _extract_time row with
      | None => (fst st, current_day)
      | Some time_slot =>
          if Py.is_empty time_slot then (fst st, current_day)
          else (fill_columns group_columns row d time_slot (fst st), current_day)
      end
  end.

(** [{group: defaultdict(list) for group in target_groups}] *)
Definition empty_buckets (target_groups : list Z) : Grouped :=
  fold_left (λ grouped group, <[group := ∅]> grouped) target_groups ∅.

Definition _parse_columnar_layout (soup : Soup) (expected_groups : list Z)
  : result ParsedTimetable :=
  match _select_main_table soup with
  | Raise e => Raise e
  | Return table =>
      match _expand_table table with
      | [] => Raise (RuntimeError "Timetable table is empty.")
      | (_ :: _) as grid =>
          match _detect_group_columns grid expected_groups with
          | [] => Raise (RuntimeError "Could not detect group columns in timetable table.")
          | (_ :: _) as group_columns =>
              let detected_groups := sorted_set (set_of (map snd group_columns)) in
              let target_groups :=
                sorted_set (or_set (set_of expected_groups) (set_of detected_groups)) in
              let grouped_entries :=
                fst (fold_left (walk_row group_columns) grid
                               (empty_buckets target_groups, None)) in
              Return (mkParsed (_grouped_to_days grouped_entries target_groups)
                               detected_groups)
          end
      end
  end.

(** [parse_timetable_html], on the document [BeautifulSoup(html, "html.parser")]. *)
Definition parse_timetable_html (soup : Soup) (expected_groups : list Z)
  : result ParsedTimetable :=
  match _parse_group_section_layout soup expected_groups with
  | Some grouped_layout => Return grouped_layout
  | None => _parse_columnar_layout soup expected_groups
  end.

(** ** Where the grid builder puts a table's cells

    The grid builder does not record where a cell lands.  The functions
    below read it off the same loops: the value of [col] when a cell's text
    is first appended is the cell's origin column. *)

Fixpoint cell_columns (cells : list Cell) (c : Cursor) : list nat :=
  match cells with
  | [] => []
  | cell :: cells' =>
      cur_col (refill c) :: cell_columns cells' (place_cell cell c)
  end.

Definition row_cell_columns (spans : gmap nat Span) (tr : Tr) : list nat :=
  cell_columns (tr_cells tr) (fill_span spans [] 0).

(** The spans pending when row [i] of [trs] is reached. *)
Fixpoint spans_at (spans : gmap nat Span) (trs : list Tr) (i : nat) : gmap nat Span :=
  match i, trs with
  | S i', tr :: trs' => spans_at (snd (expand_row spans tr)) trs' i'
  | _, _ => spans
  end.

(** The columns of a row that the row's own cells occupy. *)
Definition own_columns (spans : gmap nat Span) (tr : Tr) : list nat :=
  flat_map (λ item, seq (fst item) (Z.to_nat (span_attr (cell_colspan (snd item)))))
           (zip (row_cell_columns spans tr) (tr_cells tr)).

(** Column [k] of row [i] is left to the spans pending from above: the row,
    as built and before padding, reaches column [k], and none of its own
    cells occupies it. *)
Definition flushes_in (spans : gmap nat Span) (trs : list Tr) (i k : nat) : bool :=
  match trs !! i with
  | None => false
  | Some tr =>
      let pending := spans_at spans trs i in
      (k <? length (fst (expand_row pending tr)))
      && negb (bool_decide (k ∈ own_columns pending tr))
  end.

Definition flushes (t : Table) (i k : nat) : bool :=
  flushes_in ∅ (table_rows t) i k.

(** The origin column of cell [n] of row [i]. *)
Definition origin_col (t : Table) (i n : nat) : option nat :=
  match table_rows t !! i with
  | None => None
  | Some tr => row_cell_columns (spans_at ∅ (table_rows t) i) tr !! n
  end.

Definition cell_at (grid : list (list string)) (i k : nat) : option string :=
  match grid !! i with
  | None => None
  | Some row => row !! k
  end.

Definition cell_rows (cell : Cell) : nat := Z.to_nat (span_attr (cell_rowspan cell)).
Definition cell_cols (cell : Cell) : nat := Z.to_nat (span_attr (cell_colspan cell)).

(** Every row is as long as the longest row built, the shorter ones ending
    in empty strings. *)
Definition rectangular (t : Table) : Prop :=
  let built := expand_rows ∅ (table_rows t) in
  let max_cols := max_list (map length built) in
  length (_expand_table t) = length built
  ∧ ∀ i row, _expand_table t !! i = Some row →
      length row = max_cols
      ∧ ∃ short, built !! i = Some short
                 ∧ row = short ++ replicate (max_cols - length short) "".

(** The span-fill property as the specification words it: every position of
    the grid inside the footprint of a cell holds the cell's text. *)
Definition span_fill (t : Table) : Prop :=
  ∀ i tr n cell j a b,
    table_rows t !! i = Some tr →
    tr_cells tr !! n = Some cell →
    origin_col t i n = Some j →
    a < cell_rows cell → b < cell_cols cell →
    i + a < length (_expand_table t) →
    cell_at (_expand_table t) (i + a) (j + b) = Some (_extract_cell_text cell).

(** ** Auxiliary notions for the grid builder *)

(** What [fill_span] leaves at a column it has flushed. *)
Definition tick (s : Span) : option Span :=
  if (span_rows s - 1 <=? 0)%Z then None
  else Some (mkSpan (span_rows s - 1) (span_text s)).

Definition ticked (spans : gmap nat Span) (col : nat) (s : Span) : gmap nat Span :=
  if (span_rows s - 1 <=? 0)%Z then delete col spans
  else <[col := mkSpan (span_rows s - 1) (span_text s)]> spans.

(** The number of pending columns at or after [col]: it bounds the turns
    of the loop of [fill_span]. *)
Definition pending_from (spans : gmap nat Span) (col : nat) : nat :=
  size (filter (λ k, col ≤ k) (dom spans)).

(** What one call of [fill_span] does: it flushes the pending spans of the
    columns [col .. cur_col - 1], stops at a column with nothing pending,
    and leaves everything else as it was. *)
Record flushed (spans : gmap nat Span) (row : list string) (col : nat) (c : Cursor)
  : Prop := {
  flushed_col : col ≤ cur_col c;
  flushed_exit : cur_spans c !! cur_col c = None;
  flushed_length : length (cur_row c) = length row + (cur_col c - col);
  flushed_prefix : ∀ i, i < length row → cur_row c !! i = row !! i;
  flushed_outside : ∀ k, k < col ∨ cur_col c ≤ k → cur_spans c !! k = spans !! k;
  flushed_inside : ∀ k, col ≤ k < cur_col c →
    ∃ s, spans !! k = Some s
         ∧ cur_row c !! (length row + (k - col)) = Some (span_text s)
         ∧ cur_spans c !! k = tick s
}.

(** A cursor whose row has one text per column passed. *)
Definition aligned (c : Cursor) : Prop := length (cur_row c) = cur_col c.

Definition finish (cells : list Cell) (c : Cursor) : Cursor :=
  refill (place_cells cells c).

(** The columns that the cells placed from a cursor on occupy. *)
Definition covered (cells : list Cell) (c : Cursor) : list nat :=
  flat_map (λ item, seq (fst item) (Z.to_nat (span_attr (cell_colspan (snd item)))))
           (zip (cell_columns cells c) cells).

(** ** Example documents *)

Definition td (text : string) : Cell := mkCell text None None.
Definition td_rows (text rowspan : string) : Cell := mkCell text (Some rowspan) None.
Definition td_cols (text colspan : string) : Cell := mkCell text None (Some colspan).

(** A [tr] and a [table] whose texts are those of their cells. *)
Definition tr_of (cells : list Cell) : Tr :=
  mkTr (Py.join " " (map cell_raw cells)) cells.
Definition table_of (rows : list Tr) : Table :=
  mkTable None (Py.join " " (map tr_text rows)) rows [].

(** A day label over two rows, as timetables have them. *)
Definition day_span_table : Table :=
  table_of [ tr_of [td_rows "Luni" "2"; td "08-10"; td "Algebra"];
             tr_of [td "10-12"; td "Logica"] ].

(** A cell spanning two rows whose second row stops short of its column. *)
Definition short_row_table : Table :=
  table_of [ tr_of [td "A"; td "B"; td_rows "C" "2"];
             tr_of [td "D"] ].

(** A heading followed by a table whose header names neither a day nor a
    time column. *)
Definition rejected_page : Soup :=
  [ TextNode "Grupa 211";
    TableNode (table_of [ tr_of [td "Foo"; td "Bar"]; tr_of [td "x"; td "y"] ]) ].

(** A heading followed by an explicit-header table with one data row. *)
Definition section_page : Soup :=
  [ TextNode "Grupa 211";
    TableNode (table_of [ tr_of [td "Ziua"; td "Orele"; td "Disciplina"];
                          tr_of [td "Luni"; td "8-10"; td "Algebra"] ]) ].

(** One shared table with a column per group. *)
Definition columnar_page : Soup :=
  [ TableNode (table_of [ tr_of [td "Ziua"; td "Ora"; td "511"; td "512"];
                          tr_of [td "Luni"; td "08-10"; td "Algebra (C)"; td "-"] ]) ].

(** ** Notions used to state the properties *)

(** The [deduped] list and the [seen] set go together: the set holds the
    keys of the list, and no key occurs twice in the list. *)
Definition dedup_inv (acc : list Entry * gset EntryKey) : Prop :=
  NoDup (map entry_key (fst acc))
  ∧ ∀ key, key ∈ snd acc ↔ key ∈ map entry_key (fst acc).

(** The numbers of a header cell that belong to the expected set, in the
    order they stand in the text. *)
Definition expected_numbers (cell_text : string) (expected : gset Z) : list Z :=
  List.filter (λ m, bool_decide (m ∈ expected)) (group_numbers cell_text).


(** The reading of [by_group] that the specification gives: with an expected
    set, the keys are the expected groups that were also detected. *)
Definition keys_within_detected : Prop :=
  ∀ (soup : Soup) (expected_groups : list Z) (r : ParsedTimetable),
    expected_groups ≠ [] →
    parse_timetable_html soup expected_groups = Return r →
    dom (by_group r) = set_of expected_groups ∩ set_of (detected_groups r).

(** The reading of [detected_groups] that the specification gives: a group
    is detected exactly when some entry was found for it. *)
Definition detected_iff_entries : Prop :=
  ∀ (soup : Soup) (expected_groups : list Z) (r : ParsedTimetable),
    parse_timetable_html soup expected_groups = Return r →
    ∀ g, g ∈ detected_groups r
         ↔ ∃ days, by_group r !! g = Some days ∧ days ≠ [].

(** A line qualifies as the course in the first loop of [_detect_course]:
    it is not a frequency, room, instructor or formation line, and something
    is left of it once the subgroup prefix, the type markers and the
    frequency keywords are stripped. *)
Definition qualifies (line : string) : bool :=
  negb (_is_frequency_line line || _is_room_line line
        || _is_instructor_line line || _is_formation_line line)
  && negb (Py.is_empty (_strip_inline_metadata line)).

(** A line is taken in the second loop: something is left of it once
    stripped, and what is left is not shaped like a formation marker. *)
Definition relaxed (line : string) : bool :=
  negb (Py.is_empty (_strip_inline_metadata line))
  && negb (_is_formation_line (_strip_inline_metadata line)).

(** The reading of the course fallback that the specification gives: when
    no line qualifies and some line is a formation marker, a formation
    marker becomes the course. *)
Definition formation_marker_accepted : Prop :=
  ∀ (lines : list string) (marker : string),
    Forall (λ line, qualifies line = false) lines →
    marker ∈ lines → _is_formation_line marker = true →
    ∃ line, line ∈ lines ∧ _is_formation_line line = true
            ∧ _detect_course lines = _strip_inline_metadata line.

(** A grid row recognises a header key when one of its cells names it. *)
Definition names_key (key : string) (row : list string) : bool :=
  existsb (λ cell, bool_decide (_header_name_to_key cell = Some key)) row.

(** No row among the first four recognises both a day header and a time
    header. *)
Definition header_rejected (grid : list (list string)) : bool :=
  negb (existsb (λ row, names_key "day" row && names_key "time" row) (take 4 grid)).

(** The reading the specification gives of a rejected table that stands
    alone on its page: the parse raises. *)
Definition sole_rejected_table_raises : Prop :=
  ∀ (soup : Soup) (expected_groups : list Z) (table : Table),
    find_all_tables soup = [table] →
    header_rejected (_expand_table table) = true →
    ∃ e, parse_timetable_html soup expected_groups = Raise e.

(** No cell of the first twelve rows yields a group, and the fallback has
    nothing to work with: no expected group, or no column in the first row. *)
Definition columns_unresolved (grid : list (list string)) (expected_groups : list Z)
  : Prop :=
  (∀ row cell_text, row ∈ take 12 grid → cell_text ∈ row →
     _extract_group_from_header cell_text (set_of expected_groups) = None)
  ∧ (nonempty_set (set_of expected_groups) = false ∨ head grid = Some [] ∨ grid = []).

(** ** scripts/room_legend.py *)

(** [[A-Za-z0-9_./-]+] *)
Definition ROOM_TOKEN_RE : Re.regex := Re.plus (Re.Chr code_char).

(** [pattern.findall(s)] for a pattern without groups: the matched texts. *)
Definition findall_whole (r : Re.regex) (s : string) : list string :=
  map (λ m, Py.str (fst m)) (Re.iter r None (Py.chars s) 0).

Definition _normalized_room_key (value : string) : string :=
  let cleaned := Py.strip (normalize_space value false) in
  Py.upper (Re.sub (Re.plus Re.space) "" cleaned).

(** The legend page as BeautifulSoup presents it: for every [table] of
    [soup.find_all("table")] and every [tr] of [table.find_all("tr")], the
    texts [get_text(" ", strip=True)] of its [td] and [th] cells. *)
Definition LegendSoup : Type := list (list (list string)).

(** The legend is a dictionary read in insertion order by
    [build_room_lookup]: its items, each key once. *)
Definition Legend : Type := list (string * string).

(** [candidate in legend] *)
Definition legend_has (legend : Legend) (candidate : string) : bool :=
  existsb (String.eqb candidate) (map fst legend).

(** [if candidate not in legend: legend[candidate] = address_raw] *)
Definition legend_add (address_raw : string) (legend : Legend) (candidate : string)
  : Legend :=
  if legend_has legend candidate then legend
  else legend ++ [(candidate, address_raw)].

(** [[room_raw] + [part.strip() for part in re.split(r"[;,]", room_raw)
    if part.strip()]] *)
Definition room_candidates (room_raw : string) : list string :=
  room_raw :: non_empty (map Py.strip (Re.split (Re.set ";,") room_raw)).

(** The body of [for row in table.find_all("tr")]. *)
Definition legend_row (legend : Legend) (cells : list string) : Legend :=
  match cells with
  | first :: second :: _ =>
      let room_raw := normalize_space first false in
      let address_raw := normalize_space second false in
      if Py.is_empty room_raw then legend
      else if String.eqb (_normalized_room_key room_raw) (_normalized_room_key "Sala")
      then legend
      else fold_left (legend_add address_raw) (room_candidates room_raw) legend
  | _ => legend
  end.

(** [parse_room_legend_html], on the document [BeautifulSoup(html, "html.parser")]. *)
Definition parse_room_legend_html (soup : LegendSoup) : Legend :=
  fold_left (λ legend table, fold_left legend_row table legend) soup [].

Definition lookup_add (lookup : gmap string string) (item : string * string)
  : gmap string string :=
  let key := _normalized_room_key (fst item) in
  if negb (Py.is_empty key) && negb (bool_decide (is_Some (lookup !! key)))
  then <[key := snd item]> lookup
  else lookup.

Definition build_room_lookup (legend : Legend) : gmap string string :=
  fold_left lookup_add legend ∅.

Definition resolve_room_address (room_value : string) (room_lookup : gmap string string)
  : option string :=
  let room_value := normalize_space room_value false in
  if Py.is_empty room_value then None
  else
    let direct_key := _normalized_room_key room_value in
    match room_lookup !! direct_key with
    | Some address => Some address
    | None =>
        head (omap (λ token, room_lookup !! _normalized_room_key token)
                   (findall_whole ROOM_TOKEN_RE room_value))
    end.

(** ** scripts/scrape.py: what is done with a parsed timetable *)

(** [SourceEntry] of scripts/pipeline_utils.py. *)
Record SourceEntry : Type := mkSource {
  academic_year : string;
  program_id : string;
  program_title : string;
  year : Z;
  url : string;
  groups : list Z
}.

(** An entry as written: the six fields of the parser and, when the room
    resolves to an address, the key [roomAddress]. *)
Record WrittenEntry : Type := mkWritten {
  w_entry : Entry;
  w_roomAddress : option string
}.

Record WrittenDay : Type := mkWrittenDay {
  w_day : string;
  w_entries : list WrittenEntry
}.

(** [if not room_lookup] *)
Definition lookup_is_empty (room_lookup : gmap string string) : bool :=
  bool_decide (room_lookup = ∅).

(** The copy of one entry made by [_enrich_days_with_room_address]. *)
Definition enrich_entry (room_lookup : gmap string string) (entry : Entry) : WrittenEntry :=
  let room := Py.strip (e_room entry) in
  if Py.is_empty room then mkWritten entry None
  else
    match resolve_room_address room room_lookup with
    | Some room_address =>
        if Py.is_empty room_address then mkWritten entry None
        else mkWritten entry (Some room_address)
    | None => mkWritten entry None
    end.

(** [_enrich_days_with_room_address] on the days of a [ParsedTimetable]:
    every [entries] value is a list and every entry a dictionary, so the
    two [isinstance] guards always pass. *)
Definition _enrich_days_with_room_address (days : list DaySchedule)
  (room_lookup : gmap string string) : list WrittenDay :=
  if lookup_is_empty room_lookup
  then map (λ d, mkWrittenDay (day d) (map (λ e, mkWritten e None) (entries d))) days
  else map (λ d, mkWrittenDay (day d) (map (enrich_entry room_lookup) (entries d))) days.

(** The operands of the path joins of [_timetable_path], in order:
    [out_dir / academic_year / program_id / f"y{year}" / f"g{group}.json"]. *)
Definition _timetable_path (out_dir : string) (entry : SourceEntry) (group : Z)
  : list string :=
  [out_dir; academic_year entry; program_id entry;
   "y" +:+ pretty (year entry); "g" +:+ pretty group +:+ ".json"].

(** The payload of [_make_timetable_payload]; [VERSION] is 1. *)
Record Payload : Type := mkPayload {
  p_version : Z;
  p_generatedAt : string;
  p_academicYear : string;
  p_programId : string;
  p_year : Z;
  p_group : Z;
  p_lastUpdatedAtSource : option string;
  p_days : list WrittenDay
}.

Definition _make_timetable_payload (generated_at : string) (entry : SourceEntry)
  (group : Z) (days : list WrittenDay) (last_updated_at_source : option string)
  : Payload :=
  mkPayload 1 generated_at (academic_year entry) (program_id entry) (year entry)
            group last_updated_at_source days.

(** The result of [_write_group_files]: the calls of [write_json] it makes,
    in order, and the dictionary it returns (keys written, empty and
    groupsWritten). *)
Record GroupFiles : Type := mkGroupFiles {
  gf_files : list (list string * Payload);
  gf_written : nat;
  gf_empty : nat;
  gf_groupsWritten : list Z
}.

Definition write_group (out_dir : string) (entry : SourceEntry) (parsed : ParsedTimetable)
  (generated_at : string) (last_updated_at_source : option string)
  (room_lookup : gmap string string) (acc : GroupFiles) (group : Z) : GroupFiles :=
  let days := _enrich_days_with_room_address
                (default [] (by_group parsed !! group)) room_lookup in
  let payload := _make_timetable_payload generated_at entry group days
                                         last_updated_at_source in
  mkGroupFiles (gf_files acc ++ [(_timetable_path out_dir entry group, payload)])
               (gf_written acc + 1)
               (match days with [] => gf_empty acc + 1 | _ :: _ => gf_empty acc end)
               (gf_groupsWritten acc).

(** [room_lookup] is the dictionary passed, [{}] standing for [None]. *)
Definition _write_group_files (out_dir : string) (entry : SourceEntry)
  (parsed : ParsedTimetable) (generated_at : string)
  (last_updated_at_source : option string) (room_lookup : gmap string string)
  : GroupFiles :=
  let groups_to_write :=
    sorted_set (or_set (set_of (groups entry)) (set_of (detected_groups parsed))) in
  fold_left (write_group out_dir entry parsed generated_at last_updated_at_source
                         room_lookup)
            groups_to_write (mkGroupFiles [] 0 0 groups_to_write).

(** ** Notions used to state further properties *)

(** The grid row of a [tr] when nothing is pending from above: each cell's
    text, repeated over its column span. *)
Definition plain_row (tr : Tr) : list string :=
  flat_map (λ cell, replicate (cell_cols cell) (_extract_cell_text cell)) (tr_cells tr).

Definition no_rowspans (t : Table) : bool :=
  forallb (λ tr, forallb (λ cell, (span_attr (cell_rowspan cell) =? 1)%Z) (tr_cells tr))
          (table_rows t).

(** Every pending span has at least one row to go. *)
Definition spans_positive (spans : gmap nat Span) : Prop :=
  ∀ k s, spans !! k = Some s → (1 ≤ span_rows s)%Z.

(** The value ranges of a schedule entry. *)
Definition entry_wellformed (e : Entry) : Prop :=
  e_frequency e ∈ ["weekly"; "week1"; "week2"]
  ∧ e_type e ∈ ["lecture"; "seminar"; "lab"]
  ∧ e_course e ≠ "".

Definition grouped_wellformed (grouped_entries : Grouped) : Prop :=
  ∀ group days d l,
    grouped_entries !! group = Some days → days !! d = Some l →
    Forall entry_wellformed l.

(** ** White space *)

(** What [re.sub] with a pattern [[f]+] makes of a text: every maximal run
    of characters of the class [f] becomes [repl]; [in_run] tells that the
    character before belongs to a run already replaced. *)
Fixpoint squeeze (f : ascii → bool) (repl : list ascii) (in_run : bool)
  (s : list ascii) : list ascii :=
  match s with
  | [] => []
  | x :: xs =>
      if f x then (if in_run then [] else repl) ++ squeeze f repl true xs
      else x :: squeeze f repl false xs
  end.



(** ** Where a legend item comes from *)

(** The row [cells] yields [item]: it has two cells at least, its first
    cell is neither empty nor the heading [Sala], the code of [item] is one
    of its candidates and the address of [item] is its second cell. *)
Definition row_source (cells : list string) (item : string * string) : Prop :=
  match cells with
  | first :: second :: _ =>
      let room_raw := normalize_space first false in
      room_raw ≠ ""
      ∧ _normalized_room_key room_raw ≠ _normalized_room_key "Sala"
      ∧ fst item ∈ room_candidates room_raw
      ∧ snd item = normalize_space second false
  | _ => False
  end.

Definition legend_source (soup : LegendSoup) (item : string * string) : Prop :=
  ∃ table cells, table ∈ soup ∧ cells ∈ table ∧ row_source cells item.

(** Membership in a list written out. *)
Ltac in_list := repeat first [apply list_elem_of_here | apply list_elem_of_further].

(** * Properties
    ** The matcher: the quantifier loop never runs out of turns *)

Lemma first_of_ext (a a' b b' : Re.outcome) :
  a = a' → b = b' → Re.first_of a b = Re.first_of a' b'.
Proof. by intros -> ->. Qed.

Lemma star_turn_ext greedy step k again again' p c :
  (∀ k1 k2, (∀ p c, k1 p c = k2 p c) → ∀ p c, step k1 p c = step k2 p c) →
  (∀ p' c', length (Re.rest p') < length (Re.rest p) → again p' c' = again' p' c') →
  Re.star_turn greedy step k again p c = Re.star_turn greedy step k again' p c.
Proof.
  intros Hstep Hagain. unfold Re.star_turn.
  assert (Hmore :
    step (λ p' c', if length (Re.rest p') <? length (Re.rest p)
                   then again p' c' else None) p c
    = step (λ p' c', if length (Re.rest p') <? length (Re.rest p)
                     then again' p' c' else None) p c).
  { apply Hstep. intros p' c'.
    destruct (Nat.ltb_spec (length (Re.rest p')) (length (Re.rest p))); [|done].
    by apply Hagain. }
  by rewrite Hmore.
Qed.

(** Any number of turns above the number of characters left gives the same
    match. *)
Lemma star_loop_fuel greedy step k :
  (∀ k1 k2, (∀ p c, k1 p c = k2 p c) → ∀ p c, step k1 p c = step k2 p c) →
  ∀ fuel1 fuel2 p c,
    length (Re.rest p) < fuel1 → length (Re.rest p) < fuel2 →
    Re.star_loop greedy step k fuel1 p c = Re.star_loop greedy step k fuel2 p c.
Proof.
  intros Hstep. induction fuel1 as [|fuel1 IH]; intros fuel2 p c H1 H2; [lia|].
  destruct fuel2 as [|fuel2]; [lia|]. simpl.
  apply star_turn_ext; [exact Hstep|].
  intros p' c' Hlt. apply IH; lia.
Qed.

Lemma star_loop_ext greedy step step' k k' :
  (∀ k1 k2, (∀ p c, k1 p c = k2 p c) → ∀ p c, step k1 p c = step' k2 p c) →
  (∀ p c, k p c = k' p c) →
  ∀ fuel p c,
    Re.star_loop greedy step k fuel p c = Re.star_loop greedy step' k' fuel p c.
Proof.
  intros Hstep Hk. induction fuel as [|fuel IH]; intros p c; simpl; [apply Hk|].
  unfold Re.star_turn. rewrite (Hk p c).
  assert (Hmore :
    step (λ p' c', if length (Re.rest p') <? length (Re.rest p)
                   then Re.star_loop greedy step k fuel p' c' else None) p c
    = step' (λ p' c', if length (Re.rest p') <? length (Re.rest p)
                      then Re.star_loop greedy step' k' fuel p' c' else None) p c).
  { apply Hstep. intros p' c'. by rewrite IH. }
  by rewrite Hmore.
Qed.

(** The matcher depends on its continuation only through its values. *)
Lemma run_ext r : ∀ k1 k2,
  (∀ p c, k1 p c = k2 p c) → ∀ p c, Re.run r k1 p c = Re.run r k2 p c.
Proof.
  induction r as [|f|a IHa b IHb|a IHa b IHb|greedy a IHa|n a IHa| | |];
    intros k1 k2 Hk p c.
  - apply Hk.
  - simpl. destruct (Re.rest p) as [|x xs]; [done|]. destruct (f x); [apply Hk|done].
  - simpl. apply IHa. intros p' c'. by apply IHb.
  - simpl. apply first_of_ext; [by apply IHa|by apply IHb].
  - apply (star_loop_ext greedy (Re.run a) (Re.run a) k1 k2 IHa Hk).
  - simpl. apply IHa. intros p' c'. apply Hk.
  - simpl. destruct (xorb _ _); [apply Hk|done].
  - simpl. destruct (Re.before p); [done|apply Hk].
  - simpl. destruct (Re.rest p) as [|x [|y ys]]; [apply Hk| |done].
    destruct (Chars.eqb x Chars.newline); [apply Hk|done].
Qed.

(** The loop equation of a quantifier: [a*] is one turn of [a] followed by
    [a*] again, or nothing, in the order its greediness sets. *)
Lemma run_star_unfold greedy a k p c :
  Re.run (Re.Star greedy a) k p c
  = Re.star_turn greedy (Re.run a) k (Re.run (Re.Star greedy a) k) p c.
Proof.
  change (Re.run (Re.Star greedy a) k p c)
    with (Re.star_turn greedy (Re.run a) k
            (Re.star_loop greedy (Re.run a) k (length (Re.rest p))) p c).
  apply star_turn_ext; [apply run_ext|].
  intros p' c' Hlt.
  change (Re.run (Re.Star greedy a) k p' c')
    with (Re.star_loop greedy (Re.run a) k (S (length (Re.rest p'))) p' c').
  apply star_loop_fuel; [apply run_ext|lia|lia].
Qed.

(** ** The grid builder *)

Lemma ticked_lookup spans col s k :
  ticked spans col s !! k = if decide (col = k) then tick s else spans !! k.
Proof.
  unfold ticked, tick. destruct (span_rows s - 1 <=? 0)%Z.
  - rewrite lookup_delete. reflexivity.
  - rewrite lookup_insert. reflexivity.
Qed.

Lemma pending_from_le spans col : pending_from spans col ≤ size spans.
Proof.
  unfold pending_from. rewrite <- size_dom.
  apply subseteq_size. intros k. rewrite elem_of_filter. tauto.
Qed.

Lemma pending_from_ticked spans col s :
  spans !! col = Some s →
  pending_from (ticked spans col s) (col + 1) < pending_from spans col.
Proof.
  intros Hs. unfold pending_from. apply subset_size. split.
  - intros k. rewrite !elem_of_filter, !elem_of_dom, ticked_lookup.
    intros [Hk Hin]. split; [lia|]. destruct (decide (col = k)); [lia|done].
  - intros Hsub. specialize (Hsub col).
    rewrite !elem_of_filter, !elem_of_dom in Hsub.
    destruct Hsub as [Hk _]; [|lia]. split; [lia|]. rewrite Hs. eauto.
Qed.

Lemma pending_from_zero spans col : pending_from spans col = 0 → spans !! col = None.
Proof.
  unfold pending_from. intros H. apply size_empty_inv in H.
  destruct (spans !! col) eqn:E; [|done].
  exfalso. apply (not_elem_of_empty (C:=gset nat) col). apply H.
  rewrite elem_of_filter, elem_of_dom. rewrite E. eauto.
Qed.

Lemma fill_span_loop_step fuel spans row col :
  fill_span_loop (S fuel) spans row col =
    match spans !! col with
    | None => mkCursor row spans col
    | Some s => fill_span_loop fuel (ticked spans col s) (row ++ [span_text s]) (col + 1)
    end.
Proof. reflexivity. Qed.

(** Any fuel that covers the pending columns gives the same run. *)
Lemma fill_span_loop_fuel fuel1 : ∀ fuel2 spans row col,
  pending_from spans col ≤ fuel1 → pending_from spans col ≤ fuel2 →
  fill_span_loop fuel1 spans row col = fill_span_loop fuel2 spans row col.
Proof.
  induction fuel1 as [|fuel1 IH]; intros fuel2 spans row col H1 H2.
  - assert (Hnone : spans !! col = None) by (apply pending_from_zero; lia).
    destruct fuel2; [done|]. rewrite fill_span_loop_step, Hnone. done.
  - rewrite fill_span_loop_step. destruct (spans !! col) as [s|] eqn:Hs.
    + pose proof (pending_from_ticked spans col s Hs) as Hlt.
      destruct fuel2 as [|fuel2]; [lia|].
      rewrite fill_span_loop_step, Hs. apply IH; lia.
    + destruct fuel2; [done|]. rewrite fill_span_loop_step, Hs. done.
Qed.

(** The loop equation of [while col in spans]. *)
Lemma fill_span_unfold spans row col :
  fill_span spans row col =
    match spans !! col with
    | None => mkCursor row spans col
    | Some s => fill_span (ticked spans col s) (row ++ [span_text s]) (col + 1)
    end.
Proof.
  unfold fill_span. destruct (spans !! col) as [s|] eqn:Hs.
  - pose proof (pending_from_ticked spans col s Hs) as Hlt.
    pose proof (pending_from_le spans col) as Hle.
    destruct (size spans) as [|n] eqn:Hn; [lia|].
    rewrite fill_span_loop_step, Hs.
    apply fill_span_loop_fuel; [lia|apply pending_from_le].
  - destruct (size spans); [done|]. rewrite fill_span_loop_step, Hs. done.
Qed.

Lemma fill_span_flushed spans row col : flushed spans row col (fill_span spans row col).
Proof.
  remember (pending_from spans col) as n eqn:Hn.
  revert spans row col Hn.
  induction n as [n IH] using lt_wf_ind. intros spans row col Hn.
  rewrite fill_span_unfold. destruct (spans !! col) as [s|] eqn:Hs.
  - pose proof (pending_from_ticked spans col s Hs) as Hlt.
    destruct (IH (pending_from (ticked spans col s) (col + 1)) ltac:(lia)
                 (ticked spans col s) (row ++ [span_text s]) (col + 1) eq_refl)
      as [Hc He Hl Hp Ho Hi].
    rewrite length_app in Hl, Hi, Hp. simpl in Hl, Hi, Hp.
    split.
    + lia.
    + exact He.
    + lia.
    + intros i Hlt'. rewrite Hp by lia. apply lookup_app_l. exact Hlt'.
    + intros k Hk. rewrite Ho by lia. rewrite ticked_lookup.
      destruct (decide (col = k)); [lia|done].
    + intros k Hk. destruct (decide (k = col)) as [->|Hne].
      * exists s. split; [exact Hs|]. split.
        -- replace (length row + (col - col)) with (length row) by lia.
           rewrite Hp by lia. rewrite lookup_app_r by lia.
           replace (length row - length row) with 0 by lia. done.
        -- rewrite Ho by lia. rewrite ticked_lookup.
           destruct (decide (col = col)); [done|lia].
      * destruct (Hi k ltac:(lia)) as (s' & Hs' & Hrow & Hsp).
        rewrite ticked_lookup in Hs'. destruct (decide (col = k)); [lia|].
        exists s'. split; [exact Hs'|]. split; [|exact Hsp].
        rewrite <- Hrow. f_equal. lia.
  - split; simpl; try done; lia.
Qed.

Lemma refill_flushed c : flushed (cur_spans c) (cur_row c) (cur_col c) (refill c).
Proof. apply fill_span_flushed. Qed.

Lemma refill_aligned c : aligned c → aligned (refill c).
Proof.
  unfold aligned. intros H. destruct (refill_flushed c) as [Hc _ Hl _ _ _]. lia.
Qed.

Lemma put_cell_col n text rowspan : ∀ c,
  cur_col (put_cell n text rowspan c) = cur_col c + n.
Proof. induction n as [|n IH]; intros c; simpl; [lia|]. rewrite IH. simpl. lia. Qed.

Lemma put_cell_row n text rowspan : ∀ c,
  cur_row (put_cell n text rowspan c) = cur_row c ++ replicate n text.
Proof.
  induction n as [|n IH]; intros c; simpl.
  - by rewrite app_nil_r.
  - rewrite IH. simpl. by rewrite <- app_assoc.
Qed.

Lemma put_cell_outside n text rowspan : ∀ c k,
  k < cur_col c ∨ cur_col c + n ≤ k →
  cur_spans (put_cell n text rowspan c) !! k = cur_spans c !! k.
Proof.
  induction n as [|n IH]; intros c k Hk; simpl; [done|].
  rewrite IH by (simpl; lia). simpl.
  destruct (1 <? rowspan)%Z; [|done]. apply lookup_insert_ne. lia.
Qed.

Lemma put_cell_inside n text rowspan : ∀ c k,
  cur_col c ≤ k < cur_col c + n → (1 < rowspan)%Z →
  cur_spans (put_cell n text rowspan c) !! k = Some (mkSpan (rowspan - 1) text).
Proof.
  induction n as [|n IH]; intros c k Hk Hr; simpl; [lia|].
  destruct (decide (k = cur_col c)) as [->|Hne].
  - rewrite put_cell_outside by (simpl; lia). simpl.
    destruct (Z.ltb_spec 1 rowspan); [|lia]. apply lookup_insert_eq.
  - apply IH; [simpl; lia|done].
Qed.

Lemma put_cell_aligned n text rowspan c :
  aligned c → aligned (put_cell n text rowspan c).
Proof.
  unfold aligned. intros H.
  rewrite put_cell_row, put_cell_col, length_app, length_replicate. lia.
Qed.

Lemma place_cell_aligned cell c : aligned c → aligned (place_cell cell c).
Proof. intros H. apply put_cell_aligned, refill_aligned, H. Qed.

(** Placing a cell leaves the columns already passed as they are. *)
Lemma place_cell_stable cell c :
  aligned c →
  cur_col c ≤ cur_col (place_cell cell c)
  ∧ ∀ k, k < cur_col c →
      cur_row (place_cell cell c) !! k = cur_row c !! k
      ∧ cur_spans (place_cell cell c) !! k = cur_spans c !! k.
Proof.
  intros Hal. unfold place_cell. fold (refill c).
  destruct (refill_flushed c) as [Hc _ Hl Hp Ho _].
  rewrite put_cell_col. split; [lia|]. intros k Hk. split.
  - rewrite put_cell_row. rewrite lookup_app_l by (unfold aligned in Hal; lia).
    apply Hp. unfold aligned in Hal. lia.
  - rewrite put_cell_outside by lia. apply Ho. lia.
Qed.

Lemma place_cells_cons cell cells c :
  place_cells (cell :: cells) c = place_cells cells (place_cell cell c).
Proof. reflexivity. Qed.

Lemma finish_cons cell cells c :
  finish (cell :: cells) c = finish cells (place_cell cell c).
Proof. reflexivity. Qed.

Lemma refill_stable c :
  aligned c →
  cur_col c ≤ cur_col (refill c)
  ∧ ∀ k, k < cur_col c →
      cur_row (refill c) !! k = cur_row c !! k
      ∧ cur_spans (refill c) !! k = cur_spans c !! k.
Proof.
  intros Hal. destruct (refill_flushed c) as [Hc _ Hl Hp Ho _].
  split; [done|]. intros k Hk. split.
  - apply Hp. unfold aligned in Hal. lia.
  - apply Ho. lia.
Qed.

(** The rest of a row leaves the columns already passed as they are. *)
Lemma finish_stable cells : ∀ c,
  aligned c →
  aligned (finish cells c)
  ∧ cur_col c ≤ cur_col (finish cells c)
  ∧ ∀ k, k < cur_col c →
      cur_row (finish cells c) !! k = cur_row c !! k
      ∧ cur_spans (finish cells c) !! k = cur_spans c !! k.
Proof.
  induction cells as [|cell cells IH]; intros c Hal.
  - unfold finish. simpl. split; [by apply refill_aligned|]. by apply refill_stable.
  - rewrite finish_cons.
    destruct (IH (place_cell cell c) (place_cell_aligned _ _ Hal)) as (Ha & Hc & Hk).
    destruct (place_cell_stable cell c Hal) as [Hc' Hk'].
    split; [done|]. split; [lia|]. intros k Hlt.
    destruct (Hk k ltac:(lia)) as [-> ->]. by apply Hk'.
Qed.

Lemma covered_cons cell cells c :
  covered (cell :: cells) c =
    seq (cur_col (refill c)) (cell_cols cell) ++ covered cells (place_cell cell c).
Proof. reflexivity. Qed.

Lemma place_cell_col cell c :
  cur_col (place_cell cell c) = cur_col (refill c) + cell_cols cell.
Proof. unfold place_cell. by rewrite put_cell_col. Qed.

(** A span pending at a column that the row reaches and none of its cells
    occupies is flushed into the row and loses one row. *)
Lemma finish_pending cells : ∀ c k s,
  aligned c → cur_col c ≤ k → cur_spans c !! k = Some s →
  k < cur_col (finish cells c) → k ∉ covered cells c →
  cur_row (finish cells c) !! k = Some (span_text s)
  ∧ cur_spans (finish cells c) !! k = tick s.
Proof.
  induction cells as [|cell cells IH]; intros c k s Hal Hk Hs Hlt Hfree.
  - unfold finish in *. simpl in *.
    destruct (refill_flushed c) as [_ _ _ _ _ Hi].
    destruct (Hi k ltac:(lia)) as (s' & Hs' & Hrow & Hsp).
    rewrite Hs in Hs'. injection Hs' as <-.
    unfold aligned in Hal. rewrite Hal in Hrow.
    replace (cur_col c + (k - cur_col c)) with k in Hrow by lia. done.
  - rewrite finish_cons in *. rewrite covered_cons in Hfree.
    apply not_elem_of_app in Hfree as [Hown Hfree].
    pose proof (refill_aligned c Hal) as Hal0.
    pose proof (place_cell_aligned cell c Hal) as Hal1.
    pose proof (place_cell_col cell c) as Hcol1.
    destruct (refill_flushed c) as [Hc0 _ _ _ Ho Hi].
    destruct (decide (k < cur_col (refill c))) as [Hin|Hout].
    + destruct (Hi k ltac:(lia)) as (s' & Hs' & Hrow & Hsp).
      rewrite Hs in Hs'. injection Hs' as <-.
      unfold aligned in Hal. rewrite Hal in Hrow.
      replace (cur_col c + (k - cur_col c)) with k in Hrow by lia.
      destruct (finish_stable cells (place_cell cell c) Hal1) as (_ & _ & Hst).
      destruct (Hst k ltac:(lia)) as [-> ->].
      unfold place_cell. fold (refill c).
      rewrite put_cell_row, put_cell_outside by lia.
      rewrite lookup_app_l by (unfold aligned in Hal0; lia). done.
    + assert (Hge : cur_col (refill c) + cell_cols cell ≤ k).
      { destruct (decide (cur_col (refill c) + cell_cols cell ≤ k)); [done|].
        exfalso. apply Hown. apply elem_of_seq. lia. }
      apply IH; try done; [lia|].
      unfold place_cell. fold (refill c).
      rewrite put_cell_outside by (unfold cell_cols in Hge; lia).
      rewrite Ho by lia. done.
Qed.

(** A cell's text fills its column span in its own row, and when the cell
    spans more rows, its columns are left pending for the row below. *)
Lemma finish_cell cells : ∀ c n cell j b,
  aligned c → cells !! n = Some cell → cell_columns cells c !! n = Some j →
  b < cell_cols cell →
  cur_row (finish cells c) !! (j + b) = Some (_extract_cell_text cell)
  ∧ ((1 < span_attr (cell_rowspan cell))%Z →
     cur_spans (finish cells c) !! (j + b)
     = Some (mkSpan (span_attr (cell_rowspan cell) - 1) (_extract_cell_text cell))).
Proof.
  induction cells as [|cell0 cells IH]; intros c n cell j b Hal Hn Hj Hb; [done|].
  rewrite finish_cons.
  pose proof (refill_aligned c Hal) as Hal0.
  pose proof (place_cell_aligned cell0 c Hal) as Hal1.
  destruct n as [|n].
  - simpl in Hn, Hj. injection Hn as ->. injection Hj as <-. fold (refill c).
    destruct (finish_stable cells (place_cell cell c) Hal1) as (_ & _ & Hst).
    destruct (Hst (cur_col (refill c) + b)) as [-> ->].
    { rewrite place_cell_col. lia. }
    unfold place_cell. fold (refill c). rewrite put_cell_row. split.
    + unfold aligned in Hal0. rewrite lookup_app_r by lia.
      apply lookup_replicate. split; [done|]. unfold cell_cols in Hb. lia.
    + intros Hr. apply put_cell_inside; [|done]. unfold cell_cols in Hb. lia.
  - simpl in Hn, Hj. by apply (IH _ n).
Qed.

Lemma start_aligned spans : aligned (mkCursor [] spans 0).
Proof. reflexivity. Qed.

Lemma expand_row_finish spans tr :
  expand_row spans tr =
    (cur_row (finish (tr_cells tr) (refill (mkCursor [] spans 0))),
     cur_spans (finish (tr_cells tr) (refill (mkCursor [] spans 0)))).
Proof. reflexivity. Qed.

Lemma expand_row_pending spans tr k s :
  spans !! k = Some s →
  k < length (fst (expand_row spans tr)) →
  k ∉ own_columns spans tr →
  fst (expand_row spans tr) !! k = Some (span_text s)
  ∧ snd (expand_row spans tr) !! k = tick s.
Proof.
  rewrite expand_row_finish. simpl. intros Hs Hlt Hfree.
  set (c0 := refill (mkCursor [] spans 0)) in *.
  pose proof (refill_aligned _ (start_aligned spans)) as Hal0. fold c0 in Hal0.
  destruct (finish_stable (tr_cells tr) c0 Hal0) as (Hal & _ & Hst).
  destruct (refill_flushed (mkCursor [] spans 0)) as [_ _ _ _ Ho Hi].
  fold c0 in Ho, Hi. simpl in Ho, Hi.
  destruct (decide (k < cur_col c0)) as [Hin|Hout].
  - destruct (Hi k ltac:(lia)) as (s' & Hs' & Hrow & Hsp).
    rewrite Hs in Hs'. injection Hs' as <-.
    replace (k - 0) with k in Hrow by lia.
    destruct (Hst k Hin) as [-> ->]. done.
  - apply finish_pending; try done; [lia| |].
    + rewrite Ho by lia. done.
    + unfold aligned in Hal. lia.
Qed.

Lemma expand_row_cell spans tr n cell j b :
  tr_cells tr !! n = Some cell →
  row_cell_columns spans tr !! n = Some j →
  b < cell_cols cell →
  fst (expand_row spans tr) !! (j + b) = Some (_extract_cell_text cell)
  ∧ ((1 < span_attr (cell_rowspan cell))%Z →
     snd (expand_row spans tr) !! (j + b)
     = Some (mkSpan (span_attr (cell_rowspan cell) - 1) (_extract_cell_text cell))).
Proof.
  rewrite expand_row_finish. simpl. intros Hn Hj Hb.
  apply (finish_cell _ _ n); try done.
  apply refill_aligned, start_aligned.
Qed.

Lemma expand_rows_cons spans tr trs :
  expand_rows spans (tr :: trs) =
    fst (expand_row spans tr) :: expand_rows (snd (expand_row spans tr)) trs.
Proof. simpl. destruct (expand_row spans tr). reflexivity. Qed.

Lemma expand_rows_length trs : ∀ spans, length (expand_rows spans trs) = length trs.
Proof.
  induction trs as [|tr trs IH]; intros spans; [done|].
  rewrite expand_rows_cons. simpl. by rewrite IH.
Qed.

Lemma flushes_in_zero spans tr trs k :
  flushes_in spans (tr :: trs) 0 k = true →
  k < length (fst (expand_row spans tr)) ∧ k ∉ own_columns spans tr.
Proof.
  unfold flushes_in. simpl. intros H. apply andb_true_iff in H as [H1 H2].
  apply Nat.ltb_lt in H1. apply negb_true_iff, bool_decide_eq_false in H2. done.
Qed.

Lemma flushes_in_succ spans tr trs i k :
  flushes_in spans (tr :: trs) (S i) k = flushes_in (snd (expand_row spans tr)) trs i k.
Proof. reflexivity. Qed.

(** A pending span is repeated down the rows it still has to cross, as long
    as each of them leaves its column to it. *)
Lemma expand_rows_pending a : ∀ trs spans k s,
  spans !! k = Some s →
  a < Z.to_nat (span_rows s) →
  a < length trs →
  (∀ i, i ≤ a → flushes_in spans trs i k = true) →
  cell_at (expand_rows spans trs) a k = Some (span_text s).
Proof.
  induction a as [|a IH]; intros trs spans k s Hs Hrows Hlen Hfl;
    destruct trs as [|tr trs]; simpl in Hlen; try lia;
    rewrite expand_rows_cons;
    destruct (flushes_in_zero spans tr trs k (Hfl 0 ltac:(lia))) as [Hlt Hfree];
    destruct (expand_row_pending spans tr k s Hs Hlt Hfree) as [Hrow Hsp].
  - exact Hrow.
  - unfold cell_at. simpl. change (cell_at (expand_rows (snd (expand_row spans tr)) trs) a k
      = Some (span_text s)).
    assert (Htick : tick s = Some (mkSpan (span_rows s - 1) (span_text s))).
    { unfold tick. destruct (Z.leb_spec (span_rows s - 1) 0); [lia|done]. }
    rewrite Htick in Hsp.
    apply (IH trs _ k _ Hsp); [simpl; lia|lia|].
    intros i Hi. rewrite <- flushes_in_succ. apply Hfl. lia.
Qed.

Lemma expand_rows_span i : ∀ spans trs tr n cell j a b,
  trs !! i = Some tr →
  tr_cells tr !! n = Some cell →
  row_cell_columns (spans_at spans trs i) tr !! n = Some j →
  a < cell_rows cell → b < cell_cols cell →
  i + a < length trs →
  (∀ d, 1 ≤ d ≤ a → flushes_in spans trs (i + d) (j + b) = true) →
  cell_at (expand_rows spans trs) (i + a) (j + b) = Some (_extract_cell_text cell).
Proof.
  induction i as [|i IH]; intros spans trs tr n cell j a b Hi Hn Hj Ha Hb Hlen Hfl;
    destruct trs as [|tr0 trs]; try done; rewrite expand_rows_cons.
  - simpl in Hi, Hj. injection Hi as ->.
    destruct (expand_row_cell spans tr n cell j b Hn Hj Hb) as [Hrow Hsp].
    destruct a as [|a]; [exact Hrow|].
    unfold cell_rows in Ha.
    unfold cell_at. simpl.
    change (cell_at (expand_rows (snd (expand_row spans tr)) trs) a (j + b)
            = Some (_extract_cell_text cell)).
    apply (expand_rows_pending a trs _ (j + b)
             (mkSpan (span_attr (cell_rowspan cell) - 1) (_extract_cell_text cell))).
    + apply Hsp. lia.
    + simpl. lia.
    + simpl in Hlen. lia.
    + intros d Hd. rewrite <- flushes_in_succ. apply (Hfl (S d)). lia.
  - simpl in Hi, Hj. unfold cell_at. simpl.
    change (cell_at (expand_rows (snd (expand_row spans tr0)) trs) (i + a) (j + b)
            = Some (_extract_cell_text cell)).
    apply (IH (snd (expand_row spans tr0)) trs tr n cell j a b Hi Hn Hj Ha Hb).
    + simpl in Hlen. lia.
    + intros d Hd. rewrite <- flushes_in_succ. apply (Hfl d Hd).
Qed.

Lemma cell_at_pad_rows grid i k x :
  cell_at grid i k = Some x → cell_at (pad_rows grid) i k = Some x.
Proof.
  unfold cell_at, pad_rows. rewrite list_lookup_fmap.
  destruct (grid !! i) as [row|]; [|done]. simpl. intros H.
  rewrite lookup_app_l; [done|]. by apply lookup_lt_Some in H.
Qed.

Lemma expand_table_rectangular t : rectangular t.
Proof.
  unfold rectangular, _expand_table, pad_rows. split.
  - by rewrite length_map.
  - intros i row. rewrite list_lookup_fmap.
    destruct (expand_rows ∅ (table_rows t) !! i) as [short|] eqn:Hi; [|done].
    simpl. intros [= <-]. split; [|eauto].
    rewrite length_app, length_replicate.
    assert (length short ≤ max_list (map length (expand_rows ∅ (table_rows t)))).
    { apply max_list_elem_of_le. apply list_elem_of_fmap. exists short.
      split; [done|]. by apply list_elem_of_lookup_2 in Hi. }
    lia.
Qed.

(** C1, as the specification states it, fails: in [short_row_table] the
    cell "C" spans rows 0 and 1 at column 2, but row 1 has a single cell, so
    the pending span is never reached and position (1, 2) of the grid is
    the padding, not "C". *)
Lemma span_fill_short_row : ¬ span_fill short_row_table.
Proof.
  intros H.
  specialize (H 0 (tr_of [td "A"; td "B"; td_rows "C" "2"]) 2 (td_rows "C" "2")
                2 1 0 eq_refl eq_refl eq_refl).
  assert (Hc : cell_at (_expand_table short_row_table) 1 2 = Some "").
  { vm_compute. reflexivity. }
  simpl "+" in H. rewrite Hc in H.
  assert (Ha : 1 < cell_rows (td_rows "C" "2")) by (vm_compute; lia).
  assert (Hb : 0 < cell_cols (td_rows "C" "2")) by (vm_compute; lia).
  assert (Hl : 1 < length (_expand_table short_row_table)) by (vm_compute; lia).
  specialize (H Ha Hb Hl). vm_compute in H. discriminate H.
Qed.

(** C1 (amended).  For every table the grid of [_expand_table] is
    rectangular: all rows have the length of the longest row built, the
    shorter ones padded with empty strings.  For a cell with row span
    [cell_rows] and column span [cell_cols] whose origin is row [i], column
    [j], the position [(i + a, j + b)] of its footprint holds the cell's text
    whenever each of the rows [i + 1 .. i + a] leaves column [j + b] to the
    spans pending from above ([flushes]: the row as built reaches that column
    and none of its own cells occupies it).  In the cell's own row ([a = 0])
    this asks nothing. *)
Theorem expand_table_span_fill (t : Table) :
  rectangular t
  ∧ ∀ i tr n cell j a b,
      table_rows t !! i = Some tr →
      tr_cells tr !! n = Some cell →
      origin_col t i n = Some j →
      a < cell_rows cell → b < cell_cols cell →
      i + a < length (_expand_table t) →
      forallb (λ d, flushes t (i + d) (j + b)) (seq 1 a) = true →
      cell_at (_expand_table t) (i + a) (j + b) = Some (_extract_cell_text cell).
Proof.
  split; [apply expand_table_rectangular|].
  intros i tr n cell j a b Hi Hn Hj Ha Hb Hlen Hfl.
  unfold _expand_table in *. apply cell_at_pad_rows.
  unfold origin_col in Hj. rewrite Hi in Hj.
  unfold pad_rows in Hlen. rewrite length_map, expand_rows_length in Hlen.
  apply (expand_rows_span i ∅ (table_rows t) tr n); try done.
  intros d Hd. rewrite forallb_forall in Hfl.
  apply (Hfl d). apply in_seq. lia.
Qed.

Lemma expand_table_span_fill_witness :
  rectangular day_span_table
  ∧ cell_at (_expand_table day_span_table) 1 0 = Some "Luni".
Proof.
  destruct (expand_table_span_fill day_span_table) as [Hrect Hfill].
  split; [exact Hrect|].
  apply (Hfill 0 (tr_of [td_rows "Luni" "2"; td "08-10"; td "Algebra"]) 0
               (td_rows "Luni" "2") 0 1 0).
  - reflexivity.
  - reflexivity.
  - vm_compute. reflexivity.
  - vm_compute. lia.
  - vm_compute. lia.
  - vm_compute. lia.
  - vm_compute. reflexivity.
Defined.


(** ** The field classifier: deduplication *)

Lemma entry_key_inj e1 e2 : entry_key e1 = entry_key e2 → e1 = e2.
Proof. destruct e1, e2. unfold entry_key. simpl. congruence. Qed.

Lemma dedup_step_inv acc entry : dedup_inv acc → dedup_inv (dedup_step acc entry).
Proof.
  intros [Hnd Hseen]. unfold dedup_step.
  destruct (decide (entry_key entry ∈ snd acc)) as [Hin|Hout]; [done|].
  split; simpl.
  - rewrite map_app. simpl. apply NoDup_app. split; [done|]. split.
    + intros key Hk Hk'. apply list_elem_of_singleton in Hk'. subst key.
      apply Hout, Hseen, Hk.
    + apply NoDup_singleton.
  - intros key. rewrite map_app, elem_of_app, elem_of_union, elem_of_singleton.
    simpl. rewrite list_elem_of_singleton, Hseen. tauto.
Qed.

Lemma dedup_fold_inv entries : ∀ acc,
  dedup_inv acc → dedup_inv (fold_left dedup_step entries acc).
Proof.
  induction entries as [|entry entries IH]; intros acc Hacc; [done|].
  simpl. apply IH, dedup_step_inv, Hacc.
Qed.

Lemma dedup_inv_start : dedup_inv ([], ∅).
Proof.
  split; simpl; [apply NoDup_nil_2|]. intros key. split; intros H.
  - by apply not_elem_of_empty in H.
  - by apply not_elem_of_nil in H.
Qed.

Lemma dedup_entries_NoDup entries : NoDup (map entry_key (dedup_entries entries)).
Proof. apply (dedup_fold_inv entries _ dedup_inv_start). Qed.

(** On a list without repeated keys the loop keeps every entry. *)
Lemma dedup_fold_keeps entries : ∀ acc,
  dedup_inv acc → NoDup (map entry_key (fst acc ++ entries)) →
  fst (fold_left dedup_step entries acc) = fst acc ++ entries.
Proof.
  induction entries as [|entry entries IH]; intros acc Hacc Hnd; simpl.
  - by rewrite app_nil_r.
  - assert (Hfresh : entry_key entry ∉ snd acc).
    { intros Hin. apply Hacc in Hin.
      rewrite map_app in Hnd. apply NoDup_app in Hnd as (_ & Hdisj & _).
      apply (Hdisj _ Hin). simpl. apply list_elem_of_here. }
    rewrite IH.
    + unfold dedup_step. destruct (decide _) as [|_]; [done|]. simpl.
      by rewrite <- app_assoc.
    + by apply dedup_step_inv.
    + unfold dedup_step. destruct (decide _) as [|_]; [done|]. simpl.
      by rewrite <- app_assoc.
Qed.

Lemma dedup_entries_fixed entries :
  NoDup (map entry_key entries) → dedup_entries entries = entries.
Proof.
  intros Hnd. unfold dedup_entries.
  by rewrite (dedup_fold_keeps entries _ dedup_inv_start).
Qed.

Lemma parse_cell_entries_cases text time_slot :
  _parse_cell_entries text time_slot = []
  ∨ ∃ entries, _parse_cell_entries text time_slot = dedup_entries entries.
Proof.
  unfold _parse_cell_entries.
  repeat match goal with
         | |- context [if ?b then _ else _] => destruct b; [by left|]
         end.
  right. eauto.
Qed.

(** C8.  [_parse_cell_entries] is a function of the cell text and the time
    slot alone, so classifying the same text twice gives the same list; no
    two entries of that list share the tuple (time, frequency, course, type,
    room, instructor); and deduplicating the list again changes nothing. *)
Theorem parse_cell_entries_deduplicated (text time_slot : string) :
  let first := _parse_cell_entries text time_slot in
  let second := _parse_cell_entries text time_slot in
  first = second
  ∧ NoDup (map entry_key first)
  ∧ NoDup first
  ∧ dedup_entries first = first.
Proof.
  simpl. split; [reflexivity|].
  assert (Hnd : NoDup (map entry_key (_parse_cell_entries text time_slot))).
  { destruct (parse_cell_entries_cases text time_slot) as [->|[entries ->]].
    - apply NoDup_nil_2.
    - apply dedup_entries_NoDup. }
  split; [exact Hnd|]. split.
  - apply (NoDup_fmap_1 entry_key), Hnd.
  - apply dedup_entries_fixed, Hnd.
Qed.

(** ** Sorted sets of groups *)

Lemma sorted_set_elements s : sorted_set s ≡ₚ elements s.
Proof. apply merge_sort_Permutation. Qed.

Lemma elem_of_sorted_set s g : g ∈ sorted_set s ↔ g ∈ s.
Proof. rewrite sorted_set_elements. apply elem_of_elements. Qed.

Lemma sorted_set_NoDup s : NoDup (sorted_set s).
Proof. rewrite sorted_set_elements. apply NoDup_elements. Qed.

Lemma set_of_sorted_set s : set_of (sorted_set s) = s.
Proof.
  apply set_eq. intros g. unfold set_of.
  rewrite elem_of_list_to_set. apply elem_of_sorted_set.
Qed.

Lemma strictly_ascending (l : list Z) :
  StronglySorted Z.le l → NoDup l → StronglySorted Z.lt l.
Proof.
  induction 1 as [|x l Hs IH Hall]; intros Hnd; [constructor|].
  apply NoDup_cons in Hnd as [Hx Hnd]. constructor; [by apply IH|].
  rewrite Forall_forall in *. intros y Hy.
  assert (x ≠ y) by (intros ->; by apply Hx, list_elem_of_In).
  specialize (Hall y Hy). lia.
Qed.

Lemma sorted_set_ascending s : StronglySorted Z.lt (sorted_set s).
Proof.
  apply strictly_ascending; [|apply sorted_set_NoDup].
  apply StronglySorted_merge_sort; apply _.
Qed.

Lemma section_layout_detected soup expected_groups r :
  _parse_group_section_layout soup expected_groups = Some r →
  detected_groups r = sorted_set (sec_detected (walk_sections (set_of expected_groups) soup))
  ∧ by_group r =
      _grouped_to_days (sec_grouped (walk_sections (set_of expected_groups) soup))
        (sorted_set (or_set (set_of expected_groups)
                            (sec_detected (walk_sections (set_of expected_groups) soup)))).
Proof.
  unfold _parse_group_section_layout.
  destruct (nonempty_set _); [|done]. intros [= <-]. done.
Qed.

Lemma grouped_to_days_fold_dom grouped_entries target_groups :
  ∀ acc : gmap Z (list DaySchedule),
    dom (fold_left (λ by_group group,
                      <[group := group_days grouped_entries group]> by_group)
                   target_groups acc)
    = set_of target_groups ∪ dom acc.
Proof.
  induction target_groups as [|group groups IH]; intros acc; simpl.
  - unfold set_of. simpl. by rewrite (left_id_L ∅ (∪)).
  - rewrite IH, dom_insert_L. unfold set_of. simpl.
    apply set_eq. intros g. rewrite !elem_of_union. tauto.
Qed.

Lemma grouped_to_days_dom grouped_entries target_groups :
  dom (_grouped_to_days grouped_entries target_groups) = set_of target_groups.
Proof.
  unfold _grouped_to_days. rewrite grouped_to_days_fold_dom, dom_empty_L.
  by rewrite (right_id_L ∅ (∪)).
Qed.

(** The shape of a successful columnar parse. *)
Lemma columnar_layout_returns soup expected_groups r :
  _parse_columnar_layout soup expected_groups = Return r →
  ∃ table grouped_entries,
    _select_main_table soup = Return table
    ∧ _expand_table table ≠ []
    ∧ _detect_group_columns (_expand_table table) expected_groups ≠ []
    ∧ detected_groups r
      = sorted_set (set_of (map snd (_detect_group_columns (_expand_table table)
                                                           expected_groups)))
    ∧ by_group r
      = _grouped_to_days grouped_entries
          (sorted_set (or_set (set_of expected_groups) (set_of (detected_groups r)))).
Proof.
  unfold _parse_columnar_layout.
  destruct (_select_main_table soup) as [table|e]; [|done].
  destruct (_expand_table table) as [|row grid] eqn:Hgrid; [done|].
  destruct (_detect_group_columns (row :: grid) expected_groups)
    as [|item items] eqn:Hcols; [done|].
  intros [= <-]. eexists table, _. simpl. rewrite Hgrid, Hcols.
  repeat split; done.
Qed.

Lemma parse_cases soup expected_groups r :
  parse_timetable_html soup expected_groups = Return r →
  _parse_group_section_layout soup expected_groups = Some r
  ∨ (_parse_group_section_layout soup expected_groups = None
     ∧ _parse_columnar_layout soup expected_groups = Return r).
Proof.
  unfold parse_timetable_html.
  destruct (_parse_group_section_layout soup expected_groups) as [r'|].
  - intros [= ->]. by left.
  - intros H. by right.
Qed.

(** C10.  In both layouts the detected groups come out strictly ascending,
    hence without repetition. *)
Theorem detected_groups_ascending soup expected_groups r :
  parse_timetable_html soup expected_groups = Return r →
  StronglySorted Z.lt (detected_groups r) ∧ NoDup (detected_groups r).
Proof.
  intros H. destruct (parse_cases _ _ _ H) as [Hs|[_ Hc]].
  - apply section_layout_detected in Hs as [-> _].
    split; [apply sorted_set_ascending|apply sorted_set_NoDup].
  - apply columnar_layout_returns in Hc as (table & ge & _ & _ & _ & -> & _).
    split; [apply sorted_set_ascending|apply sorted_set_NoDup].
Qed.

(** C4 (amended).  The keys of [by_group] are the expected groups, all of
    them, when the caller supplies a non-empty expected set (an expected
    group that was not detected is a key with no day), and the detected
    groups when no expected set is supplied. *)
Theorem by_group_keys soup expected_groups r :
  parse_timetable_html soup expected_groups = Return r →
  dom (by_group r) = or_set (set_of expected_groups) (set_of (detected_groups r)).
Proof.
  intros H. destruct (parse_cases _ _ _ H) as [Hs|[_ Hc]].
  - apply section_layout_detected in Hs as [-> ->].
    by rewrite grouped_to_days_dom, !set_of_sorted_set.
  - apply columnar_layout_returns in Hc as (table & ge & _ & _ & _ & _ & ->).
    by rewrite grouped_to_days_dom, set_of_sorted_set.
Qed.

Lemma detected_groups_ascending_witness :
  ∃ r, parse_timetable_html columnar_page [] = Return r
       ∧ StronglySorted Z.lt (detected_groups r) ∧ NoDup (detected_groups r).
Proof.
  eexists. split; [vm_compute; reflexivity|].
  apply (detected_groups_ascending columnar_page []).
  vm_compute. reflexivity.
Defined.

Lemma by_group_keys_witness :
  ∃ r, parse_timetable_html section_page [211; 999]%Z = Return r
       ∧ dom (by_group r) = or_set (set_of [211; 999]%Z) (set_of (detected_groups r)).
Proof.
  eexists. split; [vm_compute; reflexivity|].
  apply (by_group_keys section_page [211; 999]%Z).
  vm_compute. reflexivity.
Defined.

(** C4, as the specification states it, fails: on [section_page] with the
    expected groups 211 and 999 only group 211 is detected, yet 999 is a key
    of [by_group] (with no day). *)
Lemma keys_within_detected_fails : ¬ keys_within_detected.
Proof.
  intros H.
  destruct (parse_timetable_html section_page [211; 999]%Z) as [r|e] eqn:Hr;
    [|vm_compute in Hr; discriminate Hr].
  specialize (H section_page [211; 999]%Z r ltac:(discriminate) Hr).
  assert (Hkey : (999%Z ∈ dom (by_group r))).
  { vm_compute in Hr. injection Hr as <-. apply elem_of_dom. vm_compute. eauto. }
  rewrite H in Hkey. apply elem_of_intersection in Hkey as [_ Hdet].
  vm_compute in Hr. injection Hr as <-. simpl in Hdet.
  unfold set_of in Hdet. apply elem_of_list_to_set in Hdet.
  apply list_elem_of_singleton in Hdet. discriminate Hdet.
Qed.

(** C3, as the specification states it, fails: on [rejected_page] with the
    expected group 211 no entry is found at all, yet 211 is reported as
    detected, because the fallback maps the last column to the caller's
    group. *)
Lemma detected_iff_entries_fails : ¬ detected_iff_entries.
Proof.
  intros H.
  destruct (parse_timetable_html rejected_page [211]%Z) as [r|e] eqn:Hr;
    [|vm_compute in Hr; discriminate Hr].
  specialize (H rejected_page [211]%Z r Hr 211%Z).
  vm_compute in Hr. injection Hr as <-. simpl in H.
  destruct H as [H _]. destruct H as (days & Hdays & Hne).
  - apply list_elem_of_singleton. reflexivity.
  - vm_compute in Hdays. injection Hdays as <-. by apply Hne.
Qed.

(** ** The group-column detector *)

Lemma find_head_filter {A} (f : A → bool) (l : list A) :
  List.find f l = head (List.filter f l).
Proof.
  induction l as [|x l IH]; simpl; [done|]. destruct (f x); [done|exact IH].
Qed.

Lemma extract_group_expected cell_text expected :
  nonempty_set expected = true →
  _extract_group_from_header cell_text expected
  = head (expected_numbers cell_text expected).
Proof.
  intros Hne. unfold _extract_group_from_header, expected_numbers.
  rewrite Hne, <- find_head_filter.
  by destruct (group_numbers cell_text).
Qed.

Lemma elem_of_row_mapping row expected col g :
  (col, g) ∈ row_mapping row expected
  ↔ ∃ cell_text, row !! col = Some cell_text
                 ∧ _extract_group_from_header cell_text expected = Some g.
Proof.
  unfold row_mapping. rewrite list_elem_of_omap. split.
  - intros ([i cell_text] & Hin & Hg). simpl in Hg.
    apply elem_of_lookup_imap in Hin as (i' & x & [= -> ->] & Hrow).
    destruct (_extract_group_from_header x expected) as [g'|] eqn:Hx; [|done].
    simpl in Hg. injection Hg as -> ->. eauto.
  - intros (cell_text & Hrow & Hg). exists (col, cell_text). split.
    + apply elem_of_lookup_imap. eauto.
    + simpl. by rewrite Hg.
Qed.




(** ** The field classifier: the course *)

Lemma is_empty_false s : Py.is_empty s = false ↔ s ≠ "".
Proof. destruct s; simpl; split; congruence. Qed.

Lemma course_candidate_qualifies line :
  course_candidate line
  = if qualifies line then Some (_strip_inline_metadata line) else None.
Proof.
  unfold course_candidate, qualifies.
  destruct (_is_frequency_line line || _is_room_line line
            || _is_instructor_line line || _is_formation_line line);
    [reflexivity|].
  cbv zeta. cbn [negb andb].
  destruct (Py.is_empty (_strip_inline_metadata line)); reflexivity.
Qed.

Lemma course_fallback_relaxed line :
  course_fallback line
  = if relaxed line then Some (_strip_inline_metadata line) else None.
Proof. reflexivity. Qed.

(** The first element on which [f] is defined. *)
Lemma omap_first {A B} (f : A → option B) (l : list A) :
  match omap f l with
  | [] => Forall (λ x, f x = None) l
  | y :: _ =>
      ∃ before x after, l = before ++ x :: after
                        ∧ Forall (λ x, f x = None) before ∧ f x = Some y
  end.
Proof.
  induction l as [|x l IH]; [constructor|].
  change (omap f (x :: l))
    with (match f x with Some y => y :: omap f l | None => omap f l end).
  destruct (f x) as [y|] eqn:Hx.
  - exists [], x, l. split; [reflexivity|]. split; [constructor|exact Hx].
  - destruct (omap f l) as [|y ys].
    + constructor; assumption.
    + destruct IH as (before & x' & after & -> & Hb & Hx').
      exists (x :: before), x', after. split; [reflexivity|].
      split; [constructor; assumption|exact Hx'].
Qed.

Lemma Forall_if_none {A B} (b : A → bool) (g : A → B) (l : list A) :
  Forall (λ x, (if b x then Some (g x) else None) = None) l
  → Forall (λ x, b x = false) l.
Proof.
  intros H. eapply Forall_impl; [exact H|].
  intros x Hx. simpl in Hx. destruct (b x); [discriminate Hx|reflexivity].
Qed.

Lemma detect_course_nonempty lines : _detect_course lines ≠ "".
Proof.
  unfold _detect_course.
  pose proof (omap_first course_candidate lines) as H1.
  destruct (omap course_candidate lines) as [|c cs].
  - pose proof (omap_first course_fallback lines) as H2.
    destruct (omap course_fallback lines) as [|c cs]; [done|].
    destruct H2 as (_ & line & _ & _ & _ & Hc).
    rewrite course_fallback_relaxed in Hc. destruct (relaxed line) eqn:Hr; [|done].
    injection Hc as <-. unfold relaxed in Hr.
    apply andb_true_iff in Hr as [Hr _]. apply negb_true_iff in Hr.
    by apply is_empty_false.
  - destruct H1 as (_ & line & _ & _ & _ & Hc).
    rewrite course_candidate_qualifies in Hc. destruct (qualifies line) eqn:Hq; [|done].
    injection Hc as <-. unfold qualifies in Hq.
    apply andb_true_iff in Hq as [_ Hq]. apply negb_true_iff in Hq.
    by apply is_empty_false.
Qed.

(** C6, as the specification states it, fails: for the single line "IM1",
    a formation marker, no line qualifies, and the course is the placeholder
    "Unknown", not the marker. *)
Lemma formation_marker_accepted_fails : ¬ formation_marker_accepted.
Proof.
  intros H. destruct (H ["IM1"] "IM1") as (line & Hin & _ & Hcourse).
  - constructor; [vm_compute; reflexivity|constructor].
  - apply list_elem_of_singleton. reflexivity.
  - vm_compute. reflexivity.
  - apply list_elem_of_singleton in Hin. subst line.
    vm_compute in Hcourse. discriminate Hcourse.
Qed.

(** C6 (amended).  The course is the stripped text of the first line that
    qualifies (not a frequency, room, instructor or formation line, and not
    empty once stripped).  If no line qualifies, it is the stripped text of
    the first line, of any kind, whose stripped text is not empty and is not
    shaped like a formation marker; if there is none, it is "Unknown".  So
    the course is never empty, and line-based classification emits its entry
    for every chunk that has a line left. *)
Theorem detect_course_fallback (lines : list string) :
  _detect_course lines ≠ ""
  ∧ ((∃ before line after,
        lines = before ++ line :: after
        ∧ Forall (λ l, qualifies l = false) before ∧ qualifies line = true
        ∧ _detect_course lines = _strip_inline_metadata line)
     ∨ (Forall (λ l, qualifies l = false) lines
        ∧ ((∃ before line after,
              lines = before ++ line :: after
              ∧ Forall (λ l, relaxed l = false) before ∧ relaxed line = true
              ∧ _detect_course lines = _strip_inline_metadata line
              ∧ _is_formation_line (_detect_course lines) = false)
           ∨ (Forall (λ l, relaxed l = false) lines
              ∧ _detect_course lines = "Unknown"))))
  ∧ ∀ chunk time_slot,
      _parse_inline_chunk chunk time_slot = [] →
      chunk_lines chunk = lines → lines ≠ [] →
      ∃ entry, chunk_entries chunk time_slot = [entry]
               ∧ e_course entry = _detect_course lines.
Proof.
  split; [apply detect_course_nonempty|]. split.
  - unfold _detect_course.
    pose proof (omap_first course_candidate lines) as H1.
    destruct (omap course_candidate lines) as [|c cs].
    + right. split.
      { apply (Forall_if_none qualifies _strip_inline_metadata).
        eapply Forall_impl; [exact H1|]. intros l Hl. simpl.
        by rewrite <- course_candidate_qualifies. }
      pose proof (omap_first course_fallback lines) as H2.
      destruct (omap course_fallback lines) as [|c cs].
      * right. split; [|done].
        by apply (Forall_if_none relaxed _strip_inline_metadata).
      * left. destruct H2 as (before & line & after & -> & Hb & Hc).
        rewrite course_fallback_relaxed in Hc.
        destruct (relaxed line) eqn:Hr; [|done]. injection Hc as <-.
        exists before, line, after. split; [done|].
        split; [by apply (Forall_if_none relaxed _strip_inline_metadata)|].
        split; [done|]. split; [done|].
        unfold relaxed in Hr. apply andb_true_iff in Hr as [_ Hr].
        by apply negb_true_iff in Hr.
    + left. destruct H1 as (before & line & after & -> & Hb & Hc).
      rewrite course_candidate_qualifies in Hc.
      destruct (qualifies line) eqn:Hq; [|done]. injection Hc as <-.
      exists before, line, after. split; [done|]. split; [|done].
      apply (Forall_if_none qualifies _strip_inline_metadata).
      eapply Forall_impl; [exact Hb|]. intros l Hl. simpl.
      by rewrite <- course_candidate_qualifies.
  - intros chunk time_slot Hinline Hlines Hne. unfold chunk_entries.
    rewrite Hinline, Hlines. destruct lines as [|line lines']; [done|].
    simpl e_course.
    pose proof (detect_course_nonempty (line :: lines')) as Hcourse.
    apply is_empty_false in Hcourse. rewrite Hcourse. eauto.
Qed.

Lemma detect_course_fallback_witness :
  ∃ entry, chunk_entries ("IM1" +:+ nl +:+ "Sala CR1") "8–10" = [entry]
           ∧ e_course entry = "Sala CR1".
Proof.
  destruct (detect_course_fallback ["Sala CR1"]) as (_ & _ & Hentry).
  destruct (Hentry ("IM1" +:+ nl +:+ "Sala CR1") "8–10") as (entry & He & Hc).
  - vm_compute. reflexivity.
  - vm_compute. reflexivity.
  - discriminate.
  - exists entry. split; [exact He|]. rewrite Hc. vm_compute. reflexivity.
Defined.

(** ** The detected groups *)

Lemma walk_sections_snoc expected soup node :
  walk_sections expected (soup ++ [node])
  = section_step expected (walk_sections expected soup) node.
Proof. unfold walk_sections. by rewrite fold_left_app. Qed.

Lemma snoc_split {A} (l before after : list A) (x y : A) :
  l ++ [x] = before ++ y :: after →
  (after = [] ∧ before = l ∧ y = x)
  ∨ ∃ after', after = after' ++ [x] ∧ l = before ++ y :: after'.
Proof.
  destruct (decide (after = [])) as [->|Hne].
  - intros H. apply app_inj_tail in H as [-> ->]. by left.
  - destruct (exists_last Hne) as (after' & z & ->). intros H.
    rewrite app_comm_cons, app_assoc in H.
    apply app_inj_tail in H as [-> ->]. right. eauto.
Qed.

(** What [section_step] does to the detected set. *)
Lemma section_step_detected expected st node g :
  g ∈ sec_detected (section_step expected st node)
  ↔ g ∈ sec_detected st
    ∨ ∃ table, node = TableNode table
               ∧ accepted_group expected (sec_current st) table = Some g
               ∧ table_parsed_rows table ≠ [].
Proof.
  unfold section_step. destruct node as [text|table].
  - destruct (_extract_group_heading _); simpl; split; try tauto;
      intros [H|(t & Ht & _)]; done.
  - destruct (accepted_group expected (sec_current st) table) as [tg|] eqn:Hacc.
    + destruct (table_parsed_rows table) as [|row rows] eqn:Hrows; simpl.
      * split; [tauto|]. intros [H|(t & [= <-] & _ & Hne)]; [done|].
        by rewrite Hrows in Hne.
      * rewrite elem_of_union, elem_of_singleton. split.
        -- intros [->|H]; [|by left]. right. exists table.
           rewrite Hrows. done.
        -- intros [H|(t & [= <-] & Hg & _)]; [by right|].
           rewrite Hacc in Hg. injection Hg as ->. by left.
    + split; [tauto|]. intros [H|(t & [= <-] & Hg & _)]; [done|].
      by rewrite Hacc in Hg.
Qed.

(** In the sectioned layout a group is detected exactly when some table of
    the page is filed under it and yields at least one row. *)
Lemma walk_sections_detected expected soup g :
  g ∈ sec_detected (walk_sections expected soup)
  ↔ ∃ before table after,
      soup = before ++ TableNode table :: after
      ∧ accepted_group expected (sec_current (walk_sections expected before)) table
        = Some g
      ∧ table_parsed_rows table ≠ [].
Proof.
  induction soup as [|node soup IH] using rev_ind.
  - simpl. split; [intros H; by apply not_elem_of_empty in H|].
    intros (before & table & after & H & _). by destruct before.
  - rewrite walk_sections_snoc, section_step_detected, IH. split.
    + intros [(before & table & after & -> & Hacc & Hrows)|(table & -> & Hacc & Hrows)].
      * exists before, table, (after ++ [node]).
        by rewrite <- app_assoc, <- app_comm_cons.
      * exists soup, table, []. done.
    + intros (before & table & after & Heq & Hacc & Hrows).
      apply snoc_split in Heq as [(-> & -> & <-)|(after' & -> & ->)].
      * right. eauto.
      * left. eauto 7.
Qed.

Lemma accepted_group_expected expected current table g :
  nonempty_set expected = true →
  accepted_group expected current table = Some g → g ∈ expected.
Proof.
  intros Hne. unfold accepted_group. rewrite Hne. simpl.
  destruct (or_group _ _) as [tg|]; [|done].
  destruct (bool_decide (tg ∈ expected)) eqn:Hin; simpl; [|done].
  intros [= <-]. by apply bool_decide_eq_true in Hin.
Qed.

Lemma detect_group_columns_expected grid expected_groups column g :
  nonempty_set (set_of expected_groups) = true →
  (column, g) ∈ _detect_group_columns grid expected_groups →
  g ∈ set_of expected_groups.
Proof.
  intros Hne. unfold _detect_group_columns. rewrite Hne.
  set (kept := List.filter _ _).
  assert (Hkept : (column, g) ∈ kept → g ∈ set_of expected_groups).
  { unfold kept. rewrite list_elem_of_In, filter_In. intros [_ H].
    by apply bool_decide_eq_true in H. }
  destruct kept as [|item items]; [|exact Hkept].
  destruct grid as [|first_row rest]; [intros H; by apply not_elem_of_nil in H|].
  intros H. apply elem_of_zip_r in H. by apply elem_of_sorted_set in H.
Qed.

(** C3 (amended).  In the sectioned layout the detected groups are exactly
    the groups under which some table of the page is filed (its resolved
    group, which must be in the expected set when one is supplied) and
    yields at least one entry row.  In the columnar layout they are exactly
    the groups that the column detector maps to a column, whether or not an
    entry is found under them.  In both layouts, when the caller supplies a
    non-empty expected set, every detected group belongs to it. *)
Theorem detected_groups_evidence soup expected_groups r :
  parse_timetable_html soup expected_groups = Return r →
  (∀ g, g ∈ detected_groups r
        ↔ match _parse_group_section_layout soup expected_groups with
          | Some _ =>
              ∃ before table after,
                soup = before ++ TableNode table :: after
                ∧ accepted_group (set_of expected_groups)
                    (sec_current (walk_sections (set_of expected_groups) before))
                    table = Some g
                ∧ table_parsed_rows table ≠ []
          | None =>
              ∃ table column,
                _select_main_table soup = Return table
                ∧ (column, g) ∈ _detect_group_columns (_expand_table table)
                                                      expected_groups
          end)
  ∧ (nonempty_set (set_of expected_groups) = true →
     ∀ g, g ∈ detected_groups r → g ∈ set_of expected_groups).
Proof.
  intros H. destruct (parse_cases _ _ _ H) as [Hs|[Hnone Hc]].
  - rewrite Hs. apply section_layout_detected in Hs as [Hdet _].
    rewrite Hdet. split.
    + intros g. rewrite elem_of_sorted_set. apply walk_sections_detected.
    + intros Hne g. rewrite elem_of_sorted_set, walk_sections_detected.
      intros (before & table & after & _ & Hacc & _).
      by apply (accepted_group_expected _ _ _ _ Hne Hacc).
  - rewrite Hnone.
    apply columnar_layout_returns in Hc as (table & ge & Hsel & _ & _ & Hdet & _).
    rewrite Hdet. split.
    + intros g. rewrite elem_of_sorted_set. unfold set_of.
      rewrite elem_of_list_to_set, list_elem_of_fmap. split.
      * intros ([column g'] & -> & Hin). eauto.
      * intros (table' & column & Hsel' & Hin). rewrite Hsel in Hsel'.
        injection Hsel' as <-. exists (column, g). done.
    + intros Hne g. rewrite elem_of_sorted_set. unfold set_of at 1.
      rewrite elem_of_list_to_set, list_elem_of_fmap.
      intros ([column g'] & -> & Hin).
      by apply (detect_group_columns_expected _ _ _ _ Hne Hin).
Qed.

Lemma detected_groups_evidence_witness :
  ∃ r, parse_timetable_html rejected_page [211]%Z = Return r
       ∧ ∀ g, g ∈ detected_groups r → g ∈ set_of [211]%Z.
Proof.
  eexists. split; [vm_compute; reflexivity|].
  apply (detected_groups_evidence rejected_page [211]%Z).
  - vm_compute. reflexivity.
  - vm_compute. reflexivity.
Defined.

(** ** Explicit-header tables *)

Lemma take_min_length {A} (n : nat) (l : list A) :
  take (Nat.min n (length l)) l = take n l.
Proof.
  destruct (le_lt_dec n (length l)).
  - by rewrite Nat.min_l.
  - rewrite Nat.min_r by lia. by rewrite !take_ge by lia.
Qed.

(** A key of [header_mapping] is named by a cell of the row. *)
Lemma header_mapping_fold_key key (items : list (nat * string)) :
  ∀ acc : gmap string nat,
    is_Some (fold_left (λ mapping item,
                          match _header_name_to_key (snd item) with
                          | Some key =>
                              match mapping !! key with
                              | None => <[key := fst item]> mapping
                              | Some _ => mapping
                              end
                          | None => mapping
                          end) items acc !! key) →
    is_Some (acc !! key)
    ∨ ∃ item, item ∈ items ∧ _header_name_to_key (snd item) = Some key.
Proof.
  induction items as [|item items IH]; intros acc H; simpl in H; [by left|].
  apply IH in H as [H|(item' & Hin & Hkey)].
  - destruct (_header_name_to_key (snd item)) as [key'|] eqn:Hk; [|by left].
    destruct (acc !! key') eqn:Hacc; [by left|].
    destruct (decide (key' = key)) as [->|Hne].
    + right. exists item. split; [apply list_elem_of_here|done].
    + rewrite lookup_insert_ne in H by done. by left.
  - right. exists item'. split; [by apply list_elem_of_further|done].
Qed.

Lemma header_mapping_key key row :
  is_Some (header_mapping row !! key) → names_key key row = true.
Proof.
  unfold header_mapping. intros H.
  apply header_mapping_fold_key in H as [H|([i cell] & Hin & Hkey)].
  - rewrite lookup_empty in H. by destruct H.
  - apply elem_of_lookup_imap in Hin as (i' & x & [= -> ->] & Hrow).
    unfold names_key. apply existsb_exists. exists x. split.
    + apply list_elem_of_In. by apply list_elem_of_lookup_2 in Hrow.
    + by apply bool_decide_eq_true.
Qed.

(** The header that wins is the mapping of one of the first four rows. *)
Lemma best_header_fold (items : list (nat * list string)) : ∀ best,
  let best' :=
    fold_left (λ best item,
                 let mapping := header_mapping (snd item) in
                 let score := Z.of_nat (size mapping) in
                 if (best_score best <? score)%Z
                 then mkBest score (Z.of_nat (fst item)) mapping
                 else best) items best in
  best' = best
  ∨ ∃ item, item ∈ items ∧ best_header_map best' = header_mapping (snd item).
Proof.
  induction items as [|item items IH]; intros best; simpl; [by left|].
  match goal with |- context [fold_left ?f items ?b] =>
    destruct (IH b) as [Heq|(item' & Hin & Hmap)] end.
  - simpl in Heq. rewrite Heq.
    destruct (best_score best <? _)%Z; [|by left].
    right. exists item. split; [apply list_elem_of_here|done].
  - right. exists item'. split; [by apply list_elem_of_further|done].
Qed.

Lemma best_header_row grid :
  best_header_map (best_header grid) = ∅
  ∨ ∃ row, row ∈ take 4 grid
           ∧ best_header_map (best_header grid) = header_mapping row.
Proof.
  unfold best_header. rewrite take_min_length.
  pose proof (best_header_fold (imap pair (take 4 grid)) (mkBest (-1) (-1) ∅)) as H.
  cbv zeta in *. destruct H as [H|([i row] & Hin & Hmap)].
  { left. rewrite H. reflexivity. }
  right. exists row. split; [|exact Hmap].
  apply elem_of_lookup_imap in Hin as (i' & x & [= -> ->] & Hrow).
  by apply list_elem_of_lookup_2 in Hrow.
Qed.

Lemma header_rejected_rows grid :
  header_rejected grid = true → _parse_group_table_rows grid = ([], (-1)%Z).
Proof.
  intros Hrej. unfold _parse_group_table_rows.
  destruct (best_header_row grid) as [->|(row & Hin & ->)].
  - by rewrite lookup_empty.
  - destruct (header_mapping row !! "day") as [day_col|] eqn:Hday; [|done].
    destruct (header_mapping row !! "time") as [time_col|] eqn:Htime; [|done].
    exfalso. unfold header_rejected in Hrej. apply negb_true_iff in Hrej.
    apply not_true_iff_false in Hrej. apply Hrej.
    apply existsb_exists. exists row. split; [by apply list_elem_of_In|].
    apply andb_true_iff. split; apply header_mapping_key; eauto.
Qed.

(** ** When the group columns cannot be resolved *)

Lemma row_mapping_nil row expected :
  row_mapping row expected = []
  ↔ ∀ cell_text, cell_text ∈ row →
      _extract_group_from_header cell_text expected = None.
Proof.
  split.
  - intros Hnil cell_text Hin.
    destruct (_extract_group_from_header cell_text expected) as [g|] eqn:Hg; [|done].
    apply list_elem_of_lookup in Hin as [col Hcol].
    assert (Hmem : (col, g) ∈ row_mapping row expected).
    { apply elem_of_row_mapping. eauto. }
    rewrite Hnil in Hmem. by apply not_elem_of_nil in Hmem.
  - intros Hnone. destruct (row_mapping row expected) as [|[col g] items] eqn:Hm; [done|].
    assert (Hmem : (col, g) ∈ row_mapping row expected).
    { rewrite Hm. apply list_elem_of_here. }
    apply elem_of_row_mapping in Hmem as (cell_text & Hrow & Hg).
    rewrite Hnone in Hg; [done|]. by apply list_elem_of_lookup_2 in Hrow.
Qed.

Lemma best_row_mapping_fold rows expected : ∀ best,
  let best' :=
    fold_left (λ best_mapping row,
                 let mapping := row_mapping row expected in
                 if length best_mapping <? length mapping then mapping
                 else best_mapping) rows best in
  (best' = [] ↔ best = [] ∧ Forall (λ row, row_mapping row expected = []) rows)
  ∧ (best' = best ∨ ∃ row, row ∈ rows ∧ best' = row_mapping row expected).
Proof.
  induction rows as [|row rows IH]; intros best; simpl.
  - split; [|by left]. split; [intros ->; by split|by intros [-> _]].
  - match goal with |- context [fold_left ?f rows ?b] =>
      destruct (IH b) as [Hnil Hfrom] end.
    simpl in Hnil, Hfrom. split.
    + rewrite Hnil, Forall_cons. clear.
      destruct (Nat.ltb_spec (length best) (length (row_mapping row expected))) as [Hlt|Hge].
      * split.
        -- intros [Hm Hall]. rewrite Hm in Hlt. simpl in Hlt. lia.
        -- intros (-> & Hm & Hall). rewrite Hm in Hlt. simpl in Hlt. lia.
      * split.
        -- intros [-> Hall]. simpl in Hge.
           destruct (row_mapping row expected); [done|simpl in Hge; lia].
        -- intros (-> & Hm & Hall). done.
    + destruct Hfrom as [->|(row' & Hin & ->)].
      * destruct (length best <? _); [|by left].
        right. exists row. split; [apply list_elem_of_here|done].
      * right. exists row'. split; [by apply list_elem_of_further|done].
Qed.

Lemma best_row_mapping_nil rows expected :
  best_row_mapping rows expected = []
  ↔ Forall (λ row, row_mapping row expected = []) rows.
Proof.
  unfold best_row_mapping.
  pose proof (best_row_mapping_fold rows expected []) as [H _].
  cbv zeta in H. rewrite H. split.
  - intros [_ Hall]. exact Hall.
  - intros Hall. split; [reflexivity|exact Hall].
Qed.

(** With an expected set every group of a row's mapping is expected, so
    the final filter takes nothing away. *)
Lemma row_mapping_expected row expected item :
  nonempty_set expected = true →
  item ∈ row_mapping row expected → bool_decide (snd item ∈ expected) = true.
Proof.
  intros Hne Hin. destruct item as [col g].
  apply elem_of_row_mapping in Hin as (cell_text & _ & Hg).
  rewrite (extract_group_expected _ _ Hne) in Hg.
  unfold expected_numbers in Hg.
  apply head_Some_elem_of, list_elem_of_In, filter_In in Hg. apply Hg.
Qed.

Lemma filter_all {A} (f : A → bool) (l : list A) :
  (∀ x, x ∈ l → f x = true) → List.filter f l = l.
Proof.
  induction l as [|x l IH]; intros H; simpl; [done|].
  rewrite H by apply list_elem_of_here. f_equal. apply IH.
  intros y Hy. apply H. by apply list_elem_of_further.
Qed.

Lemma best_row_mapping_filter rows expected :
  nonempty_set expected = true →
  List.filter (λ item, bool_decide (snd item ∈ expected))
              (best_row_mapping rows expected)
  = best_row_mapping rows expected.
Proof.
  intros Hne. apply filter_all. intros item Hin.
  unfold best_row_mapping in Hin.
  destruct (best_row_mapping_fold rows expected []) as [_ [Heq|(row & _ & Heq)]];
    simpl in Heq; rewrite Heq in Hin.
  - by apply not_elem_of_nil in Hin.
  - by apply (row_mapping_expected row).
Qed.

Lemma sorted_set_nil s : sorted_set s = [] ↔ s = ∅.
Proof.
  split.
  - intros H. rewrite <- (set_of_sorted_set s), H. reflexivity.
  - intros ->. apply Permutation_nil_r. rewrite sorted_set_elements.
    by rewrite elements_empty.
Qed.

Lemma nonempty_set_true s : nonempty_set s = true ↔ s ≠ ∅.
Proof. unfold nonempty_set. apply bool_decide_eq_true. Qed.

Lemma zip_nil {A B} (l : list A) (k : list B) : zip l k = [] ↔ l = [] ∨ k = [].
Proof. destruct l, k; simpl; split; try tauto; try (intros [?|?]; done); done. Qed.

(** The group columns are unresolved exactly when no header cell yields a
    group and the fallback has nothing to work with. *)
Lemma detect_group_columns_nil grid expected_groups :
  _detect_group_columns grid expected_groups = []
  ↔ columns_unresolved grid expected_groups.
Proof.
  unfold _detect_group_columns, columns_unresolved.
  set (expected := set_of expected_groups).
  assert (Hscan : best_row_mapping (take 12 grid) expected = []
                  ↔ ∀ row cell_text, row ∈ take 12 grid → cell_text ∈ row →
                      _extract_group_from_header cell_text expected = None).
  { rewrite best_row_mapping_nil, Forall_forall. split.
    - intros H row cell_text Hrow. apply row_mapping_nil, H. exact Hrow.
    - intros H row Hrow. apply row_mapping_nil. intros cell_text.
      apply H. exact Hrow. }
  destruct (nonempty_set expected) eqn:Hne.
  - rewrite (best_row_mapping_filter _ _ Hne).
    destruct (best_row_mapping (take 12 grid) expected) as [|item items] eqn:Hbest.
    + destruct grid as [|first_row rest].
      * split; [|done]. intros _. split; [by apply Hscan|]. right. by right.
      * rewrite zip_nil, sorted_set_nil. split.
        -- intros [Hseq|Hempty].
           ++ split; [by apply Hscan|]. right. left. simpl. f_equal.
              apply nil_length_inv.
              assert (Hlen : length (seq (length first_row - size expected)
                               (length first_row
                                - (length first_row - size expected))) = 0)
                by (by rewrite Hseq).
              rewrite length_seq in Hlen.
              apply nonempty_set_true in Hne.
              assert (size expected ≠ 0).
              { intros Hz. by apply size_empty_inv, leibniz_equiv in Hz. }
              lia.
           ++ by apply nonempty_set_true in Hne.
        -- intros [_ [H|[H|H]]]; try done. simpl in H. injection H as ->.
           by left.
    + split; [done|]. intros [H _]. apply Hscan in H. done.
  - destruct (best_row_mapping (take 12 grid) expected) as [|item items] eqn:Hbest.
    + split.
      * intros _. split; [by apply Hscan|by left].
      * by destruct grid.
    + split; [done|]. intros [H _]. apply Hscan in H. done.
Qed.

(** ** The failure boundary *)

Lemma table_node_found soup table :
  TableNode table ∈ soup → table ∈ find_all_tables soup.
Proof.
  intros H. unfold find_all_tables. apply list_elem_of_omap.
  exists (TableNode table). done.
Qed.

(** When no table of the page yields a row, the sectioned layout has
    nothing to return. *)
Lemma section_layout_none soup expected_groups :
  (∀ table, table ∈ find_all_tables soup → table_parsed_rows table = []) →
  _parse_group_section_layout soup expected_groups = None.
Proof.
  intros Hrows. unfold _parse_group_section_layout.
  destruct (nonempty_set _) eqn:Hne; [|done]. exfalso.
  apply nonempty_set_true in Hne. apply Hne.
  apply set_eq. intros g. split; [|intros H; by apply not_elem_of_empty in H].
  intros Hg. apply walk_sections_detected in Hg
    as (before & table & after & -> & _ & Hparsed).
  exfalso. apply Hparsed, Hrows, table_node_found.
  apply elem_of_app. right. apply list_elem_of_here.
Qed.

Lemma header_rejected_parsed_rows table :
  header_rejected (_expand_table table) = true → table_parsed_rows table = [].
Proof.
  intros H. unfold table_parsed_rows.
  destruct (_expand_table table) as [|row grid] eqn:Hgrid; [reflexivity|].
  by rewrite (header_rejected_rows _ H).
Qed.

Lemma select_sole_table soup table :
  find_all_tables soup = [table] → _select_main_table soup = Return table.
Proof. intros H. unfold _select_main_table. by rewrite H. Qed.

(** The outcomes of the columnar layout, by the state of the page. *)
Lemma columnar_layout_outcome soup expected_groups :
  match _parse_columnar_layout soup expected_groups with
  | Raise e =>
      (find_all_tables soup = []
       ∧ e = RuntimeError "No table was found on the source page.")
      ∨ ∃ table,
          _select_main_table soup = Return table
          ∧ ((_expand_table table = []
              ∧ e = RuntimeError "Timetable table is empty.")
             ∨ (_expand_table table ≠ []
                ∧ columns_unresolved (_expand_table table) expected_groups
                ∧ e = RuntimeError "Could not detect group columns in timetable table."))
  | Return r =>
      ∃ table,
        _select_main_table soup = Return table
        ∧ _expand_table table ≠ []
        ∧ ¬ columns_unresolved (_expand_table table) expected_groups
  end.
Proof.
  unfold _parse_columnar_layout, _select_main_table.
  destruct (find_all_tables soup) as [|first others]; [by left|].
  set (table := max_by_score first others).
  destruct (_expand_table table) as [|row grid] eqn:Hgrid.
  - right. exists table. split; [done|]. left. done.
  - destruct (_detect_group_columns (row :: grid) expected_groups)
      as [|item items] eqn:Hcols.
    + right. exists table. split; [done|]. right. rewrite Hgrid.
      split; [done|]. split; [|done]. by apply detect_group_columns_nil.
    + exists table. split; [done|]. rewrite Hgrid. split; [done|].
      intros H. apply detect_group_columns_nil in H. by rewrite H in Hcols.
Qed.

(** C2.  [parse_timetable_html] raises only when the sectioned layout found
    nothing and the page itself fails: it has no table, or the table chosen
    for the columnar layout has no row, or its group columns are unresolved
    (no header cell yields a group, and the fallback has no expected group
    or no column to use).  In every other case it returns a timetable,
    whatever its rows and cells hold: rows and cells that cannot be
    classified only leave entries out. *)
Theorem parse_raises_page_level (soup : Soup) (expected_groups : list Z) :
  match parse_timetable_html soup expected_groups with
  | Raise e =>
      _parse_group_section_layout soup expected_groups = None
      ∧ ((find_all_tables soup = []
          ∧ e = RuntimeError "No table was found on the source page.")
         ∨ ∃ table,
             _select_main_table soup = Return table
             ∧ ((_expand_table table = []
                 ∧ e = RuntimeError "Timetable table is empty.")
                ∨ (_expand_table table ≠ []
                   ∧ columns_unresolved (_expand_table table) expected_groups
                   ∧ e = RuntimeError
                           "Could not detect group columns in timetable table.")))
  | Return r =>
      _parse_group_section_layout soup expected_groups = Some r
      ∨ ∃ table,
          _select_main_table soup = Return table
          ∧ _expand_table table ≠ []
          ∧ ¬ columns_unresolved (_expand_table table) expected_groups
  end.
Proof.
  unfold parse_timetable_html.
  destruct (_parse_group_section_layout soup expected_groups) as [r|]; [by left|].
  pose proof (columnar_layout_outcome soup expected_groups) as H.
  destruct (_parse_columnar_layout soup expected_groups) as [r|e].
  - by right.
  - by split.
Qed.

(** C5, as the specification states it, fails: the table of [rejected_page]
    has no day and time header and is the only table of the page, yet with
    the expected group 211 the parse returns a timetable: the columnar
    fallback maps the last column to group 211. *)
Lemma sole_rejected_table_returns : ¬ sole_rejected_table_raises.
Proof.
  intros H.
  destruct (H rejected_page [211]%Z
              (table_of [ tr_of [td "Foo"; td "Bar"]; tr_of [td "x"; td "y"] ]))
    as [e He].
  - reflexivity.
  - vm_compute. reflexivity.
  - vm_compute in He. discriminate He.
Qed.

(** C5 (amended).  Explicit-header row parsing rejects a grid, producing
    zero entries, whenever no row among its first four recognises both a day
    header and a time header.  When the rejected table is the only table of
    the page, the sectioned layout returns nothing and the parse is left to
    the columnar layout on that table: it raises exactly when the grid is
    empty or the group columns are unresolved, and returns a timetable
    otherwise. *)
Theorem header_rejected_table (grid : list (list string)) :
  header_rejected grid = true →
  _parse_group_table_rows grid = ([], (-1)%Z)
  ∧ ∀ (soup : Soup) (expected_groups : list Z) (table : Table),
      find_all_tables soup = [table] →
      _expand_table table = grid →
      _parse_group_section_layout soup expected_groups = None
      ∧ parse_timetable_html soup expected_groups
        = _parse_columnar_layout soup expected_groups
      ∧ ((∃ e, parse_timetable_html soup expected_groups = Raise e)
         ↔ grid = [] ∨ columns_unresolved grid expected_groups).
Proof.
  intros Hrej. split; [by apply header_rejected_rows|].
  intros soup expected_groups table Hsole Hgrid.
  assert (Hnone : _parse_group_section_layout soup expected_groups = None).
  { apply section_layout_none. intros t Ht. rewrite Hsole in Ht.
    apply list_elem_of_singleton in Ht. subst t.
    apply header_rejected_parsed_rows. by rewrite Hgrid. }
  split; [exact Hnone|].
  assert (Hparse : parse_timetable_html soup expected_groups
                   = _parse_columnar_layout soup expected_groups).
  { unfold parse_timetable_html. by rewrite Hnone. }
  split; [exact Hparse|]. rewrite Hparse.
  pose proof (columnar_layout_outcome soup expected_groups) as Hout.
  rewrite (select_sole_table _ _ Hsole) in Hout.
  destruct (_parse_columnar_layout soup expected_groups) as [r|e].
  - destruct Hout as (t & [= <-] & Hne & Hres). rewrite Hgrid in Hne, Hres.
    split; [intros [e He]; done|]. intros [H|H]; done.
  - split; [|eauto]. intros _.
    destruct Hout as [[Hno _]|(t & [= <-] & [[H _]|(_ & H & _)])].
    + by rewrite Hsole in Hno.
    + left. by rewrite <- Hgrid.
    + right. by rewrite <- Hgrid.
Qed.

Lemma header_rejected_table_witness :
  _parse_group_table_rows [["Foo"; "Bar"]; ["x"; "y"]] = ([], (-1)%Z)
  ∧ _parse_group_section_layout rejected_page [211]%Z = None.
Proof.
  destruct (header_rejected_table [["Foo"; "Bar"]; ["x"; "y"]]) as [Hrows Hpage].
  - vm_compute. reflexivity.
  - split; [exact Hrows|].
    apply (Hpage rejected_page [211]%Z
                 (table_of [ tr_of [td "Foo"; td "Bar"]; tr_of [td "x"; td "y"] ])).
    + reflexivity.
    + vm_compute. reflexivity.
Defined.

(** * Further properties
    ** The grid builder *)

(** X1.  [fill_span] flushes the pending spans of the consecutive columns
    from its start column on: it stops at the first column where nothing is
    pending; it appends the text of every span it passes, in column order,
    after the texts the row already holds; every span it passes loses one
    row and is deleted when none is left; and the spans of all other columns
    are untouched. *)
Theorem fill_span_flushes (spans : gmap nat Span) (row : list string) (start_col : nat) :
  let c := fill_span spans row start_col in
  start_col ≤ cur_col c
  ∧ cur_spans c !! cur_col c = None
  ∧ length (cur_row c) = length row + (cur_col c - start_col)
  ∧ (∀ i, i < length row → cur_row c !! i = row !! i)
  ∧ (∀ k, start_col ≤ k < cur_col c →
       ∃ s, spans !! k = Some s
            ∧ cur_row c !! (length row + (k - start_col)) = Some (span_text s)
            ∧ cur_spans c !! k
              = (if (span_rows s - 1 <=? 0)%Z then None
                 else Some (mkSpan (span_rows s - 1) (span_text s))))
  ∧ (∀ k, k < start_col ∨ cur_col c ≤ k → cur_spans c !! k = spans !! k).
Proof.
  cbv zeta. destruct (fill_span_flushed spans row start_col) as [H1 H2 H3 H4 H5 H6].
  repeat split; assumption.
Qed.

Lemma fill_span_flushes_witness :
  cur_row (fill_span (<[0 := mkSpan 2 "Luni"]> ∅) [] 0) !! 0 = Some "Luni"
  ∧ cur_spans (fill_span (<[0 := mkSpan 2 "Luni"]> ∅) [] 0) !! 0
    = Some (mkSpan 1 "Luni").
Proof.
  destruct (fill_span_flushes (<[0 := mkSpan 2 "Luni"]> ∅) [] 0)
    as (_ & _ & _ & _ & Hin & _).
  destruct (Hin 0) as (s & Hs & Hrow & Hsp).
  - vm_compute. lia.
  - rewrite lookup_insert_eq in Hs. injection Hs as <-.
    split; [exact Hrow|exact Hsp].
Defined.

Lemma fill_span_empty row col : fill_span ∅ row col = mkCursor row ∅ col.
Proof. rewrite fill_span_unfold. by rewrite lookup_empty. Qed.

Lemma put_cell_plain n text : ∀ row col,
  put_cell n text 1 (mkCursor row ∅ col)
  = mkCursor (row ++ replicate n text) ∅ (col + n).
Proof.
  induction n as [|n IH]; intros row col.
  - cbn [put_cell replicate]. rewrite app_nil_r. f_equal. lia.
  - cbn [put_cell cur_row cur_spans cur_col replicate].
    change (1 <? 1)%Z with false. cbv iota. rewrite IH.
    rewrite <- app_assoc. f_equal. lia.
Qed.

Lemma place_cells_plain cells : ∀ row col,
  forallb (λ cell, (span_attr (cell_rowspan cell) =? 1)%Z) cells = true →
  place_cells cells (mkCursor row ∅ col)
  = mkCursor (row ++ flat_map (λ cell, replicate (cell_cols cell)
                                         (_extract_cell_text cell)) cells)
             ∅ (col + length (flat_map (λ cell, replicate (cell_cols cell)
                                                  (_extract_cell_text cell)) cells)).
Proof.
  induction cells as [|cell cells IH]; intros row col Hall.
  - cbn [flat_map length]. rewrite app_nil_r. unfold place_cells. cbn [fold_left].
    f_equal. lia.
  - cbn [forallb] in Hall. apply andb_true_iff in Hall as [Hone Hall].
    apply Z.eqb_eq in Hone. rewrite place_cells_cons.
    unfold place_cell, refill. cbn [cur_row cur_spans cur_col].
    rewrite fill_span_empty, Hone. fold (cell_cols cell).
    rewrite put_cell_plain, (IH _ _ Hall). cbn [flat_map].
    rewrite length_app, length_replicate, <- app_assoc. f_equal. lia.
Qed.

Lemma expand_row_plain tr :
  forallb (λ cell, (span_attr (cell_rowspan cell) =? 1)%Z) (tr_cells tr) = true →
  expand_row ∅ tr = (plain_row tr, ∅).
Proof.
  intros Hall. unfold expand_row, refill. rewrite fill_span_empty.
  rewrite (place_cells_plain _ _ _ Hall). cbn [cur_row cur_spans cur_col].
  rewrite fill_span_empty. reflexivity.
Qed.

Lemma expand_rows_plain trs :
  forallb (λ tr, forallb (λ cell, (span_attr (cell_rowspan cell) =? 1)%Z) (tr_cells tr))
          trs = true →
  expand_rows ∅ trs = map plain_row trs.
Proof.
  induction trs as [|tr trs IH]; intros Hall; [reflexivity|].
  cbn [forallb] in Hall. apply andb_true_iff in Hall as [Htr Hall].
  rewrite expand_rows_cons, (expand_row_plain tr Htr). cbn [fst snd map].
  by rewrite (IH Hall).
Qed.

(** X2.  In a table none of whose cells spans more than one row, nothing is
    ever pending: each grid row is the texts of its own cells, each repeated
    over its column span, followed by the padding. *)
Theorem expand_table_without_rowspans (t : Table) :
  no_rowspans t = true →
  _expand_table t = pad_rows (map plain_row (table_rows t)).
Proof.
  intros H. unfold _expand_table. by rewrite (expand_rows_plain _ H).
Qed.

Lemma expand_table_without_rowspans_witness :
  _expand_table (table_of [ tr_of [td "A"; td_cols "B" "2"]; tr_of [td "C"] ])
  = [["A"; "B"; "B"]; ["C"; ""; ""]].
Proof.
  rewrite expand_table_without_rowspans.
  - vm_compute. reflexivity.
  - vm_compute. reflexivity.
Defined.

Lemma fill_span_positive spans row col :
  spans_positive spans → spans_positive (cur_spans (fill_span spans row col)).
Proof.
  intros Hpos k s Hk.
  destruct (fill_span_flushed spans row col) as [_ _ _ _ Hout Hin].
  destruct (decide (col ≤ k < cur_col (fill_span spans row col))) as [Hr|Hr].
  - destruct (Hin k Hr) as (s' & _ & _ & Htick). rewrite Hk in Htick.
    unfold tick in Htick.
    destruct (Z.leb_spec (span_rows s' - 1) 0); [discriminate Htick|].
    injection Htick as ->. cbn [span_rows]. lia.
  - rewrite Hout in Hk by lia. by apply (Hpos k).
Qed.

Lemma put_cell_positive n text rowspan : ∀ c,
  spans_positive (cur_spans c) →
  spans_positive (cur_spans (put_cell n text rowspan c)).
Proof.
  induction n as [|n IH]; intros c Hpos; [exact Hpos|].
  cbn [put_cell]. apply IH. cbn [cur_spans].
  destruct (Z.ltb_spec 1 rowspan); [|exact Hpos].
  intros k s. rewrite lookup_insert. destruct (decide (cur_col c = k)).
  - intros [= <-]. cbn [span_rows]. lia.
  - apply Hpos.
Qed.

Lemma place_cells_positive cells : ∀ c,
  spans_positive (cur_spans c) → spans_positive (cur_spans (place_cells cells c)).
Proof.
  induction cells as [|cell cells IH]; intros c Hpos; [exact Hpos|].
  rewrite place_cells_cons. apply IH. unfold place_cell.
  apply put_cell_positive. unfold refill. by apply fill_span_positive.
Qed.

Lemma expand_row_positive spans tr :
  spans_positive spans → spans_positive (snd (expand_row spans tr)).
Proof.
  intros Hpos. unfold expand_row, refill. cbn [snd].
  apply fill_span_positive, place_cells_positive, fill_span_positive, Hpos.
Qed.

(** X3.  A pending span is never kept with no row left: whatever rows of
    whatever table have been built, every span still pending has at least
    one more row to fill. *)
Theorem pending_spans_positive (trs : list Tr) (i k : nat) (s : Span) :
  spans_at ∅ trs i !! k = Some s → (1 ≤ span_rows s)%Z.
Proof.
  assert (Hgen : ∀ i trs spans, spans_positive spans →
                   spans_positive (spans_at spans trs i)).
  { clear. induction i as [|i IH]; intros trs spans Hpos; [by destruct trs|].
    destruct trs as [|tr trs]; [exact Hpos|]. cbn [spans_at].
    apply IH, expand_row_positive, Hpos. }
  apply (Hgen i trs ∅). intros k' s'. by rewrite lookup_empty.
Qed.

Lemma pending_spans_positive_witness :
  (1 ≤ span_rows (mkSpan 1 "Luni"))%Z.
Proof.
  apply (pending_spans_positive (table_rows day_span_table) 1 0).
  vm_compute. reflexivity.
Defined.

(** ** Deduplication keeps first occurrences *)

Lemma dedup_inv_mem acc entry :
  dedup_inv acc → (entry_key entry ∈ snd acc ↔ entry ∈ fst acc).
Proof.
  intros [_ Hseen]. rewrite Hseen, list_elem_of_fmap. split.
  - intros (e & Hkey & Hin). apply entry_key_inj in Hkey. by subst.
  - intros Hin. eauto.
Qed.

Lemma dedup_step_seen acc entry :
  entry_key entry ∈ snd acc → dedup_step acc entry = acc.
Proof.
  intros H. unfold dedup_step. destruct (decide _); [reflexivity|contradiction].
Qed.

Lemma dedup_step_new acc entry :
  entry_key entry ∉ snd acc →
  dedup_step acc entry = (fst acc ++ [entry], {[entry_key entry]} ∪ snd acc).
Proof.
  intros H. unfold dedup_step. destruct (decide _); [contradiction|reflexivity].
Qed.

Lemma dedup_fold_members entries : ∀ acc,
  dedup_inv acc →
  ∀ e, e ∈ fst (fold_left dedup_step entries acc) ↔ e ∈ fst acc ∨ e ∈ entries.
Proof.
  induction entries as [|entry entries IH]; intros acc Hacc e.
  - cbn [fold_left]. rewrite elem_of_nil. tauto.
  - cbn [fold_left]. rewrite (IH _ (dedup_step_inv acc entry Hacc)), elem_of_cons.
    destruct (decide (entry_key entry ∈ snd acc)) as [Hin|Hout].
    + rewrite (dedup_step_seen _ _ Hin).
      apply (dedup_inv_mem acc entry Hacc) in Hin. split; [tauto|].
      intros [H|[->|H]]; tauto.
    + rewrite (dedup_step_new _ _ Hout). cbn [fst].
      rewrite elem_of_app, list_elem_of_singleton. tauto.
Qed.

Lemma dedup_fold_sublist entries : ∀ acc,
  ∃ kept, fst (fold_left dedup_step entries acc) = fst acc ++ kept
          ∧ sublist kept entries.
Proof.
  induction entries as [|entry entries IH]; intros acc.
  - exists []. cbn [fold_left]. rewrite app_nil_r. split; [reflexivity|constructor].
  - cbn [fold_left]. destruct (IH (dedup_step acc entry)) as (kept & Heq & Hsub).
    destruct (decide (entry_key entry ∈ snd acc)) as [Hin|Hout].
    + rewrite (dedup_step_seen _ _ Hin) in Heq |- *.
      exists kept. split; [exact Heq|]. by apply sublist_cons.
    + rewrite (dedup_step_new _ _ Hout) in Heq |- *.
      exists (entry :: kept). cbn [fst] in Heq. rewrite <- app_assoc in Heq.
      split; [exact Heq|]. by apply sublist_skip.
Qed.

(** X4.  The deduplication at the end of [_parse_cell_entries] loses no
    entry and keeps the order of first occurrences: the result is a sublist
    of the entries met, it has the same members, and an entry met after the
    others is appended exactly when it was not met before. *)
Theorem dedup_entries_first_occurrences (entries : list Entry) :
  sublist (dedup_entries entries) entries
  ∧ (∀ e, e ∈ dedup_entries entries ↔ e ∈ entries)
  ∧ ∀ last,
      (last ∈ entries → dedup_entries (entries ++ [last]) = dedup_entries entries)
      ∧ (last ∉ entries →
         dedup_entries (entries ++ [last]) = dedup_entries entries ++ [last]).
Proof.
  split; [|split].
  - destruct (dedup_fold_sublist entries ([], ∅)) as (kept & Heq & Hsub).
    unfold dedup_entries. rewrite Heq. exact Hsub.
  - intros e. unfold dedup_entries.
    rewrite (dedup_fold_members entries _ dedup_inv_start). cbn [fst].
    rewrite elem_of_nil. tauto.
  - intros last. unfold dedup_entries. rewrite fold_left_app. cbn [fold_left].
    pose proof (dedup_fold_inv entries _ dedup_inv_start) as Hinv.
    pose proof (dedup_fold_members entries _ dedup_inv_start last) as Hmem.
    cbn [fst] in Hmem. rewrite elem_of_nil in Hmem.
    pose proof (dedup_inv_mem _ last Hinv) as Hkey.
    split; intros Hl.
    + rewrite dedup_step_seen; [reflexivity|tauto].
    + rewrite dedup_step_new; [reflexivity|tauto].
Qed.

Lemma dedup_entries_first_occurrences_witness :
  dedup_entries ([mkEntry "8–10" "weekly" "Algebra" "lecture" "CR1" ""]
                 ++ [mkEntry "8–10" "weekly" "Algebra" "lecture" "CR1" ""])
  = dedup_entries [mkEntry "8–10" "weekly" "Algebra" "lecture" "CR1" ""].
Proof.
  apply (dedup_entries_first_occurrences
           [mkEntry "8–10" "weekly" "Algebra" "lecture" "CR1" ""]).
  apply list_elem_of_here.
Defined.

(** ** The value ranges of the entries *)

Lemma detect_frequency_range text :
  _detect_frequency text ∈ ["weekly"; "week1"; "week2"].
Proof.
  unfold _detect_frequency. cbv zeta.
  destruct (searches WEEK1_RE (_fold text)), (searches WEEK2_RE (_fold text));
    cbn [andb]; try destruct (searches WEEKLY_RE (_fold text)); in_list.
Qed.

Lemma detect_type_range text : _detect_type text ∈ ["lecture"; "seminar"; "lab"].
Proof.
  unfold _detect_type. cbv zeta.
  repeat match goal with
         | |- context [if searches ?r ?t then _ else _] => destruct (searches r t)
         end; in_list.
Qed.

Lemma entry_wellformed_intro time_slot frequency_text course type_text room instructor :
  course ≠ "" →
  entry_wellformed {| e_time := time_slot;
                      e_frequency := _detect_frequency frequency_text;
                      e_course := course;
                      e_type := _detect_type type_text;
                      e_room := room;
                      e_instructor := instructor |}.
Proof.
  intros Hc. unfold entry_wellformed. cbn [e_frequency e_type e_course].
  split; [apply detect_frequency_range|]. split; [apply detect_type_range|exact Hc].
Qed.

Lemma parse_inline_entry_wellformed line time_slot e :
  _parse_inline_entry_line line time_slot = Some e → entry_wellformed e.
Proof.
  unfold _parse_inline_entry_line. cbv zeta.
  destruct (Py.is_empty (normalize_space line false)); [discriminate|].
  destruct (negb (Re.found _)); [discriminate|].
  destruct (Py.is_empty (_strip_inline_metadata _)) eqn:Hc; [discriminate|].
  intros [= <-]. apply entry_wellformed_intro. by apply is_empty_false.
Qed.

Lemma chunk_entries_wellformed chunk time_slot e :
  e ∈ chunk_entries chunk time_slot → entry_wellformed e.
Proof.
  unfold chunk_entries. cbv zeta.
  destruct (_parse_inline_chunk chunk time_slot) as [|e0 es] eqn:Hinline.
  - destruct (chunk_lines chunk) as [|line lines].
    + intros H. by apply elem_of_nil in H.
    + cbn [e_course].
      pose proof (detect_course_nonempty (line :: lines)) as Hc.
      destruct (Py.is_empty (_detect_course (line :: lines))) eqn:He.
      * intros H. by apply elem_of_nil in H.
      * intros H. apply list_elem_of_singleton in H. subst e.
        by apply entry_wellformed_intro.
  - rewrite <- Hinline. unfold _parse_inline_chunk. intros H.
    apply list_elem_of_omap in H as (line & _ & Hline).
    by apply parse_inline_entry_wellformed in Hline.
Qed.

Lemma dedup_entries_members entries e : e ∈ dedup_entries entries → e ∈ entries.
Proof.
  unfold dedup_entries. rewrite (dedup_fold_members entries _ dedup_inv_start).
  cbn [fst]. rewrite elem_of_nil. tauto.
Qed.

Lemma parse_cell_entries_wellformed text time_slot :
  Forall entry_wellformed (_parse_cell_entries text time_slot).
Proof.
  apply Forall_forall. intros e. unfold _parse_cell_entries. cbv zeta.
  repeat match goal with
         | |- context [if ?b then [] else _] =>
             destruct b; [intros H; by apply elem_of_nil in H|]
         end.
  intros H. apply dedup_entries_members, list_elem_of_In, in_concat in H
    as (chunk_list & Hin & He).
  apply in_map_iff in Hin as (chunk & <- & _).
  apply list_elem_of_In in He. by apply chunk_entries_wellformed in He.
Qed.

(** [normalize_day] only answers with one of the five names of [DAY_ORDER]. *)
Lemma normalize_day_in_order value d : normalize_day value = Some d → d ∈ DAY_ORDER.
Proof.
  unfold normalize_day. cbv zeta.
  destruct (List.find _ DAY_ALIASES) as [[alias canonical]|] eqn:Hfind;
    [|discriminate].
  intros [= <-]. apply find_some in Hfind as [Hin _]. cbn [snd].
  unfold DAY_ALIASES in Hin. cbn [In] in Hin.
  unfold DAY_ORDER.
  repeat (destruct Hin as [[= _ <-]|Hin]; [in_list|]). destruct Hin.
Qed.

Lemma parse_group_row_wellformed mapping day_col time_col row d e :
  parse_group_row mapping day_col time_col row = Some (d, e) →
  entry_wellformed e ∧ d ∈ DAY_ORDER.
Proof.
  unfold parse_group_row. cbv zeta.
  destruct (row !! day_col) as [day_cell|]; [|discriminate].
  destruct (row !! time_col) as [raw_time|]; [|discriminate].
  destruct (normalize_day day_cell) as [d'|] eqn:Hday; [|discriminate].
  destruct (Re.group 1 (Re.search TIME_RE raw_time)) as [time_text|]; [|discriminate].
  cbn [e_course].
  match goal with |- context [Py.is_empty ?c] => destruct (Py.is_empty c) eqn:Hc end;
    [discriminate|].
  intros [= <- <-]. split.
  - apply entry_wellformed_intro. by apply is_empty_false.
  - by apply (normalize_day_in_order day_cell).
Qed.

(** ** What the assembled timetable holds *)

Lemma grouped_wellformed_empty : grouped_wellformed ∅.
Proof.
  unfold grouped_wellformed, Grouped. intros group days d l H.
  by rewrite lookup_empty in H.
Qed.

Lemma extend_bucket_wellformed grouped_entries group d new :
  grouped_wellformed grouped_entries → Forall entry_wellformed new →
  grouped_wellformed (extend_bucket grouped_entries group d new).
Proof.
  unfold grouped_wellformed, extend_bucket. cbv zeta. unfold Grouped in *.
  intros Hwf Hnew group' days d' l.
  rewrite lookup_insert. destruct (decide (group = group')) as [<-|Hne].
  - intros [= <-]. rewrite lookup_insert. destruct (decide (d = d')) as [<-|Hd].
    + intros [= <-]. apply Forall_app. split; [|exact Hnew].
      destruct (grouped_entries !! group) as [old|] eqn:Hold; cbn [from_option id].
      * destruct (old !! d) as [l|] eqn:Hl; cbn [from_option id]; [|constructor].
        by apply (Hwf group old d l).
      * rewrite lookup_empty. constructor.
    + destruct (grouped_entries !! group) as [old|] eqn:Hold; cbn [from_option id].
      * by apply (Hwf group old d' l).
      * intros H. by rewrite lookup_empty in H.
  - apply Hwf.
Qed.

Lemma append_rows_wellformed parsed_rows : ∀ grouped_entries table_group,
  grouped_wellformed grouped_entries →
  Forall (λ row_entry, entry_wellformed (snd row_entry)) parsed_rows →
  grouped_wellformed (append_rows grouped_entries table_group parsed_rows).
Proof.
  unfold append_rows.
  induction parsed_rows as [|row_entry rows IH]; intros grouped table_group Hwf Hrows;
    [exact Hwf|].
  apply Forall_cons in Hrows as [Hrow Hrows]. cbn [fold_left].
  apply IH; [|exact Hrows]. apply extend_bucket_wellformed; [exact Hwf|].
  constructor; [exact Hrow|constructor].
Qed.

Lemma group_table_rows_wellformed grid :
  Forall (λ row_entry, entry_wellformed (snd row_entry) ∧ fst row_entry ∈ DAY_ORDER)
         (fst (_parse_group_table_rows grid)).
Proof.
  unfold _parse_group_table_rows. cbv zeta.
  destruct (best_header_map (best_header grid) !! "day") as [day_col|];
    [|constructor].
  destruct (best_header_map (best_header grid) !! "time") as [time_col|];
    [|constructor].
  cbn [fst]. apply Forall_forall. intros [d e] Hin.
  apply list_elem_of_omap in Hin as (row & _ & Hrow).
  by apply parse_group_row_wellformed in Hrow.
Qed.

Lemma table_parsed_rows_wellformed table :
  Forall (λ row_entry, entry_wellformed (snd row_entry) ∧ fst row_entry ∈ DAY_ORDER)
         (table_parsed_rows table).
Proof.
  unfold table_parsed_rows. destruct (_expand_table table); [constructor|].
  apply group_table_rows_wellformed.
Qed.

Lemma section_step_wellformed expected st node :
  grouped_wellformed (sec_grouped st) →
  grouped_wellformed (sec_grouped (section_step expected st node)).
Proof.
  intros Hwf. unfold section_step. destruct node as [text|table].
  - by destruct (_extract_group_heading _).
  - destruct (accepted_group expected (sec_current st) table) as [g|]; [|exact Hwf].
    pose proof (table_parsed_rows_wellformed table) as Hrows.
    destruct (table_parsed_rows table) as [|row rows]; [exact Hwf|].
    cbn [sec_grouped]. apply append_rows_wellformed; [exact Hwf|].
    eapply Forall_impl; [exact Hrows|]. intros x [Hx _]. exact Hx.
Qed.

Lemma walk_sections_wellformed expected soup :
  grouped_wellformed (sec_grouped (walk_sections expected soup)).
Proof.
  induction soup as [|node soup IH] using rev_ind.
  - apply grouped_wellformed_empty.
  - rewrite walk_sections_snoc. by apply section_step_wellformed.
Qed.

Lemma fill_columns_wellformed group_columns row current_day time_slot :
  ∀ grouped_entries,
    grouped_wellformed grouped_entries →
    grouped_wellformed (fill_columns group_columns row current_day time_slot
                                     grouped_entries).
Proof.
  unfold fill_columns.
  induction group_columns as [|[column group] items IH]; intros grouped Hwf;
    [exact Hwf|].
  cbn [fold_left]. apply IH.
  destruct (grouped !! group); [|exact Hwf].
  destruct (row !! column) as [cell|]; [|exact Hwf].
  pose proof (parse_cell_entries_wellformed cell time_slot) as Hcell.
  destruct (_parse_cell_entries cell time_slot) as [|e es]; [exact Hwf|].
  by apply extend_bucket_wellformed.
Qed.

Lemma walk_row_wellformed group_columns st row :
  grouped_wellformed (fst st) →
  grouped_wellformed (fst (walk_row group_columns st row)).
Proof.
  intros Hwf. unfold walk_row. cbv zeta.
  destruct (match row_day row with Some d => Some d | None => snd st end);
    [|exact Hwf].
  destruct (_extract_time row) as [time_slot|]; [|exact Hwf].
  destruct (Py.is_empty time_slot); [exact Hwf|].
  cbn [fst]. by apply fill_columns_wellformed.
Qed.

Lemma walk_rows_wellformed group_columns grid : ∀ st,
  grouped_wellformed (fst st) →
  grouped_wellformed (fst (fold_left (walk_row group_columns) grid st)).
Proof.
  induction grid as [|row grid IH]; intros st Hwf; [exact Hwf|].
  cbn [fold_left]. by apply IH, walk_row_wellformed.
Qed.

Lemma empty_buckets_wellformed target_groups :
  grouped_wellformed (empty_buckets target_groups).
Proof.
  unfold empty_buckets.
  assert (Hgen : ∀ acc : Grouped, grouped_wellformed acc →
            grouped_wellformed (fold_left (λ grouped group, <[group := ∅]> grouped)
                                          target_groups acc)).
  { unfold grouped_wellformed, Grouped.
    induction target_groups as [|g gs IH]; intros acc Hacc; [exact Hacc|].
    cbn [fold_left]. apply IH. intros group days d l. rewrite lookup_insert.
    destruct (decide (g = group)).
    - intros [= <-] H. by rewrite lookup_empty in H.
    - apply Hacc. }
  apply Hgen, grouped_wellformed_empty.
Qed.

Lemma day_entries_wellformed grouped_entries group d :
  grouped_wellformed grouped_entries →
  Forall entry_wellformed (day_entries grouped_entries group d).
Proof.
  unfold grouped_wellformed, day_entries. unfold Grouped in *.
  intros Hwf.
  destruct (grouped_entries !! group) as [days|] eqn:Hdays; cbn [from_option id].
  - destruct (days !! d) as [l|] eqn:Hl; cbn [from_option id]; [|constructor].
    by apply (Hwf group days d l).
  - rewrite lookup_empty. constructor.
Qed.

(** The days of one group: those of [DAY_ORDER] that have entries, in that
    order, each with all its entries. *)
Lemma group_days_spec grouped_entries group :
  sublist (map day (group_days grouped_entries group)) DAY_ORDER
  ∧ ∀ ds, ds ∈ group_days grouped_entries group →
      entries ds = day_entries grouped_entries group (day ds) ∧ entries ds ≠ [].
Proof.
  unfold group_days. split.
  - induction DAY_ORDER as [|d ds IH]; [constructor|].
    cbn [omap list_omap]. change (list_omap _ _ ?f ds) with (omap f ds).
    destruct (day_entries grouped_entries group d); cbn [map]; [by apply sublist_cons|].
    cbn [day]. by apply sublist_skip.
  - intros ds Hin. apply list_elem_of_omap in Hin as (d & _ & Hd).
    destruct (day_entries grouped_entries group d) as [|e es] eqn:Hl; [discriminate|].
    injection Hd as <-. cbn [entries day]. rewrite Hl. split; [reflexivity|discriminate].
Qed.

Lemma grouped_to_days_fold_lookup grouped_entries target_groups group :
  ∀ (acc : gmap Z (list DaySchedule)) days,
    fold_left (λ by_group g, <[g := group_days grouped_entries g]> by_group)
              target_groups acc !! group = Some days →
    acc !! group = Some days ∨ days = group_days grouped_entries group.
Proof.
  induction target_groups as [|g gs IH]; intros acc days H; [by left|].
  cbn [fold_left] in H. apply IH in H as [H|H]; [|by right].
  rewrite lookup_insert in H. destruct (decide (g = group)) as [<-|_].
  - right. by injection H as <-.
  - by left.
Qed.

Lemma grouped_to_days_lookup grouped_entries target_groups group days :
  _grouped_to_days grouped_entries target_groups !! group = Some days →
  days = group_days grouped_entries group.
Proof.
  unfold _grouped_to_days. intros H.
  apply grouped_to_days_fold_lookup in H as [H|H]; [|exact H].
  by rewrite lookup_empty in H.
Qed.

(** Every timetable returned is [_grouped_to_days] of well-formed buckets. *)
Lemma parse_assembled soup expected_groups r :
  parse_timetable_html soup expected_groups = Return r →
  ∃ grouped_entries target_groups,
    grouped_wellformed grouped_entries
    ∧ by_group r = _grouped_to_days grouped_entries target_groups.
Proof.
  intros H. destruct (parse_cases _ _ _ H) as [Hs|[_ Hc]].
  - apply section_layout_detected in Hs as [_ Hby].
    eexists _, _. split; [|exact Hby]. apply walk_sections_wellformed.
  - revert Hc. unfold _parse_columnar_layout.
    destruct (_select_main_table soup) as [table|e]; [|discriminate].
    destruct (_expand_table table) as [|row grid]; [discriminate|].
    destruct (_detect_group_columns (row :: grid) expected_groups) as [|item items];
      [discriminate|].
    cbv zeta. intros [= <-]. cbn [by_group]. eexists _, _. split; [|reflexivity].
    apply walk_rows_wellformed. try apply walk_row_wellformed.
    cbn [fst]. apply empty_buckets_wellformed.
Qed.

(** X5.  Every entry of a returned timetable is within the data model: its
    frequency is weekly, week1 or week2, its type is lecture, seminar or lab,
    and its course is not empty. *)
Theorem parsed_entries_wellformed soup expected_groups r group days ds e :
  parse_timetable_html soup expected_groups = Return r →
  by_group r !! group = Some days → ds ∈ days → e ∈ entries ds →
  e_frequency e ∈ ["weekly"; "week1"; "week2"]
  ∧ e_type e ∈ ["lecture"; "seminar"; "lab"]
  ∧ e_course e ≠ "".
Proof.
  intros H Hdays Hds He.
  apply parse_assembled in H as (grouped & targets & Hwf & Hby).
  rewrite Hby in Hdays. apply grouped_to_days_lookup in Hdays. subst days.
  destruct (group_days_spec grouped group) as [_ Hspec].
  destruct (Hspec ds Hds) as [Heq _]. rewrite Heq in He.
  pose proof (day_entries_wellformed grouped group (day ds) Hwf) as Hall.
  rewrite Forall_forall in Hall. by apply Hall.
Qed.

(** X6.  In every returned timetable the days of a group follow the fixed
    order Monday to Friday, each day at most once, and a day is listed only
    with at least one entry. *)
Theorem parsed_days_ordered soup expected_groups r group days :
  parse_timetable_html soup expected_groups = Return r →
  by_group r !! group = Some days →
  sublist (map day days) DAY_ORDER
  ∧ NoDup (map day days)
  ∧ Forall (λ ds, entries ds ≠ []) days.
Proof.
  intros H Hdays.
  apply parse_assembled in H as (grouped & targets & _ & Hby).
  rewrite Hby in Hdays. apply grouped_to_days_lookup in Hdays. subst days.
  destruct (group_days_spec grouped group) as [Hsub Hspec].
  split; [exact Hsub|]. split.
  - apply (sublist_NoDup _ DAY_ORDER); [|exact Hsub].
    apply (bool_decide_unpack _). vm_compute. exact I.
  - apply Forall_forall. intros ds Hds. by apply Hspec.
Qed.

Lemma parsed_entries_wellformed_witness :
  ∃ r days ds e,
    parse_timetable_html section_page [] = Return r
    ∧ by_group r !! 211%Z = Some days
    ∧ ds ∈ days ∧ e ∈ entries ds
    ∧ e_course e ≠ "".
Proof.
  eexists _, _, _, _.
  split; [vm_compute; reflexivity|]. split; [vm_compute; reflexivity|].
  split; [apply list_elem_of_here|].
  split; [cbn [entries]; apply list_elem_of_here|].
  eapply (parsed_entries_wellformed section_page [] _ 211%Z).
  - vm_compute. reflexivity.
  - vm_compute. reflexivity.
  - apply list_elem_of_here.
  - cbn [entries]. apply list_elem_of_here.
Defined.

Lemma parsed_days_ordered_witness :
  ∃ r days, parse_timetable_html section_page [] = Return r
            ∧ by_group r !! 211%Z = Some days
            ∧ sublist (map day days) DAY_ORDER.
Proof.
  eexists _, _. split; [vm_compute; reflexivity|]. split; [vm_compute; reflexivity|].
  eapply (parsed_days_ordered section_page [] _ 211%Z).
  - vm_compute. reflexivity.
  - vm_compute. reflexivity.
Defined.

(** ** The sectioned layout loses no row *)

Lemma day_entries_extend grouped_entries group d new group' d' :
  day_entries (extend_bucket grouped_entries group d new) group' d'
  = if decide (group = group' ∧ d = d')
    then day_entries grouped_entries group d ++ new
    else day_entries grouped_entries group' d'.
Proof.
  unfold day_entries, extend_bucket. cbv zeta. unfold Grouped in *.
  rewrite lookup_insert. destruct (decide (group = group')) as [<-|Hg].
  - cbn [from_option id]. rewrite lookup_insert.
    destruct (decide (d = d')) as [<-|Hd].
    + rewrite decide_True by done. reflexivity.
    + rewrite decide_False by (intros [_ ?]; done). reflexivity.
  - rewrite decide_False by (intros [? _]; done). reflexivity.
Qed.

Lemma day_entries_extend_mono grouped_entries group d new group' d' e :
  e ∈ day_entries grouped_entries group' d' →
  e ∈ day_entries (extend_bucket grouped_entries group d new) group' d'.
Proof.
  intros H. rewrite day_entries_extend.
  destruct (decide (group = group' ∧ d = d')) as [[<- <-]|_]; [|exact H].
  apply elem_of_app. by left.
Qed.

Lemma append_rows_mono rows : ∀ grouped_entries table_group group d e,
  e ∈ day_entries grouped_entries group d →
  e ∈ day_entries (append_rows grouped_entries table_group rows) group d.
Proof.
  unfold append_rows.
  induction rows as [|row rows IH]; intros grouped table_group group d e H; [exact H|].
  cbn [fold_left]. apply IH. by apply day_entries_extend_mono.
Qed.

Lemma append_rows_includes rows : ∀ grouped_entries table_group d e,
  (d, e) ∈ rows →
  e ∈ day_entries (append_rows grouped_entries table_group rows) table_group d.
Proof.
  induction rows as [|row rows IH]; intros grouped table_group d e Hin.
  - by apply elem_of_nil in Hin.
  - apply elem_of_cons in Hin as [<-|Hin].
    + unfold append_rows. cbn [fold_left fst snd].
      apply (append_rows_mono rows). rewrite day_entries_extend.
      rewrite decide_True by done. apply elem_of_app. right.
      apply list_elem_of_here.
    + unfold append_rows. cbn [fold_left]. by apply IH.
Qed.

Lemma section_step_mono expected st node group d e :
  e ∈ day_entries (sec_grouped st) group d →
  e ∈ day_entries (sec_grouped (section_step expected st node)) group d.
Proof.
  intros H. unfold section_step. destruct node as [text|table].
  - by destruct (_extract_group_heading _).
  - destruct (accepted_group expected (sec_current st) table) as [g|]; [|exact H].
    destruct (table_parsed_rows table) as [|row rows]; [exact H|].
    cbn [sec_grouped]. by apply append_rows_mono.
Qed.

Lemma section_steps_mono expected nodes : ∀ st group d e,
  e ∈ day_entries (sec_grouped st) group d →
  e ∈ day_entries (sec_grouped (fold_left (section_step expected) nodes st)) group d.
Proof.
  induction nodes as [|node nodes IH]; intros st group d e H; [exact H|].
  cbn [fold_left]. by apply IH, section_step_mono.
Qed.

Lemma grouped_to_days_fold_mem grouped_entries target_groups group :
  ∀ acc : gmap Z (list DaySchedule),
    group ∈ target_groups →
    fold_left (λ by_group g, <[g := group_days grouped_entries g]> by_group)
              target_groups acc !! group
    = Some (group_days grouped_entries group).
Proof.
  induction target_groups as [|g gs IH]; intros acc Hin.
  - by apply elem_of_nil in Hin.
  - cbn [fold_left]. destruct (decide (group ∈ gs)) as [Hgs|Hgs]; [by apply IH|].
    apply elem_of_cons in Hin as [->|Hin]; [|contradiction].
    destruct (fold_left _ gs (<[g:=group_days grouped_entries g]> acc) !! g)
      as [days|] eqn:Hl.
    + apply grouped_to_days_fold_lookup in Hl as [Hl| ->]; [|reflexivity].
      rewrite lookup_insert_eq in Hl. by rewrite Hl.
    + exfalso.
      assert (Hdom : g ∈ dom (fold_left (λ by_group g0,
                                 <[g0 := group_days grouped_entries g0]> by_group)
                              gs (<[g:=group_days grouped_entries g]> acc))).
      { rewrite grouped_to_days_fold_dom, dom_insert_L.
        apply elem_of_union. right. apply elem_of_union. left.
        by apply elem_of_singleton. }
      apply elem_of_dom in Hdom as [x Hx]. rewrite Hl in Hx. discriminate Hx.
Qed.

Lemma walk_sections_app expected before after :
  walk_sections expected (before ++ after)
  = fold_left (section_step expected) after (walk_sections expected before).
Proof. unfold walk_sections. by rewrite fold_left_app. Qed.

(** X7.  The sectioned layout files every row it parses: when a table of the
    page is accepted under a group and explicit-header parsing yields a row
    for some day, the returned timetable lists that day for that group with
    that entry among its entries. *)
Theorem section_rows_kept soup expected_groups r before table after group d e :
  _parse_group_section_layout soup expected_groups = Some r →
  soup = before ++ TableNode table :: after →
  accepted_group (set_of expected_groups)
    (sec_current (walk_sections (set_of expected_groups) before)) table = Some group →
  (d, e) ∈ table_parsed_rows table →
  ∃ days ds, by_group r !! group = Some days
             ∧ ds ∈ days ∧ day ds = d ∧ e ∈ entries ds.
Proof.
  intros Hr -> Hacc Hrow.
  pose proof (section_layout_detected _ _ _ Hr) as [_ Hby].
  set (expected := set_of expected_groups) in *.
  set (st := walk_sections expected (before ++ TableNode table :: after)) in *.
  assert (Hin : e ∈ day_entries (sec_grouped st) group d).
  { unfold st. rewrite walk_sections_app. cbn [fold_left].
    apply section_steps_mono. unfold section_step. rewrite Hacc.
    destruct (table_parsed_rows table) as [|row rows] eqn:Hrows;
      [by apply elem_of_nil in Hrow|].
    cbn [sec_grouped]. by apply append_rows_includes. }
  assert (Hdet : group ∈ sec_detected st).
  { apply walk_sections_detected. exists before, table, after.
    split; [reflexivity|]. split; [exact Hacc|].
    intros Hnil. rewrite Hnil in Hrow. by apply elem_of_nil in Hrow. }
  assert (Htarget : group ∈ sorted_set (or_set expected (sec_detected st))).
  { apply elem_of_sorted_set. unfold or_set.
    destruct (nonempty_set expected) eqn:Hne; [|exact Hdet].
    by apply (accepted_group_expected _ _ _ _ Hne Hacc). }
  exists (group_days (sec_grouped st) group),
         (mkDay d (day_entries (sec_grouped st) group d)).
  split; [|split; [|split]].
  - rewrite Hby. unfold _grouped_to_days. by apply grouped_to_days_fold_mem.
  - unfold group_days. apply list_elem_of_omap. exists d. split.
    + pose proof (table_parsed_rows_wellformed table) as Hwf.
      rewrite Forall_forall in Hwf. by apply (Hwf (d, e)).
    + destruct (day_entries (sec_grouped st) group d) as [|x xs];
        [by apply elem_of_nil in Hin|reflexivity].
  - reflexivity.
  - exact Hin.
Qed.

Lemma section_rows_kept_witness :
  ∃ (days : list DaySchedule) ds,
    ds ∈ days ∧ day ds = "monday"
    ∧ mkEntry "8–10" "weekly" "Algebra" "lecture" "Algebra" "" ∈ entries ds.
Proof.
  destruct (section_rows_kept section_page []
              (match _parse_group_section_layout section_page [] with
               | Some r => r | None => mkParsed ∅ [] end)
              [TextNode "Grupa 211"]
              (table_of [ tr_of [td "Ziua"; td "Orele"; td "Disciplina"];
                          tr_of [td "Luni"; td "8-10"; td "Algebra"] ])
              [] 211%Z "monday"
              (mkEntry "8–10" "weekly" "Algebra" "lecture" "Algebra" ""))
    as (days & ds & _ & Hds & Hday & He).
  - vm_compute. reflexivity.
  - reflexivity.
  - vm_compute. reflexivity.
  - vm_compute. apply list_elem_of_here.
  - exists days, ds. split; [exact Hds|]. split; [exact Hday|exact He].
Defined.

(** ** The columns of the groups *)

Lemma omap_fst_sublist {A B C} (f : A * B → option (A * C)) (l : list (A * B)) :
  (∀ x y, f x = Some y → fst y = fst x) →
  sublist (map fst (omap f l)) (map fst l).
Proof.
  intros Hf. induction l as [|x l IH]; [constructor|].
  change (omap f (x :: l))
    with (match f x with Some y => y :: omap f l | None => omap f l end).
  destruct (f x) as [y|] eqn:Hx; cbn [map].
  - rewrite (Hf x y Hx). by apply sublist_skip.
  - by apply sublist_cons.
Qed.

Lemma fst_imap_pair {A} (row : list A) : ∀ k,
  map fst (imap (λ i x, (k + i, x)) row) = seq k (length row).
Proof.
  induction row as [|x row IH]; intros k; [reflexivity|].
  rewrite imap_cons. cbn [map fst length seq]. f_equal; [lia|].
  rewrite <- (IH (S k)). f_equal. apply imap_ext. intros i y _. cbn. f_equal. lia.
Qed.

Lemma seq_ascending n : ∀ k, StronglySorted lt (seq k n).
Proof.
  induction n as [|n IH]; intros k; [constructor|].
  cbn [seq]. constructor; [apply IH|].
  apply Forall_forall. intros i Hi. apply elem_of_seq in Hi. lia.
Qed.

Lemma sublist_ascending {A} (R : A → A → Prop) (k l : list A) :
  sublist k l → StronglySorted R l → StronglySorted R k.
Proof.
  induction 1 as [|x k l Hsub IH|x k l Hsub IH]; intros Hl; [constructor| |].
  - apply StronglySorted_cons in Hl as [Hall Hl].
    apply StronglySorted_cons. split; [|by apply IH].
    rewrite Forall_forall in *. intros y Hy. apply Hall.
    by eapply elem_of_sublist.
  - apply StronglySorted_cons in Hl as [_ Hl]. by apply IH.
Qed.

Lemma filter_sublist {A} (f : A → bool) (l : list A) : sublist (List.filter f l) l.
Proof.
  induction l as [|x l IH]; [constructor|]. cbn [List.filter].
  destruct (f x); [by apply sublist_skip|by apply sublist_cons].
Qed.

Lemma zip_fst_sublist {A B} (l : list A) : ∀ k : list B,
  sublist (map fst (zip l k)) l.
Proof.
  induction l as [|x l IH]; intros k; [constructor|].
  destruct k as [|y k]; cbn [zip zip_with map fst].
  - apply sublist_nil_l.
  - apply sublist_skip, IH.
Qed.

Lemma sublist_map {A B} (f : A → B) (k l : list A) :
  sublist k l → sublist (map f k) (map f l).
Proof.
  induction 1; cbn [map]; [constructor|by apply sublist_skip|by apply sublist_cons].
Qed.

Lemma row_mapping_columns row expected :
  sublist (map fst (row_mapping row expected)) (seq 0 (length row)).
Proof.
  unfold row_mapping. rewrite <- (fst_imap_pair row 0).
  apply omap_fst_sublist. intros [i cell] y. cbn [fst snd].
  destruct (_extract_group_from_header cell expected); [|discriminate].
  cbn. by intros [= <-].
Qed.

(** The result of the detector is the mapping of one of the rows scanned,
    thinned out, or the fallback over the first row. *)
Lemma detect_group_columns_columns grid expected_groups :
  ∃ row, (row ∈ grid ∨ (row = [] ∧ grid = []))
         ∧ sublist (map fst (_detect_group_columns grid expected_groups))
                   (seq 0 (length row)).
Proof.
  unfold _detect_group_columns. cbv zeta.
  set (expected := set_of expected_groups).
  set (best := best_row_mapping (take 12 grid) expected).
  assert (Hbest : best = [] ∨ ∃ row, row ∈ grid
                    ∧ sublist (map fst best) (seq 0 (length row))).
  { unfold best, best_row_mapping.
    destruct (best_row_mapping_fold (take 12 grid) expected []) as [_ [H|(row & Hin & H)]];
      cbv zeta in H; rewrite H.
    - by left.
    - right. exists row. split; [|apply row_mapping_columns].
      eapply elem_of_sublist; [exact Hin|apply sublist_take]. }
  set (kept := if nonempty_set expected
               then List.filter (λ item, bool_decide (snd item ∈ expected)) best
               else best).
  assert (Hkept : sublist (map fst kept) (map fst best)).
  { unfold kept. destruct (nonempty_set expected); [|reflexivity].
    apply sublist_map, filter_sublist. }
  destruct kept as [|item items] eqn:Hk.
  - destruct grid as [|first_row rest].
    + exists []. split; [by right|]. constructor.
    + exists first_row. split; [left; apply list_elem_of_here|].
      destruct (nonempty_set expected); [|apply sublist_nil_l].
      etransitivity; [apply zip_fst_sublist|].
      set (n := length first_row). set (low := n - size expected).
      replace (seq 0 n) with (seq 0 low ++ seq low (n - low)).
      * apply sublist_inserts_l. reflexivity.
      * rewrite <- seq_app. f_equal. unfold low. lia.
  - destruct Hbest as [Hnil|(row & Hin & Hsub)].
    + rewrite Hnil in Hkept. apply sublist_nil_r in Hkept. discriminate Hkept.
    + exists row. split; [by left|]. by etransitivity.
Qed.

(** X8.  On the grid of a table, the group-column detector maps every column
    at most once, in ascending column order, and every mapped column lies
    inside every row of the grid: the bounds test of the row walk never
    skips a mapped column. *)
Theorem group_columns_in_grid (t : Table) (expected_groups : list Z) :
  StronglySorted lt
    (map fst (_detect_group_columns (_expand_table t) expected_groups))
  ∧ ∀ column group row,
      (column, group) ∈ _detect_group_columns (_expand_table t) expected_groups →
      row ∈ _expand_table t →
      column < length row.
Proof.
  destruct (detect_group_columns_columns (_expand_table t) expected_groups)
    as (row0 & Hrow0 & Hsub).
  split.
  - apply (sublist_ascending _ _ _ Hsub), seq_ascending.
  - intros column group row Hin Hrow.
    assert (Hcol : column ∈ seq 0 (length row0)).
    { eapply elem_of_sublist; [|exact Hsub]. apply list_elem_of_fmap.
      exists (column, group). split; [reflexivity|exact Hin]. }
    apply elem_of_seq in Hcol.
    destruct Hrow0 as [Hrow0|[_ Hnil]];
      [|rewrite Hnil in Hrow; by apply elem_of_nil in Hrow].
    destruct (expand_table_rectangular t) as [_ Hrect].
    apply list_elem_of_lookup in Hrow as [i Hi].
    apply list_elem_of_lookup in Hrow0 as [i0 Hi0].
    destruct (Hrect i row Hi) as [-> _]. destruct (Hrect i0 row0 Hi0) as [Hlen _].
    lia.
Qed.

Lemma group_columns_in_grid_witness :
  Forall (λ row, 2 < length row) (_expand_table day_span_table).
Proof.
  apply Forall_forall. intros row Hrow.
  destruct (group_columns_in_grid day_span_table [511%Z]) as [_ Hin].
  apply (Hin 2 511%Z row); [|exact Hrow].
  vm_compute. apply list_elem_of_here.
Defined.

(** ** The table chosen for the columnar layout *)

Lemma max_by_score_first first others :
  ∃ before after,
    first :: others = before ++ max_by_score first others :: after
    ∧ Forall (λ t, _main_table_score t < _main_table_score (max_by_score first others))
             before
    ∧ Forall (λ t, _main_table_score t ≤ _main_table_score (max_by_score first others))
             after.
Proof.
  unfold max_by_score.
  induction others as [|x others IH] using rev_ind.
  - exists [], []. cbn [fold_left]. split; [reflexivity|]. split; constructor.
  - rewrite fold_left_app. cbn [fold_left].
    destruct IH as (before & after & Heq & Hb & Ha).
    set (best := fold_left _ others first) in *.
    destruct (Nat.ltb_spec (_main_table_score best) (_main_table_score x)) as [Hlt|Hge].
    + exists (before ++ best :: after), [].
      split; [by rewrite app_comm_cons, Heq|]. split; [|constructor].
      apply Forall_app. split.
      * eapply Forall_impl; [exact Hb|]. intros t Ht. cbv beta in Ht |- *. lia.
      * constructor; [exact Hlt|].
        eapply Forall_impl; [exact Ha|]. intros t Ht. cbv beta in Ht |- *. lia.
    + exists before, (after ++ [x]).
      split; [by rewrite app_comm_cons, Heq, <- app_assoc|]. split; [exact Hb|].
      apply Forall_app. split; [exact Ha|]. constructor; [exact Hge|constructor].
Qed.

(** X9.  [_select_main_table] raises only when the page has no table;
    otherwise it returns a table of the page whose score no other table
    exceeds, and the first such table in document order. *)
Theorem select_main_table_best (soup : Soup) :
  match _select_main_table soup with
  | Raise e =>
      find_all_tables soup = []
      ∧ e = RuntimeError "No table was found on the source page."
  | Return table =>
      ∃ before after,
        find_all_tables soup = before ++ table :: after
        ∧ Forall (λ t, _main_table_score t < _main_table_score table) before
        ∧ Forall (λ t, _main_table_score t ≤ _main_table_score table) after
  end.
Proof.
  unfold _select_main_table.
  destruct (find_all_tables soup) as [|first others]; [by split|].
  apply max_by_score_first.
Qed.

(** ** The room legend *)

Lemma lookup_add_lookup lookup item key :
  lookup_add lookup item !! key
  = match lookup !! key with
    | Some address => Some address
    | None =>
        if negb (Py.is_empty key)
           && String.eqb (_normalized_room_key (fst item)) key
        then Some (snd item) else None
    end.
Proof.
  unfold lookup_add. cbv zeta.
  set (k := _normalized_room_key (fst item)).
  destruct (String.eqb_spec k key) as [<-|Hne].
  - destruct (Py.is_empty k); cbn [negb andb].
    + by destruct (lookup !! k).
    + destruct (lookup !! k) as [a|] eqn:Hk.
      * rewrite bool_decide_eq_true_2 by eauto. cbn [negb]. by rewrite Hk.
      * rewrite bool_decide_eq_false_2 by (intros [? ?]; done). cbn [negb].
        by rewrite lookup_insert_eq.
  - rewrite andb_false_r.
    destruct (negb (Py.is_empty k) && negb (bool_decide (is_Some (lookup !! k)))).
    + rewrite lookup_insert_ne by done. by destruct (lookup !! key).
    + by destruct (lookup !! key).
Qed.

Lemma build_room_lookup_fold legend : ∀ (lookup : gmap string string) key,
  fold_left lookup_add legend lookup !! key
  = match lookup !! key with
    | Some address => Some address
    | None =>
        if Py.is_empty key then None
        else snd <$> List.find (λ item, String.eqb (_normalized_room_key (fst item)) key)
                               legend
    end.
Proof.
  induction legend as [|item legend IH]; intros lookup key.
  - cbn [fold_left List.find]. destruct (lookup !! key); [reflexivity|].
    by destruct (Py.is_empty key).
  - cbn [fold_left List.find]. rewrite IH, lookup_add_lookup.
    destruct (lookup !! key); [reflexivity|].
    destruct (Py.is_empty key); cbn [negb andb]; [reflexivity|].
    by destruct (String.eqb (_normalized_room_key (fst item)) key).
Qed.

(** X10.  The lookup built from a legend answers a key with the address of
    the first legend entry, in the order of the legend, whose normalised
    room code is that key; it has no entry for the empty key. *)
Theorem build_room_lookup_first (legend : Legend) (key : string) :
  build_room_lookup legend !! key
  = if Py.is_empty key then None
    else snd <$> List.find (λ item, String.eqb (_normalized_room_key (fst item)) key)
                           legend.
Proof.
  unfold build_room_lookup. rewrite build_room_lookup_fold. by rewrite lookup_empty.
Qed.

Lemma build_room_lookup_address legend key address :
  build_room_lookup legend !! key = Some address →
  ∃ code, (code, address) ∈ legend ∧ _normalized_room_key code = key.
Proof.
  unfold build_room_lookup. rewrite build_room_lookup_fold, lookup_empty.
  destruct (Py.is_empty key); [discriminate|].
  destruct (List.find _ legend) as [[code a]|] eqn:Hfind; [|discriminate].
  cbn. intros [= <-]. apply find_some in Hfind as [Hin Heq].
  exists code. split; [by apply list_elem_of_In|]. by apply String.eqb_eq in Heq.
Qed.

Lemma resolve_room_address_lookup room_value room_lookup address :
  resolve_room_address room_value room_lookup = Some address →
  ∃ key, room_lookup !! key = Some address.
Proof.
  unfold resolve_room_address. cbv zeta.
  destruct (Py.is_empty (normalize_space room_value false)); [discriminate|].
  destruct (room_lookup !! _normalized_room_key (normalize_space room_value false))
    as [a|] eqn:Hdirect.
  - intros [= <-]. eauto.
  - intros H. apply head_Some_elem_of, list_elem_of_omap in H as (token & _ & H).
    eauto.
Qed.

(** X11.  [resolve_room_address] never invents an address: it answers
    nothing for a blank room, and any address it gives for a lookup built
    from a legend is the address of an entry of that legend. *)
Theorem resolve_room_address_from_legend (room_value : string) (legend : Legend) :
  (Py.is_empty (normalize_space room_value false) = true →
   resolve_room_address room_value (build_room_lookup legend) = None)
  ∧ ∀ address,
      resolve_room_address room_value (build_room_lookup legend) = Some address →
      ∃ code, (code, address) ∈ legend.
Proof.
  split.
  - intros H. unfold resolve_room_address. cbv zeta. by rewrite H.
  - intros address H.
    apply resolve_room_address_lookup in H as [key Hkey].
    apply build_room_lookup_address in Hkey as (code & Hin & _). eauto.
Qed.

Lemma resolve_room_address_from_legend_witness :
  ∃ code, (code, "Str. Universitatii nr. 9") ∈ [("9/I", "Str. Universitatii nr. 9")].
Proof.
  destruct (resolve_room_address_from_legend
              "Sala 9/I" [("9/I", "Str. Universitatii nr. 9")]) as [_ H].
  apply H. vm_compute. reflexivity.
Defined.

(** ** Enrichment with room addresses *)

Lemma enrich_entry_keeps room_lookup entry :
  w_entry (enrich_entry room_lookup entry) = entry.
Proof.
  unfold enrich_entry. cbv zeta.
  destruct (Py.is_empty (Py.strip (e_room entry))); [reflexivity|].
  destruct (resolve_room_address _ room_lookup) as [a|]; [|reflexivity].
  by destruct (Py.is_empty a).
Qed.

Lemma enrich_entry_address room_lookup entry address :
  w_roomAddress (enrich_entry room_lookup entry) = Some address →
  address ≠ "" ∧ ∃ key, room_lookup !! key = Some address.
Proof.
  unfold enrich_entry. cbv zeta.
  destruct (Py.is_empty (Py.strip (e_room entry))); [discriminate|].
  destruct (resolve_room_address _ room_lookup) as [a|] eqn:Hres; [|discriminate].
  destruct (Py.is_empty a) eqn:Ha; [discriminate|].
  cbn [w_roomAddress]. intros [= <-]. split.
  - by apply is_empty_false.
  - by apply resolve_room_address_lookup in Hres.
Qed.

(** X12.  Enrichment does not alter the schedule: the days come out in the
    same order with the same names, every entry keeps its six fields and its
    place, and a [roomAddress] that is added is a non-empty address held by
    the room lookup. *)
Theorem enrich_days_keeps_schedule (days : list DaySchedule)
  (room_lookup : gmap string string) :
  let written := _enrich_days_with_room_address days room_lookup in
  map (λ wd, mkDay (w_day wd) (map w_entry (w_entries wd))) written = days
  ∧ ∀ wd we address,
      wd ∈ written → we ∈ w_entries wd → w_roomAddress we = Some address →
      address ≠ "" ∧ ∃ key, room_lookup !! key = Some address.
Proof.
  cbv zeta. unfold _enrich_days_with_room_address.
  destruct (lookup_is_empty room_lookup); split.
  - rewrite map_map. rewrite <- (map_id days) at 2. apply map_ext.
    intros [d es]. cbn [w_day w_entries day entries]. f_equal.
    rewrite map_map. cbn [w_entry]. apply map_id.
  - intros wd we address Hwd Hwe.
    apply list_elem_of_fmap in Hwd as (d & -> & _). cbn [w_entries] in Hwe.
    apply list_elem_of_fmap in Hwe as (e & -> & _). discriminate.
  - rewrite map_map. rewrite <- (map_id days) at 2. apply map_ext.
    intros [d es]. cbn [w_day w_entries day entries]. f_equal.
    rewrite map_map. rewrite <- (map_id es) at 2. apply map_ext.
    intros e. apply enrich_entry_keeps.
  - intros wd we address Hwd Hwe.
    apply list_elem_of_fmap in Hwd as (d & -> & _). cbn [w_entries] in Hwe.
    apply list_elem_of_fmap in Hwe as (e & -> & _). apply enrich_entry_address.
Qed.

Lemma enrich_days_keeps_schedule_witness :
  ∃ address, address ≠ "" ∧ address = "Str. Universitatii nr. 9".
Proof.
  destruct (enrich_days_keeps_schedule
              [mkDay "monday" [mkEntry "8–10" "weekly" "Algebra" "lecture" "9/I" ""]]
              (build_room_lookup [("9/I", "Str. Universitatii nr. 9")]))
    as [_ H].
  destruct (H (mkWrittenDay "monday"
                 [mkWritten (mkEntry "8–10" "weekly" "Algebra" "lecture" "9/I" "")
                            (Some "Str. Universitatii nr. 9")])
              (mkWritten (mkEntry "8–10" "weekly" "Algebra" "lecture" "9/I" "")
                         (Some "Str. Universitatii nr. 9"))
              "Str. Universitatii nr. 9") as [Hne _].
  - vm_compute. apply list_elem_of_here.
  - apply list_elem_of_here.
  - reflexivity.
  - exists "Str. Universitatii nr. 9". split; [exact Hne|reflexivity].
Defined.

(** ** The files written for a source *)

Lemma chars_app s t : Py.chars (s +:+ t) = Py.chars s ++ Py.chars t.
Proof.
  unfold Py.chars. induction s as [|a s IH]; [reflexivity|].
  change (a :: list_ascii_of_string (s +:+ t)
          = a :: (list_ascii_of_string s ++ list_ascii_of_string t)).
  by rewrite IH.
Qed.

Lemma string_app_inv_tail s1 s2 t : s1 +:+ t = s2 +:+ t → s1 = s2.
Proof.
  intros H. apply (f_equal Py.chars) in H. rewrite !chars_app in H.
  apply app_inv_tail in H. unfold Py.chars in H.
  rewrite <- (string_of_list_ascii_of_string s1),
          <- (string_of_list_ascii_of_string s2).
  by rewrite H.
Qed.

Lemma timetable_path_inj out_dir entry g1 g2 :
  _timetable_path out_dir entry g1 = _timetable_path out_dir entry g2 → g1 = g2.
Proof.
  unfold _timetable_path. intros [= H].
  change (pretty g1 +:+ ".json" = pretty g2 +:+ ".json") in H.
  apply string_app_inv_tail in H. by apply (inj pretty) in H.
Qed.

(** The fold of [write_group] over the groups still to write. *)
Lemma write_groups_fold out_dir entry parsed generated_at last_updated room_lookup
  (todo : list Z) : ∀ acc,
  let r := fold_left (write_group out_dir entry parsed generated_at last_updated
                                  room_lookup) todo acc in
  gf_groupsWritten r = gf_groupsWritten acc
  ∧ gf_written r = gf_written acc + length todo
  ∧ gf_files r
    = gf_files acc
      ++ map (λ group,
                (_timetable_path out_dir entry group,
                 _make_timetable_payload generated_at entry group
                   (_enrich_days_with_room_address
                      (default [] (by_group parsed !! group)) room_lookup)
                   last_updated)) todo
  ∧ gf_empty r
    = gf_empty acc
      + length (List.filter
                  (λ group, bool_decide (default [] (by_group parsed !! group) = []))
                  todo).
Proof.
  induction todo as [|group todo IH]; intros acc; cbv zeta.
  - cbn [fold_left length map List.filter]. rewrite app_nil_r.
    repeat split; lia.
  - cbn [fold_left]. destruct (IH (write_group out_dir entry parsed generated_at
                                     last_updated room_lookup acc group))
      as (H1 & H2 & H3 & H4).
    rewrite H1, H2, H3, H4. unfold write_group. cbv zeta.
    cbn [gf_groupsWritten gf_written gf_files gf_empty length map List.filter].
    split; [reflexivity|]. split; [lia|]. split; [by rewrite <- app_assoc|].
    unfold _enrich_days_with_room_address.
    destruct (default [] (by_group parsed !! group)) as [|d ds];
      destruct (lookup_is_empty room_lookup); cbn [map length];
      rewrite ?bool_decide_eq_true_2 by reflexivity;
      rewrite ?bool_decide_eq_false_2 by discriminate; cbn [length]; lia.
Qed.

(** X13.  [_write_group_files] writes one file per group, for the expected
    groups of the source or, when it has none, the detected groups, in
    ascending order: the count written is the number of those groups, no
    path is written twice, each payload carries its group, and the count
    of empty files is the number of those groups without any day in the
    parsed timetable. *)
Theorem write_group_files_one_per_group out_dir entry parsed generated_at
  last_updated room_lookup :
  let r := _write_group_files out_dir entry parsed generated_at last_updated
                              room_lookup in
  gf_groupsWritten r
  = sorted_set (or_set (set_of (groups entry)) (set_of (detected_groups parsed)))
  ∧ StronglySorted Z.lt (gf_groupsWritten r)
  ∧ map (λ file, p_group (snd file)) (gf_files r) = gf_groupsWritten r
  ∧ map fst (gf_files r)
    = map (_timetable_path out_dir entry) (gf_groupsWritten r)
  ∧ NoDup (map fst (gf_files r))
  ∧ gf_written r = length (gf_groupsWritten r)
  ∧ gf_empty r
    = length (List.filter
                (λ group, bool_decide (default [] (by_group parsed !! group) = []))
                (gf_groupsWritten r)).
Proof.
  cbv zeta. unfold _write_group_files. cbv zeta.
  set (todo := sorted_set _).
  destruct (write_groups_fold out_dir entry parsed generated_at last_updated
              room_lookup todo (mkGroupFiles [] 0 0 todo)) as (H1 & H2 & H3 & H4).
  cbv zeta in H1, H2, H3, H4. rewrite H1, H2, H3, H4.
  cbn [gf_groupsWritten gf_written gf_files gf_empty app].
  assert (Hpaths : map fst (map (λ group,
                     (_timetable_path out_dir entry group,
                      _make_timetable_payload generated_at entry group
                        (_enrich_days_with_room_address
                           (default [] (by_group parsed !! group)) room_lookup)
                        last_updated)) todo)
                   = map (_timetable_path out_dir entry) todo).
  { rewrite map_map. reflexivity. }
  split; [reflexivity|]. split; [apply sorted_set_ascending|].
  split; [rewrite map_map; apply map_id|].
  split; [exact Hpaths|]. split; [|split; [reflexivity|lia]].
  rewrite Hpaths. apply NoDup_fmap_2.
  - intros g1 g2. apply timetable_path_inj.
  - apply sorted_set_NoDup.
Qed.

Lemma parse_by_group_dom soup expected_groups r :
  parse_timetable_html soup expected_groups = Return r →
  dom (by_group r) = or_set (set_of expected_groups) (set_of (detected_groups r)).
Proof.
  intros H. destruct (parse_cases _ _ _ H) as [Hs|[_ Hc]].
  - apply section_layout_detected in Hs as [-> ->].
    by rewrite grouped_to_days_dom, !set_of_sorted_set.
  - apply columnar_layout_returns in Hc as (table & ge & _ & _ & _ & _ & ->).
    by rewrite grouped_to_days_dom, set_of_sorted_set.
Qed.

(** X14.  When a page is parsed with the groups of its source, as
    [_run_scrape] does, the groups written are exactly the keys of
    [by_group]: every file is written from a day list the parser made (the
    default of [by_group.get] is never used), and what is written for a
    group is, entry for entry, what was parsed for it. *)
Theorem written_groups_are_parsed soup out_dir entry parsed generated_at
  last_updated room_lookup :
  parse_timetable_html soup (groups entry) = Return parsed →
  let r := _write_group_files out_dir entry parsed generated_at last_updated
                              room_lookup in
  set_of (gf_groupsWritten r) = dom (by_group parsed)
  ∧ ∀ file, file ∈ gf_files r →
      ∃ days, by_group parsed !! p_group (snd file) = Some days
              ∧ map (λ wd, mkDay (w_day wd) (map w_entry (w_entries wd)))
                    (p_days (snd file)) = days.
Proof.
  intros Hparse. cbv zeta.
  pose proof (parse_by_group_dom _ _ _ Hparse) as Hdom.
  unfold _write_group_files. cbv zeta. set (todo := sorted_set _).
  destruct (write_groups_fold out_dir entry parsed generated_at last_updated
              room_lookup todo (mkGroupFiles [] 0 0 todo)) as (H1 & _ & H3 & _).
  cbv zeta in H1, H3. rewrite H1, H3. cbn [gf_groupsWritten gf_files app].
  assert (Htodo : set_of todo = dom (by_group parsed)).
  { unfold todo. by rewrite set_of_sorted_set, Hdom. }
  split; [exact Htodo|].
  intros file Hfile. apply list_elem_of_fmap in Hfile as (group & -> & Hgroup).
  cbn [snd]. unfold _make_timetable_payload. cbn [p_group p_days].
  assert (Hkey : group ∈ dom (by_group parsed)).
  { rewrite <- Htodo. unfold set_of. by apply elem_of_list_to_set. }
  apply elem_of_dom in Hkey as [days Hdays]. exists days. split; [exact Hdays|].
  rewrite Hdays. cbn [from_option id].
  unfold _enrich_days_with_room_address.
  destruct (lookup_is_empty room_lookup).
  - rewrite map_map. rewrite <- (map_id days) at 2. apply map_ext.
    intros [d es]. cbn [w_day w_entries day entries]. f_equal.
    rewrite map_map. cbn [w_entry]. apply map_id.
  - rewrite map_map. rewrite <- (map_id days) at 2. apply map_ext.
    intros [d es]. cbn [w_day w_entries day entries]. f_equal.
    rewrite map_map. rewrite <- (map_id es) at 2. apply map_ext.
    intros e. apply enrich_entry_keeps.
Qed.

Lemma written_groups_are_parsed_witness :
  ∃ parsed,
    parse_timetable_html section_page [211; 999]%Z = Return parsed
    ∧ set_of (gf_groupsWritten
                (_write_group_files "dist"
                   (mkSource "2025" "info" "Informatica" 2 "u" [211; 999]%Z)
                   parsed "now" None ∅))
      = dom (by_group parsed).
Proof.
  eexists. split; [vm_compute; reflexivity|].
  apply (written_groups_are_parsed section_page "dist"
           (mkSource "2025" "info" "Informatica" 2 "u" [211; 999]%Z)).
  vm_compute. reflexivity.
Defined.

(** ** White space: [normalize_space] and the room keys *)

Lemma run_chr_nil f k b c : Re.run (Re.Chr f) k (Re.Pos b []) c = None.
Proof. reflexivity. Qed.

Lemma run_chr_cons f k b x xs c :
  Re.run (Re.Chr f) k (Re.Pos b (x :: xs)) c
  = if f x then k (Re.Pos (Some x) xs) c else None.
Proof. reflexivity. Qed.

(** A greedy [[f]*] takes the whole run of [f] characters. *)
Lemma run_star_chr f c : ∀ s b,
  ∃ b', Re.run (Re.Star true (Re.Chr f)) Re.accept (Re.Pos b s) c
        = Some (Re.Pos b' (Py.lstrip f s), c).
Proof.
  induction s as [|x xs IH]; intros b; rewrite run_star_unfold; unfold Re.star_turn.
  - rewrite run_chr_nil. by exists b.
  - rewrite run_chr_cons. cbv beta. cbn [Re.rest length Py.lstrip].
    destruct (f x).
    + rewrite (proj2 (Nat.ltb_lt _ _)) by lia.
      destruct (IH (Some x)) as [b' ->]. by exists b'.
    + by exists b.
Qed.

Lemma run_plus_chr_nil f b c :
  Re.run (Re.plus (Re.Chr f)) Re.accept (Re.Pos b []) c = None.
Proof. reflexivity. Qed.

Lemma run_plus_chr_cons f b x xs c :
  Re.run (Re.plus (Re.Chr f)) Re.accept (Re.Pos b (x :: xs)) c
  = if f x
    then Re.run (Re.Star true (Re.Chr f)) Re.accept (Re.Pos (Some x) xs) c
    else None.
Proof.
  change (Re.run (Re.plus (Re.Chr f)) Re.accept (Re.Pos b (x :: xs)) c)
    with (Re.run (Re.Chr f) (Re.run (Re.Star true (Re.Chr f)) Re.accept)
            (Re.Pos b (x :: xs)) c).
  apply run_chr_cons.
Qed.

Lemma sub_from_nil r repl b :
  Re.sub_from r repl b [] 0 None
  = match Re.run r Re.accept (Re.Pos b []) [] with
    | Some _ => repl ++ []
    | None => []
    end.
Proof. cbn [Re.sub_from]. by destruct (Re.run r _ _ _) as [[p' c']|]. Qed.

Lemma sub_from_cons r repl b x xs :
  Re.sub_from r repl b (x :: xs) 0 None
  = match Re.run r Re.accept (Re.Pos b (x :: xs)) [] with
    | Some (p', _) =>
        let n := length (x :: xs) - length (Re.rest p') in
        repl ++ (if n =? 0 then [x] else [])
             ++ Re.sub_from r repl (Some x) xs (n - 1) None
    | None => x :: Re.sub_from r repl (Some x) xs 0 None
    end.
Proof. reflexivity. Qed.

Lemma sub_from_skip r repl b x xs k limit :
  Re.sub_from r repl b (x :: xs) (S k) limit
  = Re.sub_from r repl (Some x) xs k limit.
Proof. reflexivity. Qed.

Lemma lstrip_length f l : length (Py.lstrip f l) ≤ length l.
Proof.
  induction l as [|x xs IH]; cbn [Py.lstrip length]; [lia|].
  destruct (f x); cbn [length]; lia.
Qed.

(** Substituting [repl] for [[f]+] squeezes every run of [f] characters. *)
Lemma sub_from_squeeze f repl : ∀ s b,
  Re.sub_from (Re.plus (Re.Chr f)) repl b s 0 None = squeeze f repl false s
  ∧ Re.sub_from (Re.plus (Re.Chr f)) repl b s
                (length s - length (Py.lstrip f s)) None
    = squeeze f repl true s.
Proof.
  induction s as [|x xs IH]; intros b.
  - cbn [length Py.lstrip Nat.sub]. rewrite sub_from_nil, run_plus_chr_nil.
    by split.
  - destruct (IH (Some x)) as [IH0 IH1].
    cbn [Py.lstrip squeeze]. rewrite sub_from_cons, run_plus_chr_cons.
    destruct (f x) eqn:Hx.
    + pose proof (lstrip_length f xs) as Hlen.
      destruct (run_star_chr f [] xs (Some x)) as [b' ->].
      cbv zeta. cbn [Re.rest length].
      replace (S (length xs) - length (Py.lstrip f xs))
        with (S (length xs - length (Py.lstrip f xs))) by lia.
      cbn [Nat.eqb Nat.sub app]. rewrite Nat.sub_0_r, sub_from_skip, IH1.
      by split.
    + rewrite IH0. cbn [length]. rewrite Nat.sub_diag.
      rewrite sub_from_cons, run_plus_chr_cons, Hx, IH0. by split.
Qed.

Lemma sub_plus_chr f repl value :
  Re.sub (Re.plus (Re.Chr f)) repl value
  = Py.str (squeeze f (Py.chars repl) false (Py.chars value)).
Proof.
  unfold Re.sub, Py.str, Py.chars.
  by rewrite (proj1 (sub_from_squeeze f _ _ None)).
Qed.

Lemma chars_str l : Py.chars (Py.str l) = l.
Proof. apply list_ascii_of_string_of_list_ascii. Qed.


(** *** The two halves of [strip] *)







(** *** The words of [str.split] *)










Lemma normalize_space_squeeze value :
  normalize_space value false
  = Py.str (squeeze Chars.is_space (Py.chars " ") false
              (Py.strip_chars Chars.is_space (Py.chars value))).
Proof.
  unfold normalize_space. cbv zeta.
  change (Re.plus Re.space) with (Re.plus (Re.Chr Chars.is_space)).
  rewrite sub_plus_chr. unfold Py.strip. by rewrite chars_str.
Qed.



(** *** Normalised text is a fixed point *)






(** *** Room keys *)

Lemma squeeze_nil f : ∀ s in_run,
  squeeze f [] in_run s = List.filter (λ c, negb (f c)) s.
Proof.
  induction s as [|x xs IH]; intros in_run; [reflexivity|].
  cbn [squeeze List.filter]. destruct (f x); cbn [negb].
  - destruct in_run; cbn [app]; apply IH.
  - by rewrite IH.
Qed.

Lemma filter_squeeze f repl : forallb f repl = true → ∀ s in_run,
  List.filter (λ c, negb (f c)) (squeeze f repl in_run s)
  = List.filter (λ c, negb (f c)) s.
Proof.
  intros Hrepl.
  assert (Hnone : List.filter (λ c, negb (f c)) repl = []).
  { induction repl as [|y ys IH]; [reflexivity|].
    cbn [forallb] in Hrepl. apply andb_true_iff in Hrepl as [Hy Hys].
    cbn [List.filter]. rewrite Hy. cbn [negb]. by apply IH. }
  induction s as [|x xs IH]; intros in_run; [reflexivity|].
  cbn [squeeze List.filter]. destruct (f x) eqn:Hx; cbn [negb].
  - rewrite List.filter_app, IH. destruct in_run; [reflexivity|by rewrite Hnone].
  - cbn [List.filter]. by rewrite Hx, IH.
Qed.

Lemma filter_lstrip f l :
  List.filter (λ c, negb (f c)) (Py.lstrip f l) = List.filter (λ c, negb (f c)) l.
Proof.
  induction l as [|x xs IH]; [reflexivity|].
  cbn [Py.lstrip]. destruct (f x) eqn:Hx; [|reflexivity].
  cbn [List.filter]. by rewrite Hx.
Qed.

Lemma filter_rev_eq (g : ascii → bool) l :
  List.filter g (rev l) = rev (List.filter g l).
Proof.
  induction l as [|x xs IH]; [reflexivity|].
  cbn [rev List.filter]. rewrite List.filter_app, IH. cbn [List.filter].
  destruct (g x); [reflexivity|by rewrite app_nil_r].
Qed.

Lemma filter_strip_chars f l :
  List.filter (λ c, negb (f c)) (Py.strip_chars f l)
  = List.filter (λ c, negb (f c)) l.
Proof.
  unfold Py.strip_chars.
  by rewrite filter_rev_eq, filter_lstrip, filter_rev_eq, rev_involutive,
             filter_lstrip.
Qed.

Lemma normalized_room_key_filter value :
  _normalized_room_key value
  = Py.upper (Py.str (List.filter (λ c, negb (Chars.is_space c)) (Py.chars value))).
Proof.
  unfold _normalized_room_key. cbv zeta.
  change (Re.plus Re.space) with (Re.plus (Re.Chr Chars.is_space)).
  rewrite sub_plus_chr. change (Py.chars "") with (@nil ascii).
  rewrite squeeze_nil. unfold Py.strip. rewrite chars_str, filter_strip_chars.
  rewrite normalize_space_squeeze, chars_str.
  rewrite filter_squeeze by reflexivity. by rewrite filter_strip_chars.
Qed.





Lemma normalized_room_key_normalize_space value :
  _normalized_room_key (normalize_space value false) = _normalized_room_key value.
Proof.
  rewrite !normalized_room_key_filter, normalize_space_squeeze, chars_str.
  rewrite filter_squeeze by reflexivity. by rewrite filter_strip_chars.
Qed.


(** ** The room legend *)

Lemma legend_has_false legend candidate :
  legend_has legend candidate = false → candidate ∉ map fst legend.
Proof.
  unfold legend_has. intros Hhas Hin.
  assert (Hex : existsb (String.eqb candidate) (map fst legend) = true).
  { apply existsb_exists. exists candidate. split.
    - by apply list_elem_of_In.
    - apply String.eqb_refl. }
  congruence.
Qed.

Lemma legend_add_NoDup address_raw legend candidate :
  NoDup (map fst legend) → NoDup (map fst (legend_add address_raw legend candidate)).
Proof.
  intros Hnd. unfold legend_add.
  destruct (legend_has legend candidate) eqn:Hhas; [exact Hnd|].
  rewrite map_app. cbn [map fst]. apply NoDup_app. split; [exact Hnd|]. split.
  - intros x Hx Hx'. apply list_elem_of_singleton in Hx'. subst x.
    by apply legend_has_false in Hhas.
  - apply NoDup_singleton.
Qed.

Lemma legend_add_elem address_raw legend candidate item :
  item ∈ legend_add address_raw legend candidate →
  item ∈ legend ∨ item = (candidate, address_raw).
Proof.
  unfold legend_add. destruct (legend_has legend candidate); [by left|].
  intros [H|H]%elem_of_app; [by left|right].
  by apply list_elem_of_singleton in H.
Qed.

Lemma legend_adds address_raw candidates : ∀ legend,
  NoDup (map fst legend) →
  NoDup (map fst (fold_left (legend_add address_raw) candidates legend))
  ∧ ∀ item, item ∈ fold_left (legend_add address_raw) candidates legend →
      item ∈ legend ∨ (fst item ∈ candidates ∧ snd item = address_raw).
Proof.
  induction candidates as [|candidate candidates IH]; intros legend Hnd.
  - split; [exact Hnd|]. intros item H. by left.
  - cbn [fold_left].
    destruct (IH (legend_add address_raw legend candidate)
                 (legend_add_NoDup _ _ _ Hnd)) as [Hnd' Hsrc].
    split; [exact Hnd'|]. intros item H.
    destruct (Hsrc item H) as [Hin|[Hc Ha]].
    + apply legend_add_elem in Hin as [Hin| ->]; [by left|right].
      split; [apply list_elem_of_here|reflexivity].
    + right. split; [by apply list_elem_of_further|exact Ha].
Qed.

Lemma legend_row_source legend cells :
  NoDup (map fst legend) →
  NoDup (map fst (legend_row legend cells))
  ∧ ∀ item, item ∈ legend_row legend cells → item ∈ legend ∨ row_source cells item.
Proof.
  intros Hnd. unfold legend_row, row_source.
  destruct cells as [|first [|second rest]]; [by split; [|left]..|].
  cbv zeta. set (room_raw := normalize_space first false).
  set (address_raw := normalize_space second false).
  destruct (Py.is_empty room_raw) eqn:Hempty; [by split; [|left]|].
  destruct (String.eqb_spec (_normalized_room_key room_raw)
                            (_normalized_room_key "Sala")) as [Heq|Hne];
    [by split; [|left]|].
  destruct (legend_adds address_raw (room_candidates room_raw) legend Hnd)
    as [Hnd' Hsrc].
  split; [exact Hnd'|]. intros item H.
  destruct (Hsrc item H) as [Hin|[Hc Ha]]; [by left|right].
  split; [by apply is_empty_false|]. split; [exact Hne|]. by split.
Qed.

Lemma legend_rows_source (table : list (list string)) : ∀ legend,
  NoDup (map fst legend) →
  NoDup (map fst (fold_left legend_row table legend))
  ∧ ∀ item, item ∈ fold_left legend_row table legend →
      item ∈ legend ∨ ∃ cells, cells ∈ table ∧ row_source cells item.
Proof.
  induction table as [|cells table IH]; intros legend Hnd.
  - split; [exact Hnd|]. intros item H. by left.
  - cbn [fold_left]. destruct (legend_row_source legend cells Hnd) as [Hnd1 Hsrc1].
    destruct (IH _ Hnd1) as [Hnd2 Hsrc2]. split; [exact Hnd2|].
    intros item H. destruct (Hsrc2 item H) as [Hin|(cells' & Hcells & Hrow)].
    + destruct (Hsrc1 item Hin) as [Hin'|Hrow]; [by left|right].
      exists cells. split; [apply list_elem_of_here|exact Hrow].
    + right. exists cells'. split; [by apply list_elem_of_further|exact Hrow].
Qed.

Lemma legend_tables_source (soup : LegendSoup) : ∀ legend,
  NoDup (map fst legend) →
  NoDup (map fst (fold_left (λ legend table, fold_left legend_row table legend)
                            soup legend))
  ∧ ∀ item,
      item ∈ fold_left (λ legend table, fold_left legend_row table legend)
                       soup legend →
      item ∈ legend ∨ legend_source soup item.
Proof.
  induction soup as [|table soup IH]; intros legend Hnd.
  - split; [exact Hnd|]. intros item H. by left.
  - cbn [fold_left]. destruct (legend_rows_source table legend Hnd) as [Hnd1 Hsrc1].
    destruct (IH _ Hnd1) as [Hnd2 Hsrc2]. split; [exact Hnd2|].
    intros item H. destruct (Hsrc2 item H) as [Hin|(t & cells & Ht & Hcells & Hrow)].
    + destruct (Hsrc1 item Hin) as [Hin'|(cells & Hcells & Hrow)]; [by left|right].
      exists table, cells. split; [apply list_elem_of_here|by split].
    + right. exists t, cells. split; [by apply list_elem_of_further|by split].
Qed.

Lemma room_candidates_nonempty room_raw candidate :
  room_raw ≠ "" → candidate ∈ room_candidates room_raw → candidate ≠ "".
Proof.
  intros Hraw. unfold room_candidates, non_empty.
  intros [->|Hin]%elem_of_cons; [exact Hraw|].
  apply list_elem_of_In, filter_In in Hin as [_ Hne].
  apply negb_true_iff in Hne. by apply is_empty_false.
Qed.

(** X18.  In the legend read from a page no room code appears twice and
    none is empty; every item comes from a row of some table with two
    cells at least, whose first cell is neither empty nor the heading
    [Sala]: its code is a candidate of that cell and its address is the
    second cell, normalised. *)
Theorem parse_room_legend_rows (soup : LegendSoup) :
  NoDup (map fst (parse_room_legend_html soup))
  ∧ ∀ item, item ∈ parse_room_legend_html soup →
      fst item ≠ "" ∧ legend_source soup item.
Proof.
  unfold parse_room_legend_html.
  destruct (legend_tables_source soup [] (NoDup_nil_2 : NoDup (map fst [])))
    as [Hnd Hsrc].
  split; [exact Hnd|]. intros item H.
  destruct (Hsrc item H) as [Hin|Hrow]; [by apply elem_of_nil in Hin|].
  split; [|exact Hrow].
  destruct Hrow as (table & cells & _ & _ & Hrow). unfold row_source in Hrow.
  destruct cells as [|first [|second rest]]; [done..|].
  cbv zeta in Hrow. destruct Hrow as (Hraw & _ & Hcand & _).
  by apply (room_candidates_nonempty _ _ Hraw).
Qed.

Lemma parse_room_legend_rows_witness :
  fst ("CR2", "Str. Teodor Mihali 58") ≠ ""
  ∧ legend_source [[["CR1, CR2"; "Str. Teodor Mihali 58"]]]
                  ("CR2", "Str. Teodor Mihali 58").
Proof.
  apply (parse_room_legend_rows [[["CR1, CR2"; "Str. Teodor Mihali 58"]]]).
  vm_compute. in_list.
Defined.

(** *** A code of the legend resolves to its address *)

Lemma normalized_room_key_empty : _normalized_room_key "" = "".
Proof. vm_compute. reflexivity. Qed.

(** X19.  A room code of the legend whose key is not empty resolves
    against the lookup built from the legend, to the address of the first
    legend item with the same key; when no other item has that key, to
    its own address. *)
Theorem legend_code_resolves (legend : Legend) (code address : string) :
  (code, address) ∈ legend →
  _normalized_room_key code ≠ "" →
  is_Some (resolve_room_address code (build_room_lookup legend))
  ∧ resolve_room_address code (build_room_lookup legend)
    = snd <$> List.find (λ item, String.eqb (_normalized_room_key (fst item))
                                             (_normalized_room_key code)) legend
  ∧ ((∀ item, item ∈ legend →
        _normalized_room_key (fst item) = _normalized_room_key code →
        snd item = address) →
     resolve_room_address code (build_room_lookup legend) = Some address).
Proof.
  intros Hin Hkey.
  assert (Hres : resolve_room_address code (build_room_lookup legend)
    = snd <$> List.find (λ item, String.eqb (_normalized_room_key (fst item))
                                             (_normalized_room_key code)) legend
    ∧ ∃ item, List.find (λ item, String.eqb (_normalized_room_key (fst item))
                                           (_normalized_room_key code)) legend
              = Some item).
  { assert (Hfound : ∃ item,
      List.find (λ item, String.eqb (_normalized_room_key (fst item))
                                    (_normalized_room_key code)) legend = Some item).
    { destruct (List.find _ legend) as [item|] eqn:Hfind; [by exists item|].
      apply list_elem_of_In in Hin.
      pose proof (find_none _ _ Hfind (code, address) Hin) as Hno.
      cbn [fst] in Hno. by rewrite String.eqb_refl in Hno. }
    split; [|exact Hfound]. destruct Hfound as [item Hfind].
    unfold resolve_room_address. cbv zeta.
    destruct (Py.is_empty (normalize_space code false)) eqn:Hempty.
    - exfalso. apply Hkey. rewrite <- normalized_room_key_normalize_space.
      destruct (normalize_space code false); [|discriminate].
      apply normalized_room_key_empty.
    - rewrite normalized_room_key_normalize_space, build_room_lookup_first.
      destruct (Py.is_empty (_normalized_room_key code)) eqn:Hk.
      + exfalso. apply Hkey. by destruct (_normalized_room_key code).
      + by rewrite Hfind. }
  destruct Hres as [Hres [item Hfind]]. split; [|split].
  - rewrite Hres, Hfind. by eexists.
  - exact Hres.
  - intros Honly. rewrite Hres, Hfind. cbn.
    apply find_some in Hfind as [Hitem Heq]. apply String.eqb_eq in Heq.
    f_equal. apply Honly; [by apply list_elem_of_In|exact Heq].
Qed.

Lemma legend_code_resolves_witness :
  resolve_room_address "cr 1" (build_room_lookup [("cr 1", "Str. Teodor Mihali 58")])
  = Some "Str. Teodor Mihali 58".
Proof.
  apply (legend_code_resolves [("cr 1", "Str. Teodor Mihali 58")] "cr 1"
           "Str. Teodor Mihali 58").
  - apply list_elem_of_here.
  - vm_compute. discriminate.
  - intros item Hitem _. apply list_elem_of_singleton in Hitem. by subst item.
Defined.
